(** * The call session protocol of srav-ku/mute

    A shallow embedding of the WebRTC call service
    ([client/src/lib/firebase.ts], class [WebRTCService]), of the part of the
    chat page that ends a call ([handleEndCall]) and of the server route
    [PATCH /api/calls/:callId] ([server/routes.ts]), with the properties of
    the call lifecycle stated over them.

    Conventions.
    - The service object is a record, [WebRTCService]; a method is a
      function in the monad [Act], which threads the object, collects the
      calls the method makes on the outside world ([Effect]) in program
      order, and either returns or throws.
    - Every [Date.now()] of a method is an argument of its model, in the
      order in which the method reads the clock.
    - What the browser and the Firebase client decide (whether a
      description is accepted, whether a write is rejected, which container
      formats exist) is read from an [Env].
    - An [await] on one of those calls is a sequence point: a handler is
      modelled as running to its end.  Where a property depends on what can
      run between two awaits, the awaits are steps of a transition system
      ([Module Listener]). *)

From stdpp Require Import gmap strings list fin_maps sorting.
From stdpp Require Import pretty.
From Stdlib Require Import ZArith Lia.

Local Open Scope string_scope.
Local Open Scope Z_scope.
Local Open Scope list_scope.

(** ** Data: shared/schema.ts *)

Inductive SignalType := offer | answer | ice_candidate | end_call | reject_call.

(** [payload: z.any()]: an SDP or candidate blob, or [null]. *)
Definition Payload := option string.

Record WebRTCSignal := mkSignal {
  sig_callId : string;
  fromUserId : string;
  toUserId : string;
  sig_type : SignalType;
  payload : Payload;
  sig_timestamp : Z
}.

Inductive CallType := voice | video.
Inductive CallStatus := ringing | active | ended | missed | rejected.

Record Call := mkCall {
  id : string;
  conversationId : string;
  callerId : string;
  callerUsername : string;
  receiverId : string;
  receiverUsername : string;
  type : CallType;
  status : CallStatus;
  startedAt : option Z;
  endedAt : option Z;
  duration : option Z;
  recordingUrl : option string;
  timestamp : Z
}.

(** The argument of [updateCallState]:
    [{ status?: string; startedAt?: number; endedAt?: number }]. *)
Record CallStateUpdate := mkUpdate {
  upd_status : option string;
  upd_startedAt : option Z;
  upd_endedAt : option Z
}.

(** What a call-state subscriber is handed: [snapshot.val()]. *)
Record CallState := mkCallState {
  cs_status : string;
  cs_startedAt : option Z;
  cs_endedAt : option Z
}.

(** ** Data: the browser objects the service holds *)

Inductive TrackKind := audio | video_track.
Inductive TrackOrigin := FromDevice | FromPeer | FromMixer.

Record MediaStreamTrack := mkTrack {
  kind : TrackKind;
  origin : TrackOrigin;
  trackId : string
}.

Definition MediaStream := list MediaStreamTrack.

Definition is_audio (t : MediaStreamTrack) : bool :=
  match kind t with audio => true | video_track => false end.
Definition is_video (t : MediaStreamTrack) : bool := negb (is_audio t).

Definition getAudioTracks (s : MediaStream) : list MediaStreamTrack := List.filter is_audio s.
Definition getVideoTracks (s : MediaStream) : list MediaStreamTrack := List.filter is_video s.

Inductive RTCIceConnectionState :=
  ice_new | ice_checking | ice_connected | ice_completed
  | ice_failed | ice_disconnected | ice_closed.

Record RTCPeerConnection := mkPc {
  remoteDescription : option Payload;
  localDescription : option Payload;
  iceConnectionState : RTCIceConnectionState;
  senders : list MediaStreamTrack
}.

Inductive AudioContextState := suspended | running.

(** An [AudioContext] with the streams whose source nodes are connected to
    its one destination node. *)
Record AudioContext := mkCtx {
  ctx_state : AudioContextState;
  connected_sources : list MediaStream
}.

Inductive RecordingState := rec_inactive | rec_recording | rec_paused.

Record MediaRecorder := mkRecorder {
  rec_stream : MediaStream;
  mimeType : string;
  rec_state : RecordingState
}.

Record Blob := mkBlob { blob_size : Z; blob_type : string }.

(** [new Blob(chunks, { type })] *)
Definition new_Blob (chunks : list Blob) (ty : string) : Blob :=
  mkBlob (foldr (fun c n => blob_size c + n) 0 chunks) ty.

(** ** The service object *)

Record WebRTCService := mkService {
  peerConnection : option RTCPeerConnection;
  localStream : option MediaStream;
  remoteStream : option MediaStream;
  mixedStream : option MediaStream;
  audioContext : option AudioContext;
  callId : string;
  userId : string;
  otherUserId : string;
  signalUnsubscribe : bool;
  callStateUnsubscribe : bool;
  mediaRecorder : option MediaRecorder;
  recordedChunks : list Blob;
  isCallEnded : bool;
  currentVideoDevice : option string;
  isCallActive : bool
}.

(** [new WebRTCService(userId)] *)
Definition constructor (uid : string) : WebRTCService :=
  mkService None None None None None "" uid "" false false None [] false None false.

(** ** What a method does to the outside world *)

Inductive HandlerCall :=
  | onRemoteStream (s : MediaStream)
  | onCallEnded
  | onCallAccepted
  | onError (e : string)
  | onIceConnectionStateChange (st : RTCIceConnectionState)
  | onCallStateChange (st : CallState).

Inductive Effect :=
  (* firebase/database *)
  | DbSetSignal (call to : string) (key : Z) (sig : WebRTCSignal)
  | DbRemoveSignal (call user : string) (key : Z)
  | DbUpdateCallState (call : string) (u : CallStateUpdate)
  | ScheduleRemoveCallState (call : string) (delay : Z)
  | UnsubscribeSignals
  | UnsubscribeCallState
  | SubscribeSignals (call user : string)
  | SubscribeCallState (call : string)
  (* the peer connection *)
  | PcNew
  | PcAddTrack (t : MediaStreamTrack)
  | PcCreateOffer
  | PcCreateAnswer
  | PcSetLocalDescription (p : Payload)
  | PcSetRemoteDescription (p : Payload)
  | PcAddIceCandidate (p : Payload)
  | PcClose
  (* media *)
  | GetUserMedia (want_audio want_video : bool)
  | TrackStop (t : MediaStreamTrack)
  | AudioContextNew
  | AudioContextResume
  | AudioContextClose
  | RecorderNew (stream : MediaStream) (mime : string)
  | RecorderStart (timeslice : Z)
  | RecorderStop
  (* the application's callbacks *)
  | Handler (h : HandlerCall)
  (* a call of one of the above that was refused *)
  | Refused (e : Effect).

(** What the browser and the database client answer. [None] and [false]
    are a rejected promise or a thrown exception. *)
Record Env := mkEnv {
  env_getUserMedia : bool -> bool -> option MediaStream;
  env_createOffer : option Payload;
  env_createAnswer : option Payload;
  env_setLocalDescription : Payload -> bool;
  env_setRemoteDescription : Payload -> bool;
  env_addIceCandidate : Payload -> bool;
  env_set : WebRTCSignal -> bool;
  env_updateCallState : CallStateUpdate -> bool;
  env_newAudioContext : option AudioContextState;
  env_createMediaStreamSource : MediaStream -> bool;
  env_isTypeSupported : string -> bool;
  env_newMediaRecorder : MediaStream -> string -> bool
}.

(** ** The monad of a method: state, effects in order, exceptions *)

Inductive Outcome (A : Type) :=
  | Returned (a : A)
  | Thrown (e : string).
Arguments Returned {A} a.
Arguments Thrown {A} e.

Definition Act (A : Type) : Type :=
  WebRTCService -> Outcome A * WebRTCService * list Effect.

#[export] Instance Act_ret : MRet Act := fun A a s => (Returned a, s, []).

#[export] Instance Act_bind : MBind Act := fun A B f m s =>
  match m s with
  | (Returned a, s1, l1) =>
      match f a s1 with (r, s2, l2) => (r, s2, l1 ++ l2) end
  | (Thrown e, s1, l1) => (Thrown e, s1, l1)
  end.

Definition throw {A} (e : string) : Act A := fun s => (Thrown e, s, []).

(** [try { body } catch (error) { handler }] *)
Definition try_catch {A} (body : Act A) (handler : string -> Act A) : Act A := fun s =>
  match body s with
  | (Returned a, s1, l1) => (Returned a, s1, l1)
  | (Thrown e, s1, l1) =>
      match handler e s1 with (r, s2, l2) => (r, s2, l1 ++ l2) end
  end.

Definition this : Act WebRTCService := fun s => (Returned s, s, []).
Definition assign (f : WebRTCService -> WebRTCService) : Act unit := fun s => (Returned tt, f s, []).
Definition emit (e : Effect) : Act unit := fun s => (Returned tt, s, [e]).

(** A call that may be refused: it is recorded either way, and a refused
    one throws. *)
Definition attempt (e : Effect) (ok : bool) (msg : string) : Act unit :=
  if ok then emit e else (emit (Refused e);; throw msg).

Definition when (b : bool) (m : Act unit) : Act unit := if b then m else mret tt.

Fixpoint for_each {A} (l : list A) (body : A -> Act unit) : Act unit :=
  match l with
  | [] => mret tt
  | x :: l' => body x;; for_each l' body
  end.

Definition state_of {A} (r : Outcome A * WebRTCService * list Effect) : WebRTCService := snd (fst r).
Definition effects_of {A} (r : Outcome A * WebRTCService * list Effect) : list Effect := snd r.
Definition outcome_of {A} (r : Outcome A * WebRTCService * list Effect) : Outcome A := fst (fst r).

(** Field updates of the service object. *)
Definition set_peerConnection v s := mkService v (localStream s) (remoteStream s) (mixedStream s) (audioContext s) (callId s) (userId s) (otherUserId s) (signalUnsubscribe s) (callStateUnsubscribe s) (mediaRecorder s) (recordedChunks s) (isCallEnded s) (currentVideoDevice s) (isCallActive s).
Definition set_localStream v s := mkService (peerConnection s) v (remoteStream s) (mixedStream s) (audioContext s) (callId s) (userId s) (otherUserId s) (signalUnsubscribe s) (callStateUnsubscribe s) (mediaRecorder s) (recordedChunks s) (isCallEnded s) (currentVideoDevice s) (isCallActive s).
Definition set_remoteStream v s := mkService (peerConnection s) (localStream s) v (mixedStream s) (audioContext s) (callId s) (userId s) (otherUserId s) (signalUnsubscribe s) (callStateUnsubscribe s) (mediaRecorder s) (recordedChunks s) (isCallEnded s) (currentVideoDevice s) (isCallActive s).
Definition set_mixedStream v s := mkService (peerConnection s) (localStream s) (remoteStream s) v (audioContext s) (callId s) (userId s) (otherUserId s) (signalUnsubscribe s) (callStateUnsubscribe s) (mediaRecorder s) (recordedChunks s) (isCallEnded s) (currentVideoDevice s) (isCallActive s).
Definition set_audioContext v s := mkService (peerConnection s) (localStream s) (remoteStream s) (mixedStream s) v (callId s) (userId s) (otherUserId s) (signalUnsubscribe s) (callStateUnsubscribe s) (mediaRecorder s) (recordedChunks s) (isCallEnded s) (currentVideoDevice s) (isCallActive s).
Definition set_callId v s := mkService (peerConnection s) (localStream s) (remoteStream s) (mixedStream s) (audioContext s) v (userId s) (otherUserId s) (signalUnsubscribe s) (callStateUnsubscribe s) (mediaRecorder s) (recordedChunks s) (isCallEnded s) (currentVideoDevice s) (isCallActive s).
Definition set_otherUserId v s := mkService (peerConnection s) (localStream s) (remoteStream s) (mixedStream s) (audioContext s) (callId s) (userId s) v (signalUnsubscribe s) (callStateUnsubscribe s) (mediaRecorder s) (recordedChunks s) (isCallEnded s) (currentVideoDevice s) (isCallActive s).
Definition set_signalUnsubscribe v s := mkService (peerConnection s) (localStream s) (remoteStream s) (mixedStream s) (audioContext s) (callId s) (userId s) (otherUserId s) v (callStateUnsubscribe s) (mediaRecorder s) (recordedChunks s) (isCallEnded s) (currentVideoDevice s) (isCallActive s).
Definition set_callStateUnsubscribe v s := mkService (peerConnection s) (localStream s) (remoteStream s) (mixedStream s) (audioContext s) (callId s) (userId s) (otherUserId s) (signalUnsubscribe s) v (mediaRecorder s) (recordedChunks s) (isCallEnded s) (currentVideoDevice s) (isCallActive s).
Definition set_mediaRecorder v s := mkService (peerConnection s) (localStream s) (remoteStream s) (mixedStream s) (audioContext s) (callId s) (userId s) (otherUserId s) (signalUnsubscribe s) (callStateUnsubscribe s) v (recordedChunks s) (isCallEnded s) (currentVideoDevice s) (isCallActive s).
Definition set_recordedChunks v s := mkService (peerConnection s) (localStream s) (remoteStream s) (mixedStream s) (audioContext s) (callId s) (userId s) (otherUserId s) (signalUnsubscribe s) (callStateUnsubscribe s) (mediaRecorder s) v (isCallEnded s) (currentVideoDevice s) (isCallActive s).
Definition set_isCallEnded v s := mkService (peerConnection s) (localStream s) (remoteStream s) (mixedStream s) (audioContext s) (callId s) (userId s) (otherUserId s) (signalUnsubscribe s) (callStateUnsubscribe s) (mediaRecorder s) (recordedChunks s) v (currentVideoDevice s) (isCallActive s).
Definition set_currentVideoDevice v s := mkService (peerConnection s) (localStream s) (remoteStream s) (mixedStream s) (audioContext s) (callId s) (userId s) (otherUserId s) (signalUnsubscribe s) (callStateUnsubscribe s) (mediaRecorder s) (recordedChunks s) (isCallEnded s) v (isCallActive s).
Definition set_isCallActive v s := mkService (peerConnection s) (localStream s) (remoteStream s) (mixedStream s) (audioContext s) (callId s) (userId s) (otherUserId s) (signalUnsubscribe s) (callStateUnsubscribe s) (mediaRecorder s) (recordedChunks s) (isCallEnded s) (currentVideoDevice s) v.

(** [recorder.state !== "inactive"] *)
Definition not_inactive (r : MediaRecorder) : bool :=
  match rec_state r with rec_inactive => false | _ => true end.

Definition stopped (r : MediaRecorder) : MediaRecorder :=
  mkRecorder (rec_stream r) (mimeType r) rec_inactive.

Section Service.

Variable env : Env.

(** [sendSignal]: the key of the new child is the clock, read when the
    write is made. *)
Definition sendSignal (now : Z) (signal : WebRTCSignal) : Act unit :=
  s ← this;
  attempt (DbSetSignal (callId s) (toUserId signal) now signal) (env_set env signal) "set failed".

Definition updateCallState (call : string) (u : CallStateUpdate) : Act unit :=
  attempt (DbUpdateCallState call u) (env_updateCallState env u) "update failed".

(** [cleanup] *)
Definition cleanup : Act unit :=
  s ← this;
  when (signalUnsubscribe s)
    (emit UnsubscribeSignals;; assign (set_signalUnsubscribe false));;
  when (callStateUnsubscribe s)
    (emit UnsubscribeCallState;; assign (set_callStateUnsubscribe false));;
  match localStream s with
  | Some tracks =>
      for_each tracks (fun t => emit (TrackStop t));;
      assign (set_localStream None)
  | None => mret tt
  end;;
  match peerConnection s with
  | Some _ => emit PcClose;; assign (set_peerConnection None)
  | None => mret tt
  end;;
  match audioContext s with
  | Some _ => emit AudioContextClose;; assign (set_audioContext None)
  | None => mret tt
  end;;
  assign (set_remoteStream None);;
  assign (set_mixedStream None);;
  assign (set_recordedChunks []).

(** [cleanupRemoteResources]: [t_sig] is the [timestamp] of the signal,
    [t_key] the clock at the write, [t_end] the [endedAt] of the update. *)
Definition cleanupRemoteResources (t_sig t_key t_end : Z) : Act unit :=
  s ← this;
  try_catch
    (sendSignal t_key (mkSignal (callId s) (userId s) (otherUserId s) end_call None t_sig))
    (fun _ => mret tt);;
  try_catch
    (updateCallState (callId s) (mkUpdate (Some "ended") None (Some t_end)))
    (fun _ => mret tt);;
  emit (ScheduleRemoveCallState (callId s) 3000).

(** [endCall] *)
Definition endCall (t_sig t_key t_end : Z) : Act unit :=
  s ← this;
  if isCallEnded s then mret tt
  else
    assign (set_isCallEnded true);;
    match mediaRecorder s with
    | Some r =>
        when (not_inactive r)
          (emit RecorderStop;; assign (set_mediaRecorder (Some (stopped r))))
    | None => mret tt
    end;;
    cleanup;;
    cleanupRemoteResources t_sig t_key t_end.

(** [setupPeerConnection]: a fresh connection, an empty remote stream, and
    the local tracks added to the connection. *)
Definition setupPeerConnection : Act unit :=
  s ← this;
  emit PcNew;;
  assign (set_peerConnection (Some (mkPc None None ice_new (default [] (localStream s)))));;
  assign (set_remoteStream (Some []));;
  match localStream s with
  | Some tracks => for_each tracks (fun t => emit (PcAddTrack t))
  | None => mret tt
  end.

Definition set_localDescription (p : Payload) (s : WebRTCService) : WebRTCService :=
  match peerConnection s with
  | Some pc => set_peerConnection (Some (mkPc (remoteDescription pc) (Some p) (iceConnectionState pc) (senders pc))) s
  | None => s
  end.

Definition set_remoteDescription (p : Payload) (s : WebRTCService) : WebRTCService :=
  match peerConnection s with
  | Some pc => set_peerConnection (Some (mkPc (Some p) (localDescription pc) (iceConnectionState pc) (senders pc))) s
  | None => s
  end.

Definition set_iceConnectionState (st : RTCIceConnectionState) (s : WebRTCService) : WebRTCService :=
  match peerConnection s with
  | Some pc => set_peerConnection (Some (mkPc (remoteDescription pc) (localDescription pc) st (senders pc))) s
  | None => s
  end.

(** [await this.peerConnection.setLocalDescription(d)] *)
Definition pc_setLocalDescription (d : Payload) : Act unit :=
  attempt (PcSetLocalDescription d) (env_setLocalDescription env d) "setLocalDescription failed";;
  assign (set_localDescription d).

(** [await this.peerConnection.setRemoteDescription(new RTCSessionDescription(d))] *)
Definition pc_setRemoteDescription (d : Payload) : Act unit :=
  attempt (PcSetRemoteDescription d) (env_setRemoteDescription env d) "setRemoteDescription failed";;
  assign (set_remoteDescription d).

(** [createOffer] *)
Definition createOffer (t_sig t_key : Z) : Act unit :=
  s ← this;
  match peerConnection s with
  | None => mret tt
  | Some _ =>
      match env_createOffer env with
      | None => emit (Refused PcCreateOffer);; throw "createOffer failed"
      | Some sdp =>
          emit PcCreateOffer;;
          pc_setLocalDescription sdp;;
          sendSignal t_key (mkSignal (callId s) (userId s) (otherUserId s) offer sdp t_sig)
      end
  end.

(** [acceptCall] *)
Definition acceptCall : Act unit :=
  s ← this;
  match peerConnection s with
  | None => mret tt
  | Some _ => emit (Handler onCallAccepted)
  end.

(** [handleSignal]; the two clock readings are those of the answer that an
    offer is replied to with. *)
Definition handleSignal (t_sig t_key : Z) (signal : WebRTCSignal) : Act unit :=
  s ← this;
  match peerConnection s with
  | None => mret tt
  | Some pc =>
      try_catch
        (match sig_type signal with
         | offer =>
             pc_setRemoteDescription (payload signal);;
             match env_createAnswer env with
             | None => emit (Refused PcCreateAnswer);; throw "createAnswer failed"
             | Some sdp =>
                 emit PcCreateAnswer;;
                 pc_setLocalDescription sdp;;
                 sendSignal t_key (mkSignal (callId s) (userId s) (otherUserId s) answer sdp t_sig)
             end
         | answer =>
             pc_setRemoteDescription (payload signal)
         | ice_candidate =>
             match remoteDescription pc with
             | None => mret tt
             | Some _ =>
                 attempt (PcAddIceCandidate (payload signal))
                   (env_addIceCandidate env (payload signal)) "addIceCandidate failed"
             end
         | end_call | reject_call =>
             when (negb (isCallEnded s)) (assign (set_isCallEnded true))
         end)
        (fun _ => mret tt)
  end.

(** The value listener of [listenForSignals] keeps the children of the
    mailbox that another user wrote, in key order. *)
Definition from_other (uid : string) (entry : Z * WebRTCSignal) : bool :=
  negb (String.eqb (fromUserId (snd entry)) uid).

(** The body of its [for] loop for one of them: handle, then remove. *)
Definition consume (t_sig t_key : Z) (key : Z) (signal : WebRTCSignal) : Act unit :=
  s ← this;
  handleSignal t_sig t_key signal;;
  emit (DbRemoveSignal (callId s) (userId s) key).

(** [startRecording] *)
Definition mixed_audio_track : MediaStreamTrack := mkTrack audio FromMixer "destination".

Definition pick_mimeType : string :=
  if env_isTypeSupported env "video/webm;codecs=vp9" then "video/webm;codecs=vp9"
  else if env_isTypeSupported env "video/webm;codecs=vp8" then "video/webm;codecs=vp8"
  else "video/webm".

(** The stream that is recorded: the mixed audio track and, if there is
    one, the first local video track. *)
Definition capture_stream (local : MediaStream) : MediaStream :=
  mixed_audio_track :: take 1 (getVideoTracks local).

Definition startRecording : Act unit :=
  s ← this;
  match localStream s, remoteStream s with
  | Some local, Some remote =>
      try_catch
        (match env_newAudioContext env with
         | None => emit (Refused AudioContextNew);; throw "AudioContext failed"
         | Some st =>
             emit AudioContextNew;;
             assign (set_audioContext (Some (mkCtx st [])));;
             when (match st with suspended => true | running => false end)
               (emit AudioContextResume;;
                assign (set_audioContext (Some (mkCtx running []))));;
             (if env_createMediaStreamSource env local then mret tt
              else throw "createMediaStreamSource failed");;
             (if env_createMediaStreamSource env remote then mret tt
              else throw "createMediaStreamSource failed");;
             assign (set_audioContext (Some (mkCtx running [local; remote])));;
             let tracks := capture_stream local in
             assign (set_mixedStream (Some tracks));;
             attempt (RecorderNew tracks pick_mimeType)
               (env_newMediaRecorder env tracks pick_mimeType) "MediaRecorder failed";;
             assign (set_mediaRecorder (Some (mkRecorder tracks pick_mimeType rec_inactive)));;
             assign (set_recordedChunks []);;
             emit (RecorderStart 1000);;
             assign (set_mediaRecorder (Some (mkRecorder tracks pick_mimeType rec_recording)))
         end)
        (fun _ => mret tt)
  | _, _ => mret tt
  end.

(** [mediaRecorder.ondataavailable] *)
Definition ondataavailable (data : option Blob) : Act unit :=
  s ← this;
  match mediaRecorder s, data with
  | Some _, Some b =>
      when (0 <? blob_size b) (assign (set_recordedChunks (recordedChunks s ++ [b])))
  | _, _ => mret tt
  end.

(** [getRecording]. A recorder that is stopped hands over what it has
    gathered since its last chunk ([final]) before its [onstop] runs. *)
Definition recording_of (chunks : list Blob) : option Blob :=
  match chunks with
  | [] => None
  | _ :: _ => Some (new_Blob chunks "video/webm")
  end.

Definition getRecording (final : option Blob) : Act (option Blob) :=
  s ← this;
  match mediaRecorder s with
  | Some r =>
      if not_inactive r then
        emit RecorderStop;;
        assign (set_mediaRecorder (Some (stopped r)));;
        ondataavailable final;;
        s' ← this;
        mret (recording_of (recordedChunks s'))
      else mret (recording_of (recordedChunks s))
  | None => mret (recording_of (recordedChunks s))
  end.

(** [peerConnection.ontrack] *)
Definition add_track (t : MediaStreamTrack) (st : MediaStream) : MediaStream :=
  if existsb (fun u => String.eqb (trackId u) (trackId t)) st then st else st ++ [t].

Definition ontrack (stream0 : MediaStream) : Act unit :=
  s ← this;
  match remoteStream s with
  | None => mret tt
  | Some remote =>
      let remote' := foldl (fun st t => add_track t st) remote stream0 in
      assign (set_remoteStream (Some remote'));;
      emit (Handler (onRemoteStream remote'));;
      match localStream s, mediaRecorder s with
      | Some _, None => when (isCallActive s) startRecording
      | _, _ => mret tt
      end
  end.

(** [peerConnection.onicecandidate] *)
Definition onicecandidate (candidate : option Payload) (t_sig t_key : Z) : Act unit :=
  s ← this;
  match candidate with
  | Some c => sendSignal t_key (mkSignal (callId s) (userId s) (otherUserId s) ice_candidate c t_sig)
  | None => mret tt
  end.

(** [peerConnection.oniceconnectionstatechange]: the connection has moved
    to [st]. *)
Definition is_connected (st : RTCIceConnectionState) : bool :=
  match st with ice_connected | ice_completed => true | _ => false end.

Definition oniceconnectionstatechange (st : RTCIceConnectionState) (now : Z) : Act unit :=
  s ← this;
  match peerConnection s with
  | None => mret tt
  | Some _ =>
      assign (set_iceConnectionState st);;
      emit (Handler (onIceConnectionStateChange st));;
      when (is_connected st)
        (when (negb (isCallActive s))
           (try_catch
              (updateCallState (callId s) (mkUpdate (Some "active") (Some now) None))
              (fun _ => mret tt)))
  end.

(** The call-state listener that [initializeCall] installs. *)
Definition onCallState (state : CallState) : Act unit :=
  emit (Handler (onCallStateChange state));;
  s ← this;
  when (String.eqb (cs_status state) "active" && negb (isCallActive s))
    (assign (set_isCallActive true);; startRecording);;
  s ← this;
  when (String.eqb (cs_status state) "ended" && negb (isCallEnded s))
    (assign (set_isCallEnded true);; emit (Handler onCallEnded)).

(** [initializeCall] *)
Definition initializeCall (call other : string) (want_audio want_video isInitiator : bool)
    (t_sig t_key : Z) : Act unit :=
  assign (set_callId call);;
  assign (set_otherUserId other);;
  assign (set_isCallEnded false);;
  assign (set_isCallActive false);;
  try_catch
    (match env_getUserMedia env want_audio want_video with
     | None => emit (Refused (GetUserMedia want_audio want_video));; throw "getUserMedia failed"
     | Some media =>
         emit (GetUserMedia want_audio want_video);;
         assign (set_localStream (Some media));;
         when want_video
           (match getVideoTracks media with
            | t :: _ =>
                assign (set_currentVideoDevice
                          (if String.eqb (trackId t) "" then None else Some (trackId t)))
            | [] => mret tt
            end);;
         setupPeerConnection;;
         emit (SubscribeCallState call);;
         assign (set_callStateUnsubscribe true);;
         when isInitiator (createOffer t_sig t_key);;
         s ← this;
         emit (SubscribeSignals call (userId s));;
         assign (set_signalUnsubscribe true)
     end)
    (fun e => emit (Handler (onError e));; throw e).

(** [rejectCall] *)
Definition rejectCall (t_sig t_key t_end : Z) : Act unit :=
  s ← this;
  if isCallEnded s then mret tt
  else
    assign (set_isCallEnded true);;
    try_catch
      (sendSignal t_key (mkSignal (callId s) (userId s) (otherUserId s) reject_call None t_sig);;
       updateCallState (callId s) (mkUpdate (Some "rejected") None (Some t_end)))
      (fun _ => mret tt);;
    cleanup.


(** ** Events of one endpoint

    Everything that can run a piece of the service: a method called by the
    page, a callback of the peer connection, of the recorder or of a
    database listener. *)
Inductive Event :=
  | EvInitializeCall (call other : string) (want_audio want_video isInitiator : bool) (t_sig t_key : Z)
  | EvAcceptCall
  | EvSignal (key : Z) (signal : WebRTCSignal) (t_sig t_key : Z)
  | EvTrack (stream0 : MediaStream)
  | EvIceCandidate (candidate : option Payload) (t_sig t_key : Z)
  | EvIceConnectionState (st : RTCIceConnectionState) (now : Z)
  | EvCallState (state : CallState)
  | EvDataAvailable (data : option Blob)
  | EvGetRecording (final : option Blob)
  | EvEndCall (t_sig t_key t_end : Z)
  | EvRejectCall (t_sig t_key t_end : Z).

Definition handle (ev : Event) : Act unit :=
  match ev with
  | EvInitializeCall call other a v i t_sig t_key => initializeCall call other a v i t_sig t_key
  | EvAcceptCall => acceptCall
  | EvSignal key signal t_sig t_key => consume t_sig t_key key signal
  | EvTrack stream0 => ontrack stream0
  | EvIceCandidate c t_sig t_key => onicecandidate c t_sig t_key
  | EvIceConnectionState st now => oniceconnectionstatechange st now
  | EvCallState state => onCallState state
  | EvDataAvailable data => ondataavailable data
  | EvGetRecording final => getRecording final;; mret tt
  | EvEndCall t_sig t_key t_end => endCall t_sig t_key t_end
  | EvRejectCall t_sig t_key t_end => rejectCall t_sig t_key t_end
  end.

(** The service after a sequence of events, and all it did on the way. *)
Fixpoint run (evs : list Event) (s : WebRTCService) : WebRTCService * list Effect :=
  match evs with
  | [] => (s, [])
  | ev :: evs' =>
      let r := handle ev s in
      let r' := run evs' (state_of r) in
      (fst r', effects_of r ++ snd r')
  end.

End Service.

(** ** The realtime database: mailboxes and call states

    [webrtc-signals/<call>/<user>/<key>] and [call-states/<call>]. *)

Record StoredCallState := mkStored {
  st_status : option string;
  st_startedAt : option Z;
  st_endedAt : option Z
}.

Record Database := mkDb {
  mailboxes : gmap (string * string) (gmap Z WebRTCSignal);
  callStates : gmap string StoredCallState
}.

Definition mailbox (db : Database) (call user : string) : gmap Z WebRTCSignal :=
  default ∅ (mailboxes db !! (call, user)).

(** [set(ref(db, path/key), signal)]: the child at [key] is created or
    overwritten. *)
Definition db_set (call to : string) (key : Z) (signal : WebRTCSignal) (db : Database) : Database :=
  mkDb (<[(call, to) := <[key := signal]> (mailbox db call to)]> (mailboxes db)) (callStates db).

(** [remove(ref(db, path/key))] *)
Definition db_remove (call user : string) (key : Z) (db : Database) : Database :=
  mkDb (<[(call, user) := delete key (mailbox db call user)]> (mailboxes db)) (callStates db).

(** [update(ref, updates)]: the fields given replace the stored ones. *)
Definition merge_update (u : CallStateUpdate) (old : StoredCallState) : StoredCallState :=
  mkStored
    (match upd_status u with Some x => Some x | None => st_status old end)
    (match upd_startedAt u with Some x => Some x | None => st_startedAt old end)
    (match upd_endedAt u with Some x => Some x | None => st_endedAt old end).

Definition db_update (call : string) (u : CallStateUpdate) (db : Database) : Database :=
  mkDb (mailboxes db)
       (<[call := merge_update u (default (mkStored None None None) (callStates db !! call))]> (callStates db)).

(** [initializeCallState]: the record starts as [ringing]. *)
Definition db_initializeCallState (call : string) (db : Database) : Database :=
  mkDb (mailboxes db) (<[call := mkStored (Some "ringing") None None]> (callStates db)).

(** [removeCallState] *)
Definition db_removeCallState (call : string) (db : Database) : Database :=
  mkDb (mailboxes db) (delete call (callStates db)).

Definition apply_effect (db : Database) (e : Effect) : Database :=
  match e with
  | DbSetSignal call to key signal => db_set call to key signal db
  | DbRemoveSignal call user key => db_remove call user key db
  | DbUpdateCallState call u => db_update call u db
  | _ => db
  end.

Definition apply_effects (l : list Effect) (db : Database) : Database :=
  foldl apply_effect db l.

(** The children of a mailbox in key order, as [snapshot.forEach] visits
    them. *)
Definition key_le (a b : Z * WebRTCSignal) : Prop := (a.1 <= b.1)%Z.

#[export] Instance key_le_dec a b : Decision (key_le a b) := Z_le_dec a.1 b.1.

Definition snapshot (m : gmap Z WebRTCSignal) : list (Z * WebRTCSignal) :=
  merge_sort key_le (map_to_list m).

(** ** Two endpoints and the database between them *)

Inductive Peer := Caller | Callee.

Record System := mkSystem {
  caller : WebRTCService;
  callee : WebRTCService;
  database : Database
}.

Inductive SystemEvent :=
  | AtPeer (p : Peer) (ev : Event)
  | InitializeCallState (call : string)   (* the page, when dialling *)
  | RemoveCallState (call : string).      (* the timer of cleanupRemoteResources *)

Definition system_step (env : Env) (sys : System) (e : SystemEvent) : System :=
  match e with
  | AtPeer Caller ev =>
      let r := handle env ev (caller sys) in
      mkSystem (state_of r) (callee sys) (apply_effects (effects_of r) (database sys))
  | AtPeer Callee ev =>
      let r := handle env ev (callee sys) in
      mkSystem (caller sys) (state_of r) (apply_effects (effects_of r) (database sys))
  | InitializeCallState call =>
      mkSystem (caller sys) (callee sys) (db_initializeCallState call (database sys))
  | RemoveCallState call =>
      mkSystem (caller sys) (callee sys) (db_removeCallState call (database sys))
  end.

Definition system_run (env : Env) (tr : list SystemEvent) (sys : System) : System :=
  foldl (system_step env) sys tr.

(** The stored status of the call is [active]. *)
Definition call_is_active (db : Database) (call : string) : bool :=
  match callStates db !! call with
  | Some st =>
      match st_status st with Some x => String.eqb x "active" | None => false end
  | None => false
  end.

Definition reports_connected (e : SystemEvent) : bool :=
  match e with
  | AtPeer _ (EvIceConnectionState st _) => is_connected st
  | _ => false
  end.

(** ** The signal listener, await by await

    [listenForSignals] hands the value listener of the mailbox an [async]
    callback.  The listener runs at subscription and whenever the mailbox
    changes, by a write of the peer or by a [remove] of the endpoint itself,
    each time with all the children present; every run of the callback copies
    them into an array of its own and walks it, suspended at
    [await this.handleSignal(signal)] and at [await remove(...)].  A [Task] is
    one run of the callback. *)
Module Listener.

Record Task := mkTask {
  queue : list (Z * WebRTCSignal);   (* the part of [signals] not yet removed *)
  awaiting_handle : bool             (* suspended at [await this.handleSignal(...)] of the head *)
}.

Record Config := mkConfig {
  service : WebRTCService;
  box : gmap Z WebRTCSignal;
  tasks : list Task;
  handled : list Z;                  (* keys [handleSignal] was called for, in order *)
  effects : list Effect
}.

Inductive Step :=
  | Subscribe (now : Z)                              (* [onValue] attached *)
  | Arrive (key : Z) (signal : WebRTCSignal) (now : Z)   (* the peer writes a child *)
  | Resume (i : nat) (now : Z).                      (* task [i] runs to its next await *)

Section Steps.

Variable env : Env.

(** The head of the loop: nothing left, or [handleSignal] of the next
    signal. *)
Definition enter (now : Z) (q : list (Z * WebRTCSignal)) (c : Config) : Config * Task :=
  match q with
  | [] => (c, mkTask [] false)
  | (k, signal) :: _ =>
      let r := handleSignal env now now signal (service c) in
      (mkConfig (state_of r) (box c) (tasks c) (handled c ++ [k]) (effects c ++ effects_of r),
       mkTask q true)
  end.

(** The listener runs on the present mailbox. *)
Definition fire (now : Z) (c : Config) : Config :=
  if decide (box c = ∅) then c
  else
    let q := List.filter (from_other (userId (service c))) (snapshot (box c)) in
    let '(c', t) := enter now q c in
    mkConfig (service c') (box c') (tasks c' ++ [t]) (handled c') (effects c').

Definition step (c : Config) (st : Step) : Config :=
  match st with
  | Subscribe now => fire now c
  | Arrive key signal now =>
      fire now (mkConfig (service c) (<[key := signal]> (box c)) (tasks c) (handled c) (effects c))
  | Resume i now =>
      match tasks c !! i with
      | None => c
      | Some t =>
          if awaiting_handle t then
            match queue t with
            | [] => c
            | (k, _) :: rest =>
                let c1 :=
                  mkConfig (service c) (delete k (box c)) (<[i := mkTask rest false]> (tasks c))
                    (handled c)
                    (effects c ++ [DbRemoveSignal (callId (service c)) (userId (service c)) k]) in
                if decide (box c !! k = None) then c1 else fire now c1
            end
          else
            let '(c', t') := enter now (queue t) c in
            mkConfig (service c') (box c') (<[i := t']> (tasks c')) (handled c') (effects c')
      end
  end.

Definition exec (steps : list Step) (c : Config) : Config := foldl step c steps.

End Steps.

(** How often [handleSignal] ran for the child at [key]. *)
Definition times_handled (key : Z) (c : Config) : nat :=
  length (List.filter (Z.eqb key) (handled c)).

End Listener.

(** ** The chat page: ending a call *)

(** [Math.floor((Date.now() - startedAt) / 1000)] when [startedAt] is
    truthy, else [0]. *)
Definition call_duration (started : option Z) (now : Z) : Z :=
  match started with
  | Some t => if t =? 0 then 0 else (now - t) / 1000
  | None => 0
  end.

(** [x || Date.now()] *)
Definition or_now (x : option Z) (now : Z) : Z :=
  match x with
  | Some t => if t =? 0 then now else t
  | None => now
  end.

(** The body of the [PATCH /api/calls/<id>] that ends a call. *)
Record EndCall := mkEndCall {
  ec_conversationId : string;
  ec_callerId : string;
  ec_callerUsername : string;
  ec_receiverId : string;
  ec_receiverUsername : string;
  ec_type : CallType;
  ec_startedAt : Z;
  ec_endedAt : Z;
  ec_duration : Z;
  ec_recordingUrl : option string;
  ec_timestamp : Z
}.

Definition end_call_body (c : Call) (dur : Z) (url : option string) (t_started t_ended : Z) : EndCall :=
  mkEndCall (conversationId c) (callerId c) (callerUsername c) (receiverId c)
    (receiverUsername c) (type c) (or_now (startedAt c) t_started) t_ended dur url (timestamp c).

Record Page := mkPage {
  activeCall : option Call;
  page_userId : option string;
  webrtcService : option WebRTCService;
  isEndingCallRef : bool;
  selectedConversationId : option string
}.

Inductive PageEffect :=
  | ServiceDid (e : Effect)
  | UploadRecording (recording : Blob) (call : string)
  | PatchCall (call : string) (body : EndCall)
  | PostCallMessage (conversation : string) (kind : CallType) (minutes seconds : Z).

Definition truthy (x : option string) : bool :=
  match x with
  | Some u => negb (String.eqb u "")
  | None => false
  end.

(** The clock and the world as [handleEndCall] meets them: [t_dur] is read
    for the duration, [t_sig], [t_key], [t_end] by the service, [t_started]
    and [t_ended] for the body of the request; [final] is what the recorder
    still holds; [uploaded] is the answer to the upload (the address of the
    recording, nothing when the answer is not [ok], thrown when the request
    fails); [patch_accepted] tells whether the update of the call is
    answered with success. *)
Record EndInputs := mkEndInputs {
  t_dur : Z;
  t_sig : Z;
  t_key : Z;
  t_end : Z;
  final : option Blob;
  uploaded : Outcome (option string);
  t_started : Z;
  t_ended : Z;
  patch_accepted : bool
}.

(** The background part of [handleEndCall]: fetch the recording from the
    service object, upload it if there is one, then send the update and,
    if that is accepted and a conversation is selected, the message that
    closes the call. A request that fails ends the part where it is. *)
Definition save_call (env : Env) (i : EndInputs) (p : Page) (call : Call) (dur : Z)
    (svc : option WebRTCService) : option WebRTCService * list PageEffect :=
  let fetched :=
    match svc with
    | Some s =>
        let r := getRecording (final i) s in
        (Some (state_of r), map ServiceDid (effects_of r),
         match outcome_of r with Returned b => b | Thrown _ => None end)
    | None => (None, [], None)
    end in
  let '(svc', did, recording) := fetched in
  let record url :=
    PatchCall (id call) (end_call_body call dur url (t_started i) (t_ended i))
    :: match patch_accepted i, selectedConversationId p with
       | true, Some conv =>
           if String.eqb conv "" then []
           else [PostCallMessage conv (type call) (dur / 60) (Z.rem dur 60)]
       | _, _ => []
       end in
  (svc',
   did ++ match recording with
          | Some blob =>
              UploadRecording blob (id call)
              :: match uploaded i with
                 | Returned url => record url
                 | Thrown _ => []
                 end
          | None => record None
          end).

(** [handleEndCall]: the page after it, the service object its closure
    still holds, and what was done. *)
Definition handleEndCall (env : Env) (i : EndInputs) (p : Page)
    : Page * option WebRTCService * list PageEffect :=
  match activeCall p with
  | Some call =>
      if negb (truthy (page_userId p)) then (p, webrtcService p, [])
      else if isEndingCallRef p then (p, webrtcService p, [])
      else
        let dur := call_duration (startedAt call) (t_dur i) in
        let '(svc, did) :=
          match webrtcService p with
          | Some s =>
              let r := endCall env (t_sig i) (t_key i) (t_end i) s in
              (Some (state_of r), map ServiceDid (effects_of r))
          | None => (None, [])
          end in
        let p' := mkPage None (page_userId p) None false (selectedConversationId p) in
        let '(svc', saved) := save_call env i p call dur svc in
        (p', svc', did ++ saved)
  | None => (p, webrtcService p, [])
  end.

(** The body of the first [PATCH] among the effects, if there is one. *)
Fixpoint patched (l : list PageEffect) : option EndCall :=
  match l with
  | [] => None
  | PatchCall _ b :: _ => Some b
  | _ :: l' => patched l'
  end.

Definition is_patch (e : PageEffect) : bool :=
  match e with PatchCall _ _ => true | _ => false end.

Definition is_upload (e : PageEffect) : bool :=
  match e with UploadRecording _ _ => true | _ => false end.

(** What the service did, among the effects of the page. *)
Fixpoint service_effects (l : list PageEffect) : list Effect :=
  match l with
  | [] => []
  | ServiceDid e :: l' => e :: service_effects l'
  | _ :: l' => service_effects l'
  end.

(** ** The server: [PATCH /api/calls/:callId] *)

Inductive JValue :=
  | JNull
  | JBool (b : bool)
  | JNum (n : Z)
  | JStr (s : string)
  | JOther.

(** [req.body] *)
Abbreviation Body := (gmap string JValue).

Definition get_string (b : Body) (k : string) : option string :=
  match b !! k with Some (JStr s) => Some s | _ => None end.

Definition get_number (b : Body) (k : string) : option Z :=
  match b !! k with Some (JNum n) => Some n | _ => None end.

(** [z.string().optional()], [z.number().optional()]: absent, or of the
    type. The outer [None] is a validation error. *)
Definition get_optional_string (b : Body) (k : string) : option (option string) :=
  match b !! k with
  | None => Some None
  | Some (JStr s) => Some (Some s)
  | Some _ => None
  end.

Definition get_optional_number (b : Body) (k : string) : option (option Z) :=
  match b !! k with
  | None => Some None
  | Some (JNum n) => Some (Some n)
  | Some _ => None
  end.

Definition parse_CallType (s : string) : option CallType :=
  if String.eqb s "voice" then Some voice
  else if String.eqb s "video" then Some video
  else None.

Definition parse_CallStatus (s : string) : option CallStatus :=
  if String.eqb s "ringing" then Some ringing
  else if String.eqb s "active" then Some active
  else if String.eqb s "ended" then Some ended
  else if String.eqb s "missed" then Some missed
  else if String.eqb s "rejected" then Some rejected
  else None.

(** [endCallSchema.parse(req.body)] *)
Definition parse_endCall (b : Body) : option EndCall :=
  conv ← get_string b "conversationId";
  cid ← get_string b "callerId";
  cname ← get_string b "callerUsername";
  rid ← get_string b "receiverId";
  rname ← get_string b "receiverUsername";
  ty ← get_string b "type" ≫= parse_CallType;
  st ← get_string b "status";
  started ← get_number b "startedAt";
  ended_at ← get_number b "endedAt";
  dur ← get_number b "duration";
  url ← get_optional_string b "recordingUrl";
  ts ← get_number b "timestamp";
  if String.eqb st "ended"
  then Some (mkEndCall conv cid cname rid rname ty started ended_at dur url ts)
  else None.

Record UpdateCall := mkUpdateCall {
  uc_status : option CallStatus;
  uc_startedAt : option Z;
  uc_endedAt : option Z;
  uc_duration : option Z;
  uc_recordingUrl : option string
}.

(** [updateCallSchema.parse(req.body)] *)
Definition parse_updateCall (b : Body) : option UpdateCall :=
  st ← match b !! "status" with
       | None => Some None
       | Some (JStr s) => Some <$> parse_CallStatus s
       | Some _ => None
       end;
  started ← get_optional_number b "startedAt";
  ended_at ← get_optional_number b "endedAt";
  dur ← get_optional_number b "duration";
  url ← get_optional_string b "recordingUrl";
  Some (mkUpdateCall st started ended_at dur url).

(** [const call: Call = { id: callId, ...validatedEndCall }] *)
Definition call_of (callId : string) (v : EndCall) : Call :=
  mkCall callId (ec_conversationId v) (ec_callerId v) (ec_callerUsername v) (ec_receiverId v)
    (ec_receiverUsername v) (ec_type v) ended (Some (ec_startedAt v)) (Some (ec_endedAt v))
    (Some (ec_duration v)) (ec_recordingUrl v) (ec_timestamp v).

(** What the sheets service stands on: whether a spreadsheet is
    configured, the user store, and whether appending a row goes through. *)
Record Sheets := mkSheets {
  configured : bool;
  getUser : string -> Outcome (option string);     (* the [username] of the user, if any *)
  formatTimestamp12Hour : Z -> string;
  number_toString : Z -> string;
  append : list string -> bool
}.

Inductive ServerEffect :=
  | SheetsAppend (range : string) (row : list string).

Definition or_else (x y : string) : string := if String.eqb x "" then y else x.

Definition show_CallType (t : CallType) : string :=
  match t with voice => "voice" | video => "video" end.

Definition show_CallStatus (s : CallStatus) : string :=
  match s with
  | ringing => "ringing" | active => "active" | ended => "ended"
  | missed => "missed" | rejected => "rejected"
  end.

(** The row [logCall] writes for a call. *)
Definition call_row (sh : Sheets) (c : Call) (caller_name receiver_name : option string) : list string :=
  [ formatTimestamp12Hour sh (timestamp c);
    or_else (or_else (default "" caller_name) (callerUsername c)) (callerId c);
    or_else (or_else (default "" receiver_name) (receiverUsername c)) (receiverId c);
    show_CallType (type c);
    match duration c with
    | Some d => if d =? 0 then "0" else number_toString sh d
    | None => "0"
    end;
    default "" (recordingUrl c);
    show_CallStatus (status c) ].

(** [googleSheetsService.logCall(call, throwOnError)] *)
Definition logCall (sh : Sheets) (c : Call) (throwOnError : bool) : Outcome unit * list ServerEffect :=
  if negb (configured sh) then
    (if throwOnError then Thrown "Google Sheets not configured, cannot log call" else Returned tt, [])
  else
    let attempt :=
      match getUser sh (callerId c) with
      | Thrown e => (Thrown e, [])
      | Returned caller_name =>
          match getUser sh (receiverId c) with
          | Thrown e => (Thrown e, [])
          | Returned receiver_name =>
              let row := call_row sh c caller_name receiver_name in
              if append sh row then (Returned tt, [SheetsAppend "Calls!A:G" row])
              else (Thrown "append failed", [])
          end
      end in
    match attempt with
    | (Thrown e, l) => (if throwOnError then Thrown e else Returned tt, l)
    | ok => ok
    end.

Inductive ResponseBody :=
  | EndedOk (callId : string) (c : Call)
  | UpdatedOk (callId : string) (u : UpdateCall)
  | InvalidUpdate
  | LogFailed (details : string).

Record Response := mkResponse { code : Z; json : ResponseBody }.

(** [req.body.status === "ended"] *)
Definition status_is_ended (b : Body) : bool :=
  match b !! "status" with
  | Some (JStr s) => String.eqb s "ended"
  | _ => false
  end.

(** [app.patch("/api/calls/:callId", ...)] *)
Definition patch_call (sh : Sheets) (callId : string) (b : Body) : Response * list ServerEffect :=
  if status_is_ended b then
    match parse_endCall b with
    | None => (mkResponse 400 InvalidUpdate, [])
    | Some v =>
        let c := call_of callId v in
        match logCall sh c true with
        | (Thrown e, l) => (mkResponse 503 (LogFailed e), l)
        | (Returned _, l) => (mkResponse 200 (EndedOk callId c), l)
        end
    end
  else
    match parse_updateCall b with
    | None => (mkResponse 400 InvalidUpdate, [])
    | Some u => (mkResponse 200 (UpdatedOk callId u), [])
    end.

(** ** Reading a list of effects *)

(** The call behind an effect, granted or refused. *)
Definition requested (e : Effect) : Effect :=
  match e with Refused e' => e' | _ => e end.

(** What is recorded for a call that is granted ([true]) or refused. *)
Definition outcome_as (ok : bool) (e : Effect) : Effect :=
  if ok then e else Refused e.

(** An end-call signal put on its way to the peer. *)
Definition is_end_call_signal (e : Effect) : bool :=
  match requested e with
  | DbSetSignal _ _ _ signal =>
      match sig_type signal with end_call => true | _ => false end
  | _ => false
  end.

(** A write of status [ended] to the call state. *)
Definition is_ended_write (e : Effect) : bool :=
  match requested e with
  | DbUpdateCallState _ u =>
      match upd_status u with Some st => String.eqb st "ended" | None => false end
  | _ => false
  end.

(** A write of status [active] to the call state that went through. *)
Definition marks_active (e : Effect) : bool :=
  match e with
  | DbUpdateCallState _ u =>
      match upd_status u with Some st => String.eqb st "active" | None => false end
  | _ => false
  end.

(** A write to the call state, granted or refused. *)
Definition writes_call_state (e : Effect) : bool :=
  match requested e with DbUpdateCallState _ _ => true | _ => false end.

(** An effect that does not make a call active. *)
Definition inactive (e : Effect) : Prop := marks_active e = false.

(** All that a method does, in whatever state it is called, satisfies
    [P]. *)
Definition emits_only (P : Effect -> Prop) {A} (m : Act A) : Prop :=
  forall s, Forall P (effects_of (m s)).





(** The release of a local resource. *)
Definition is_release (e : Effect) : bool :=
  match e with
  | RecorderStop | TrackStop _ | PcClose | AudioContextClose => true
  | _ => false
  end.


Definition is_onCallEnded (e : Effect) : bool :=
  match e with Handler onCallEnded => true | _ => false end.

Definition is_add_candidate (e : Effect) : bool :=
  match e with PcAddIceCandidate _ => true | _ => false end.

Definition count (p : Effect -> bool) (l : list Effect) : nat :=
  length (List.filter p l).




Definition is_initializeCall (ev : Event) : bool :=
  match ev with EvInitializeCall _ _ _ _ _ _ _ => true | _ => false end.

(** What [cleanup] leaves and does. *)
Definition cleaned (s : WebRTCService) : WebRTCService :=
  mkService None None None None None (callId s) (userId s) (otherUserId s) false false
    (mediaRecorder s) [] (isCallEnded s) (currentVideoDevice s) (isCallActive s).

Definition cleanup_effects (s : WebRTCService) : list Effect :=
  (if signalUnsubscribe s then [UnsubscribeSignals] else [])
  ++ (if callStateUnsubscribe s then [UnsubscribeCallState] else [])
  ++ map TrackStop (default [] (localStream s))
  ++ match peerConnection s with Some _ => [PcClose] | None => [] end
  ++ match audioContext s with Some _ => [AudioContextClose] | None => [] end.

Definition end_call_signal (s : WebRTCService) (t_sig : Z) : WebRTCSignal :=
  mkSignal (callId s) (userId s) (otherUserId s) end_call None t_sig.

Definition ended_update (t_end : Z) : CallStateUpdate :=
  mkUpdate (Some "ended") None (Some t_end).

Definition remote_effects (env : Env) (s : WebRTCService) (t_sig t_key t_end : Z) : list Effect :=
  [ outcome_as (env_set env (end_call_signal s t_sig))
      (DbSetSignal (callId s) (otherUserId s) t_key (end_call_signal s t_sig));
    outcome_as (env_updateCallState env (ended_update t_end))
      (DbUpdateCallState (callId s) (ended_update t_end));
    ScheduleRemoveCallState (callId s) 3000 ].

(** What [endCall] leaves when it finds the latch open. *)
Definition recorder_stopped (s : WebRTCService) : option MediaRecorder :=
  match mediaRecorder s with
  | Some r => if not_inactive r then Some (stopped r) else Some r
  | None => None
  end.

Definition after_endCall (s : WebRTCService) : WebRTCService :=
  cleaned (set_mediaRecorder (recorder_stopped s) (set_isCallEnded true s)).

(** ** A concrete call, used to run the model

    Alice dials Bob; every request to the browser and to the database is
    granted. *)
Module Example.

Definition mic : MediaStreamTrack := mkTrack audio FromDevice "mic".
Definition cam : MediaStreamTrack := mkTrack video_track FromDevice "cam".
Definition alice_voice : MediaStreamTrack := mkTrack audio FromPeer "alice-audio".
Definition alice_picture : MediaStreamTrack := mkTrack video_track FromPeer "alice-video".

Definition granted : Env :=
  mkEnv (fun a v => Some ((if a then [mic] else []) ++ (if v then [cam] else [])))
    (Some (Some "sdp-offer")) (Some (Some "sdp-answer"))
    (fun _ => true) (fun _ => true) (fun _ => true) (fun _ => true) (fun _ => true)
    (Some running) (fun _ => true) (fun _ => true) (fun _ _ => true).

(** The same world, in which the database refuses every write. *)
Definition offline : Env :=
  mkEnv (env_getUserMedia granted) (env_createOffer granted) (env_createAnswer granted)
    (fun _ => true) (fun _ => true) (fun _ => true) (fun _ => false) (fun _ => false)
    (Some running) (fun _ => true) (fun _ => true) (fun _ _ => true).

Definition the_offer : WebRTCSignal := mkSignal "c1" "alice" "bob" offer (Some "sdp-offer") 90.
Definition a_candidate : WebRTCSignal := mkSignal "c1" "alice" "bob" ice_candidate (Some "candidate-1") 95.
Definition another_candidate : WebRTCSignal := mkSignal "c1" "alice" "bob" ice_candidate (Some "candidate-2") 95.
Definition the_end_call : WebRTCSignal := mkSignal "c1" "alice" "bob" end_call None 9000.

Definition chunk : Blob := mkBlob 500 "video/webm".

(** Bob accepts a video call, the offer is answered, Alice's media
    arrives, the connection is established, the call state turns active and
    the recorder delivers a first chunk. *)
Definition bob_joins : list Event :=
  [ EvInitializeCall "c1" "alice" true true false 0 0;
    EvAcceptCall;
    EvSignal 100 the_offer 110 111;
    EvTrack [alice_voice; alice_picture];
    EvIceConnectionState ice_connected 2000;
    EvCallState (mkCallState "active" (Some 2000) None);
    EvDataAvailable (Some chunk) ].

Definition bob_in_call : WebRTCService := fst (run granted bob_joins (constructor "bob")).

(** Bob when his connection has reported [connected], before his
    call-state listener has seen [active]. *)
Definition bob_connected : WebRTCService := fst (run granted (take 5 bob_joins) (constructor "bob")).

(** Bob right after [initializeCall], before any signal is handled. *)
Definition bob_waiting : WebRTCService :=
  fst (run granted [EvInitializeCall "c1" "alice" true true false 0 0] (constructor "bob")).

(** Alice has hung up: her end-call signal is handled by Bob's listener,
    then Bob's call-state listener sees [ended]. *)
Definition alice_hangs_up : list Event :=
  [ EvSignal 9001 the_end_call 9100 9101;
    EvCallState (mkCallState "ended" (Some 2000) (Some 9002)) ].

(** The same, seen by Bob in the other order. *)
Definition alice_hangs_up' : list Event :=
  [ EvCallState (mkCallState "ended" (Some 2000) (Some 9002));
    EvSignal 9001 the_end_call 9100 9101 ].

(** Alice dials, Bob accepts and the offer and the answer are exchanged;
    no connection has reported [connected] yet. *)
Definition the_answer : WebRTCSignal := mkSignal "c1" "bob" "alice" answer (Some "sdp-answer") 110.

Definition negotiated : list SystemEvent :=
  [ InitializeCallState "c1";
    AtPeer Caller (EvInitializeCall "c1" "bob" true true true 50 51);
    AtPeer Callee (EvInitializeCall "c1" "alice" true true false 0 0);
    AtPeer Callee EvAcceptCall;
    AtPeer Callee (EvSignal 51 the_offer 110 111);
    AtPeer Callee (EvTrack [alice_voice; alice_picture]);
    AtPeer Caller (EvSignal 111 the_answer 120 121);
    AtPeer Caller (EvIceConnectionState ice_checking 130);
    AtPeer Callee (EvIceConnectionState ice_checking 131) ].

Definition idle : System := mkSystem (constructor "alice") (constructor "bob") (mkDb ∅ ∅).

Definition the_call : Call :=
  mkCall "c1" "conv-1" "alice" "Alice" "bob" "Bob" video active (Some 1000) None None None 900.

Definition ringing_call : Call :=
  mkCall "c1" "conv-1" "alice" "Alice" "bob" "Bob" video ringing None None None None 900.

(** Alice right after dialling: her offer was written at clock 51. *)
Definition alice_dialling : WebRTCService :=
  fst (run granted [EvInitializeCall "c1" "bob" true true true 50 51] (constructor "alice")).

(** Her connection finds two candidates within one millisecond. *)
Definition two_candidates : list Event :=
  [ EvIceCandidate (Some (Some "candidate-1")) 5000 5000;
    EvIceCandidate (Some (Some "candidate-2")) 5000 5000 ].

Definition empty_database : Database := mkDb ∅ ∅.

(** A spreadsheet that takes every row, and one that is not reachable. *)
Definition sheets_up : Sheets :=
  mkSheets true (fun _ => Returned None) (fun _ => "1/1/1970, 12:00:00 AM") (fun _ => "126")
    (fun _ => true).

Definition sheets_down : Sheets :=
  mkSheets true (fun _ => Returned None) (fun _ => "1/1/1970, 12:00:00 AM") (fun _ => "126")
    (fun _ => false).

(** The request that ends the call, and one that only marks it active. *)
Definition ended_body : gmap string JValue :=
  list_to_map
    [ ("conversationId", JStr "conv-1"); ("callerId", JStr "alice");
      ("callerUsername", JStr "Alice"); ("receiverId", JStr "bob");
      ("receiverUsername", JStr "Bob"); ("type", JStr "video"); ("status", JStr "ended");
      ("startedAt", JNum 1000); ("endedAt", JNum 128000); ("duration", JNum 126);
      ("timestamp", JNum 900) ].

Definition active_body : gmap string JValue :=
  list_to_map [ ("status", JStr "active"); ("startedAt", JNum 1000) ].

(** Bob's listener at the moment it is attached: Alice's offer and a
    candidate of hers are waiting in his mailbox. *)
Definition bob_listening : Listener.Config :=
  Listener.mkConfig bob_waiting (<[100 := the_offer]> (<[101 := a_candidate]> ∅)) [] [] [].

(** The same with only the offer waiting. *)
Definition bob_listening' : Listener.Config :=
  Listener.mkConfig bob_waiting (<[100 := the_offer]> ∅) [] [] [].

(** Bob's page during the call, holding the service [s]. *)
Definition bob_page (s : WebRTCService) : Page :=
  mkPage (Some the_call) (Some "bob") (Some s) false (Some "conv-1").

(** The user ends the call at 127000; the request that records it is
    stamped a second later. *)
Definition ending : EndInputs :=
  mkEndInputs 127000 127001 127002 127003 (Some chunk)
    (Returned (Some "https://cdn/rec.webm")) 128000 128000 true.

End Example.

(** ** Further readings of effects and states *)

(** A reject-call signal put on its way to the peer. *)
Definition is_reject_call_signal (e : Effect) : bool :=
  match requested e with
  | DbSetSignal _ _ _ signal =>
      match sig_type signal with reject_call => true | _ => false end
  | _ => false
  end.

(** A write of status [rejected] to the call state. *)
Definition is_rejected_write (e : Effect) : bool :=
  match requested e with
  | DbUpdateCallState _ u =>
      match upd_status u with Some st => String.eqb st "rejected" | None => false end
  | _ => false
  end.

(** An answer put on its way to the peer. *)
Definition is_answer_signal (e : Effect) : bool :=
  match requested e with
  | DbSetSignal _ _ _ signal =>
      match sig_type signal with answer => true | _ => false end
  | _ => false
  end.

(** Signals of the negotiation: all but end-call and reject-call. *)
Definition negotiates (signal : WebRTCSignal) : bool :=
  match sig_type signal with
  | offer | answer | ice_candidate => true
  | end_call | reject_call => false
  end.

(** Every recorded chunk has data. *)
Definition chunks_have_data (s : WebRTCService) : Prop :=
  Forall (fun c => 0 < blob_size c) (recordedChunks s).

(** What [JSON.stringify] makes of the body that [handleEndCall] sends:
    a key whose value is [undefined] is left out. *)
Definition json_of_EndCall (v : EndCall) : gmap string JValue :=
  let required : gmap string JValue :=
    list_to_map
      [ ("conversationId", JStr (ec_conversationId v)); ("callerId", JStr (ec_callerId v));
        ("callerUsername", JStr (ec_callerUsername v)); ("receiverId", JStr (ec_receiverId v));
        ("receiverUsername", JStr (ec_receiverUsername v));
        ("type", JStr (show_CallType (ec_type v))); ("status", JStr "ended");
        ("startedAt", JNum (ec_startedAt v)); ("endedAt", JNum (ec_endedAt v));
        ("duration", JNum (ec_duration v)); ("timestamp", JNum (ec_timestamp v)) ] in
  match ec_recordingUrl v with
  | Some url => <["recordingUrl" := JStr url]> required
  | None => required
  end.

(** A method keeps a property of the service, whether it returns or
    throws. *)
Definition keeps (Q : WebRTCService -> Prop) {A} (m : Act A) : Prop :=
  forall s, Q s -> Q (state_of (m s)).

Definition is_onError (e : Effect) : bool :=
  match e with Handler (onError _) => true | _ => false end.

Definition is_subscribe_signals (e : Effect) : bool :=
  match e with SubscribeSignals _ _ => true | _ => false end.

(** The service once [initializeCall] has set its first four fields. *)
Definition session_reset (call other : string) (s : WebRTCService) : WebRTCService :=
  set_isCallActive false (set_isCallEnded false (set_otherUserId other (set_callId call s))).

(** The service when [initializeCall], with the media granted, has set up
    the connection and subscribed to the call state. *)
Definition connection_set_up (media : MediaStream) (want_video : bool) (s : WebRTCService)
    : WebRTCService :=
  set_callStateUnsubscribe true
    (set_remoteStream (Some [])
       (set_peerConnection (Some (mkPc None None ice_new media))
          ((if want_video
            then match getVideoTracks media with
                 | t :: _ =>
                     set_currentVideoDevice
                       (if String.eqb (trackId t) "" then None else Some (trackId t))
                 | [] => fun s => s
                 end
            else fun s => s)
             (set_localStream (Some media) s)))).

(** The latches of [s0] are still set in [s], and the identifiers are the
    same. *)
Definition latches_kept (s0 s : WebRTCService) : Prop :=
  (isCallEnded s0 = true -> isCallEnded s = true)
  /\ (isCallActive s0 = true -> isCallActive s = true)
  /\ callId s = callId s0 /\ otherUserId s = otherUserId s0 /\ userId s = userId s0.

(** An effect that is no call of [onCallEnded]. *)
Definition not_onCallEnded (e : Effect) : Prop := is_onCallEnded e = false.

(** The write that a connection reporting [connected] or [completed] at
    [now] makes to the call state. *)
Definition active_update (now : Z) : CallStateUpdate := mkUpdate (Some "active") (Some now) None.

Definition active_write (env : Env) (s : WebRTCService) (now : Z) : Effect :=
  outcome_as (env_updateCallState env (active_update now))
    (DbUpdateCallState (callId s) (active_update now)).

(** What happens to a session while its call goes on: reports of the
    connection, call states, remote tracks and data of the recorder. *)
Definition in_call (ev : Event) : bool :=
  match ev with
  | EvIceConnectionState _ _ | EvCallState _ | EvTrack _ | EvDataAvailable _ => true
  | _ => false
  end.

(** ** The server: [POST /api/calls] *)

(** [insertCallSchema]: [callSchema] without [id], [timestamp],
    [startedAt], [endedAt], [duration] and [recordingUrl]. A key of the
    body that the schema does not name is left out of the parsed value. *)
Record InsertCall := mkInsertCall {
  ic_conversationId : string;
  ic_callerId : string;
  ic_callerUsername : string;
  ic_receiverId : string;
  ic_receiverUsername : string;
  ic_type : CallType;
  ic_status : CallStatus
}.

Definition parse_insertCall (b : Body) : option InsertCall :=
  conv ← get_string b "conversationId";
  cid ← get_string b "callerId";
  cname ← get_string b "callerUsername";
  rid ← get_string b "receiverId";
  rname ← get_string b "receiverUsername";
  ty ← get_string b "type" ≫= parse_CallType;
  st ← get_string b "status" ≫= parse_CallStatus;
  Some (mkInsertCall conv cid cname rid rname ty st).

(** The keys that [insertCallSchema] names. *)
Definition insertCall_keys : list string :=
  ["conversationId"; "callerId"; "callerUsername"; "receiverId"; "receiverUsername"; "type";
   "status"].

(** [`${Date.now()}-${Math.random().toString(36).substr(2, 9)}`], with
    [rnd] the characters drawn. *)
Definition new_call_id (now : Z) (rnd : string) : string :=
  String.append (pretty now) (String.append "-" rnd).

Inductive PostBody :=
  | CreatedCall (c : Call)
  | InvalidCall.

Record PostResponse := mkPostResponse { post_code : Z; post_json : PostBody }.

(** [{ ...validatedData, id: validatedData.id || <new id>, timestamp: Date.now() }]:
    the parsed value has no [id]. *)
Definition created_call (v : InsertCall) (t_id t_stamp : Z) (rnd : string) : Call :=
  mkCall (new_call_id t_id rnd) (ic_conversationId v) (ic_callerId v) (ic_callerUsername v)
    (ic_receiverId v) (ic_receiverUsername v) (ic_type v) (ic_status v) None None None None
    t_stamp.

(** [app.post("/api/calls", ...)]: the log is started and not waited
    for, and what it throws is caught. *)
Definition post_call (sh : Sheets) (t_id t_stamp : Z) (rnd : string) (b : Body)
    : PostResponse * list ServerEffect :=
  match parse_insertCall b with
  | None => (mkPostResponse 400 InvalidCall, [])
  | Some v =>
      let c := created_call v t_id t_stamp rnd in
      (mkPostResponse 201 (CreatedCall c), snd (logCall sh c false))
  end.

(** What [JSON.stringify] makes of a call and of an update: a key whose
    value is [undefined] is left out. *)
Definition with_key {A} (k : string) (f : A -> JValue) (x : option A) (m : Body) : Body :=
  match x with
  | Some a => <[k := f a]> m
  | None => m
  end.

Definition json_of_Call (c : Call) : Body :=
  with_key "startedAt" JNum (startedAt c)
    (with_key "endedAt" JNum (endedAt c)
       (with_key "duration" JNum (duration c)
          (with_key "recordingUrl" JStr (recordingUrl c)
             (list_to_map
                [ ("id", JStr (id c)); ("conversationId", JStr (conversationId c));
                  ("callerId", JStr (callerId c)); ("callerUsername", JStr (callerUsername c));
                  ("receiverId", JStr (receiverId c));
                  ("receiverUsername", JStr (receiverUsername c));
                  ("type", JStr (show_CallType (type c)));
                  ("status", JStr (show_CallStatus (status c)));
                  ("timestamp", JNum (timestamp c)) ])))).

Definition json_of_UpdateCall (u : UpdateCall) : Body :=
  with_key "status" (fun st => JStr (show_CallStatus st)) (uc_status u)
    (with_key "startedAt" JNum (uc_startedAt u)
       (with_key "endedAt" JNum (uc_endedAt u)
          (with_key "duration" JNum (uc_duration u)
             (with_key "recordingUrl" JStr (uc_recordingUrl u) ∅)))).

(** ** The chat page: dialling, and the incoming call *)

(** The realtime database as the page uses it: the call states and the
    mailboxes, and the entries [incoming-calls/<user>/<call>]. *)
Record Realtime := mkRealtime {
  rt_database : Database;
  incomingCalls : gmap (string * string) Call
}.

Inductive DialEffect :=
  | WriteCallState (c : Call)                  (* [initializeCallState] *)
  | WriteIncomingCall (c : Call)               (* [sendIncomingCall] *)
  | RemoveIncomingCall (user call : string)    (* [removeIncomingCall] *)
  | DialService (e : Effect)                   (* what the new service object did *)
  | DialPage (e : PageEffect)                  (* what a [handleEndCall] started by [onError] did *)
  | PostCall (c : Call)                        (* [POST /api/calls] *)
  | PatchStatus (call : string) (u : UpdateCall)
  | Toast (title description : string)
  | Failed (e : DialEffect).                   (* a call of one of the above that threw *)

(** The clock and the world as [handleStartCall] meets them. *)
Record DialInputs := mkDialInputs {
  d_t_id : Z;
  d_rnd : string;
  d_t_stamp : Z;
  d_initializeCallState : bool;
  d_sendIncomingCall : bool;
  d_t_sig : Z;
  d_t_key : Z;
  d_post : bool;
  d_end : EndInputs
}.

Definition is_video_call (ty : CallType) : bool :=
  match ty with video => true | voice => false end.

(** [handleStartCall(type)] on the page [p], with the other user of the
    conversation and the name of the user. Result: the page, the service
    object that was made, and what was done. When the service calls
    [onError], the handler shows a toast and starts [handleEndCall], which
    acts on the page as the handler's closure has it. *)
Definition handleStartCall (env : Env) (i : DialInputs) (ty : CallType)
    (otherUser : option (string * string)) (username : string) (p : Page)
    : Page * option WebRTCService * list DialEffect :=
  match selectedConversationId p, otherUser, page_userId p with
  | Some conv, Some (other_id, other_name), Some uid =>
      if String.eqb conv "" || String.eqb uid "" || String.eqb username "" then (p, None, [])
      else
        let call := mkCall (new_call_id (d_t_id i) (d_rnd i)) conv uid username other_id
                      other_name ty ringing None None None None (d_t_stamp i) in
        if negb (d_initializeCallState i) then
          (p, None, [Failed (WriteCallState call); Toast "Call Failed" "initializeCallState failed"])
        else if negb (d_sendIncomingCall i) then
          (p, None, [WriteCallState call; Failed (WriteIncomingCall call);
                     Toast "Call Failed" "sendIncomingCall failed"])
        else
          let r := initializeCall env (id call) other_id true (is_video_call ty) true
                     (d_t_sig i) (d_t_key i) (constructor uid) in
          let written := [WriteCallState call; WriteIncomingCall call]
                         ++ map DialService (effects_of r) in
          match outcome_of r with
          | Thrown e =>
              let ended := handleEndCall env (d_end i) p in
              (fst (fst ended), Some (state_of r),
               written ++ [Toast "Call Error" e] ++ map DialPage (snd ended)
               ++ [Toast "Call Failed" e])
          | Returned _ =>
              let p' := mkPage (Some call) (page_userId p) (Some (state_of r))
                          (isEndingCallRef p) (selectedConversationId p) in
              (p', Some (state_of r),
               written ++ if d_post i then [PostCall call]
                          else [Failed (PostCall call); Toast "Call Failed" "request failed"])
          end
  | _, _, _ => (p, None, [])
  end.

(** The callee's side of the page. *)
Record CalleePage := mkCalleePage {
  callee_userId : option string;
  incomingCall : option Call
}.

(** The listener of [subscribeToIncomingCalls] with the page's callback,
    on the children of [incoming-calls/<user>] in the order of the
    snapshot; nothing is called when there is no child. *)
Definition is_ringing (c : Call) : bool :=
  match status c with ringing => true | _ => false end.

Definition on_incoming_calls (children : list Call) (p : CalleePage) : CalleePage :=
  match callee_userId p with
  | Some uid =>
      if String.eqb uid "" then p
      else
        foldl (fun q c =>
                 if is_ringing c && String.eqb (receiverId c) uid
                 then mkCalleePage (callee_userId q) (Some c) else q)
              p children
  | None => p
  end.

(** The listener that the page keeps on the call state of the incoming
    call ([subscribeToCallStateWithRemoval]); [None] is a call state that
    does not exist. *)
Definition withdrawn (state : option CallState) : bool :=
  match state with
  | None => true
  | Some st => String.eqb (cs_status st) "ended" || String.eqb (cs_status st) "rejected"
  end.

Definition on_incoming_call_state (state : option CallState) (p : CalleePage)
    : CalleePage * list DialEffect :=
  match incomingCall p with
  | Some c =>
      if withdrawn state then
        (mkCalleePage (callee_userId p) None,
         match callee_userId p with
         | Some uid => if String.eqb uid "" then [] else [RemoveIncomingCall uid (id c)]
         | None => []
         end)
      else (p, [])
  | None => (p, [])
  end.

(** [handleRejectCall] *)
Definition rejected_update (now : Z) : UpdateCall :=
  mkUpdateCall (Some rejected) None (Some now) None None.

Definition handleRejectCall (remove_ok patch_ok : bool) (now : Z) (p : CalleePage)
    : CalleePage * list DialEffect :=
  match incomingCall p, callee_userId p with
  | Some c, Some uid =>
      if String.eqb uid "" then (p, [])
      else if negb remove_ok then (p, [Failed (RemoveIncomingCall uid (id c))])
      else if negb patch_ok then
        (p, [RemoveIncomingCall uid (id c); Failed (PatchStatus (id c) (rejected_update now))])
      else
        (mkCalleePage (callee_userId p) None,
         [RemoveIncomingCall uid (id c); PatchStatus (id c) (rejected_update now)])
  | _, _ => (p, [])
  end.

(** What the effects of the page do to the realtime database. *)
Definition apply_dial (rt : Realtime) (e : DialEffect) : Realtime :=
  match e with
  | WriteCallState c =>
      mkRealtime (db_initializeCallState (id c) (rt_database rt)) (incomingCalls rt)
  | WriteIncomingCall c =>
      mkRealtime (rt_database rt) (<[(receiverId c, id c) := c]> (incomingCalls rt))
  | RemoveIncomingCall user call =>
      mkRealtime (rt_database rt) (delete (user, call) (incomingCalls rt))
  | DialService e' | DialPage (ServiceDid e') =>
      mkRealtime (apply_effect (rt_database rt) e') (incomingCalls rt)
  | _ => rt
  end.

Definition is_withdrawal (e : DialEffect) : bool :=
  match e with
  | RemoveIncomingCall _ _ => true
  | DialService e' | DialPage (ServiceDid e') => writes_call_state e'
  | _ => false
  end.

(** What a listener on [call-states/<call>] is handed: the stored record,
    or nothing when there is none. A record without status is read with the
    empty string for it, which no comparison of the page matches. *)
Definition read_call_state (db : Database) (call : string) : option CallState :=
  (fun st => mkCallState (default "" (st_status st)) (st_startedAt st) (st_endedAt st))
    <$> callStates db !! call.

(** ** Further scenarios *)
Module Scenario.

(** A browser in which the user refuses the camera and the microphone. *)
Definition media_refused : Env :=
  mkEnv (fun _ _ => None) (Some (Some "sdp-offer")) (Some (Some "sdp-answer")) (fun _ => true)
    (fun _ => true) (fun _ => true) (fun _ => true) (fun _ => true) (Some running)
    (fun _ => true) (fun _ => true) (fun _ _ => true).

(** Alice's page, with the conversation with Bob open and no call. *)
Definition alice_page : Page := mkPage None (Some "alice") None false (Some "conv-1").

Definition dialling : DialInputs :=
  mkDialInputs 1700000000000 "k3j9x0q2a" 1700000000001 true true 50 51 true Example.ending.

(** The call that Alice's page makes up when she dials Bob. *)
Definition alice_calls_bob : Call :=
  mkCall (new_call_id 1700000000000 "k3j9x0q2a") "conv-1" "alice" "Alice" "bob" "Bob" video
    ringing None None None None 1700000000001.

(** Bob's page while Alice's call rings. *)
Definition bob_rung : CalleePage := mkCalleePage (Some "bob") (Some alice_calls_bob).

Definition nothing_stored : Realtime := mkRealtime (mkDb ∅ ∅) ∅.

End Scenario.

(** ** Switching the camera: [flipCamera] *)

Inductive MediaDeviceKind := videoinput | audioinput | audiooutput.

Record MediaDeviceInfo := mkDevice {
  deviceId : string;
  device_kind : MediaDeviceKind;
  label : string
}.

(** What the browser answers during [flipCamera]. [None] and [false] are a
    rejected promise. A stream asked for with [video: { deviceId: { exact } },
    audio: true] comes with the video track of that device and with audio
    tracks. *)
Record CameraEnv := mkCameraEnv {
  cam_enumerateDevices : option (list MediaDeviceInfo);
  cam_getUserMedia : string -> option (MediaStreamTrack * list MediaStreamTrack);
  cam_replaceTrack : MediaStreamTrack -> MediaStreamTrack -> bool
}.

Inductive FlipEffect :=
  | EnumerateDevices
  | GetCamera (device : string)
  | ReplaceTrack (old new : MediaStreamTrack)
  | StopTrack (t : MediaStreamTrack)
  | FlipFailed (e : FlipEffect).

Definition is_videoinput (d : MediaDeviceInfo) : bool :=
  match device_kind d with videoinput => true | _ => false end.

(** [Array.prototype.findIndex], with [-1] for no match. *)
Fixpoint findIndex {A} (p : A -> bool) (l : list A) : Z :=
  match l with
  | [] => -1
  | x :: l' =>
      if p x then 0
      else let i := findIndex p l' in if i <? 0 then -1 else i + 1
  end.

Definition is_current (current : option string) (d : MediaDeviceInfo) : bool :=
  match current with
  | Some c => String.eqb (deviceId d) c
  | None => false
  end.

(** [(currentIndex + 1) % videoDevices.length] *)
Definition next_camera (current : option string) (videoDevices : list MediaDeviceInfo) : Z :=
  (findIndex (is_current current) videoDevices + 1) `mod` Z.of_nat (length videoDevices).

Definition same_track (t u : MediaStreamTrack) : bool := String.eqb (trackId t) (trackId u).

(** [localStream.removeTrack(t)] *)
Definition remove_track (t : MediaStreamTrack) (st : MediaStream) : MediaStream :=
  List.filter (fun u => negb (same_track u t)) st.

(** [getSenders().find(s => s.track === old)] followed by
    [sender.replaceTrack(new)]: the first sender of [old] sends [new]. *)
Fixpoint replace_first (old new : MediaStreamTrack) (l : list MediaStreamTrack)
    : list MediaStreamTrack :=
  match l with
  | [] => []
  | x :: l' => if same_track x old then new :: l' else x :: replace_first old new l'
  end.

Definition set_senders (l : list MediaStreamTrack) (pc : RTCPeerConnection) : RTCPeerConnection :=
  mkPc (remoteDescription pc) (localDescription pc) (iceConnectionState pc) l.

(** The service after a switch from [old] to the track [new] of [device]. *)
Definition flipped (device : string) (old new : MediaStreamTrack) (local : MediaStream)
    (pc : RTCPeerConnection) (s : WebRTCService) : WebRTCService :=
  set_currentVideoDevice (Some device)
    (set_localStream (Some (add_track new (remove_track old local)))
       (set_peerConnection (Some (set_senders (replace_first old new (senders pc)) pc)) s)).

(** [flipCamera]: nothing it throws leaves it. *)
Definition flipCamera (cenv : CameraEnv) (s : WebRTCService) : WebRTCService * list FlipEffect :=
  match localStream s, peerConnection s with
  | Some local, Some pc =>
      match cam_enumerateDevices cenv with
      | None => (s, [FlipFailed EnumerateDevices])
      | Some devices =>
          let videoDevices := List.filter is_videoinput devices in
          if (length videoDevices <? 2)%nat then (s, [EnumerateDevices])
          else
            match videoDevices !! Z.to_nat (next_camera (currentVideoDevice s) videoDevices) with
            | None => (s, [EnumerateDevices])
            | Some nextDevice =>
                match cam_getUserMedia cenv (deviceId nextDevice) with
                | None => (s, [EnumerateDevices; FlipFailed (GetCamera (deviceId nextDevice))])
                | Some (newVideoTrack, newAudioTracks) =>
                    let acquired := [EnumerateDevices; GetCamera (deviceId nextDevice)] in
                    match getVideoTracks local with
                    | [] =>
                        (* no sender is found, and [oldVideoTrack.stop()] throws *)
                        (s, acquired)
                    | oldVideoTrack :: _ =>
                        if existsb (fun t => same_track t oldVideoTrack) (senders pc) then
                          if cam_replaceTrack cenv oldVideoTrack newVideoTrack then
                            (flipped (deviceId nextDevice) oldVideoTrack newVideoTrack local pc s,
                             acquired ++ [ReplaceTrack oldVideoTrack newVideoTrack;
                                          StopTrack oldVideoTrack]
                             ++ map StopTrack newAudioTracks)
                          else
                            (s, acquired
                                ++ [FlipFailed (ReplaceTrack oldVideoTrack newVideoTrack)])
                        else
                          (set_currentVideoDevice (Some (deviceId nextDevice))
                             (set_localStream
                                (Some (add_track newVideoTrack (remove_track oldVideoTrack local)))
                                s),
                           acquired ++ [StopTrack oldVideoTrack] ++ map StopTrack newAudioTracks)
                    end
                end
            end
      end
  | _, _ => (s, [])
  end.

Definition is_StopTrack (e : FlipEffect) : bool :=
  match e with StopTrack _ => true | _ => false end.

Definition is_GetCamera (e : FlipEffect) : bool :=
  match e with GetCamera _ => true | _ => false end.

(** The camera that [flipCamera] moves to from [current]. *)
Definition camera_after (videoDevices : list MediaDeviceInfo) (current : string) : string :=
  match videoDevices !! Z.to_nat (next_camera (Some current) videoDevices) with
  | Some d => deviceId d
  | None => current
  end.

(** ** A phone with two cameras *)
Module Devices.

Definition front : MediaDeviceInfo := mkDevice "cam" videoinput "Front camera".
Definition back : MediaDeviceInfo := mkDevice "cam-back" videoinput "Back camera".
Definition microphone : MediaDeviceInfo := mkDevice "mic" audioinput "Microphone".

Definition back_track : MediaStreamTrack := mkTrack video_track FromDevice "cam-back".
Definition front_track : MediaStreamTrack := mkTrack video_track FromDevice "cam".
Definition second_mic : MediaStreamTrack := mkTrack audio FromDevice "mic-2".

Definition phone : CameraEnv :=
  mkCameraEnv (Some [front; microphone; back])
    (fun d => if String.eqb d "cam-back" then Some (back_track, [second_mic])
              else Some (front_track, [second_mic]))
    (fun _ _ => true).

(** Bob in a voice call: his local stream has the microphone only. *)
Definition bob_voice_only : WebRTCService :=
  fst (run Example.granted [EvInitializeCall "c1" "alice" true false false 0 0]
         (constructor "bob")).

End Devices.

(** ** Messages of a conversation *)

(** A message as the page holds it. Of the fields of [messageSchema], the
    ones that the functions below read or write; the others ([text] among
    them) are copied from the stored child and never looked at. A sender
    that the stored child does not name is [None]. *)
Record Message := mkMessage {
  msg_id : string;
  senderId : option string;
  text : string;
  msg_timestamp : Z;
  deliveredAt : option Z;
  readAt : option Z
}.

(** A child of [messages/<conversation>] as it is stored: any of its fields
    may be missing. *)
Record MessageData := mkMessageData {
  data_senderId : option string;
  data_text : option string;
  data_timestamp : option Z;
  data_deliveredAt : option Z;
  data_readAt : option Z
}.

(** The message that the listener of [subscribeToConversationMessages]
    makes of a child: [text || ""], and the clock for a timestamp that is no
    number. *)
Definition to_message (now : Z) (key : string) (d : MessageData) : Message :=
  mkMessage key (data_senderId d) (default "" (data_text d)) (default now (data_timestamp d))
    (data_deliveredAt d) (data_readAt d).

(** [messages.sort((a, b) => a.timestamp - b.timestamp)]: the sort of an
    array is stable. *)
Fixpoint insert_by_timestamp (m : Message) (l : list Message) : list Message :=
  match l with
  | [] => [m]
  | x :: l' =>
      if msg_timestamp m <=? msg_timestamp x then m :: l
      else x :: insert_by_timestamp m l'
  end.

Definition sort_by_timestamp (l : list Message) : list Message :=
  foldr insert_by_timestamp [] l.

(** The listener, on the children of the snapshot in its order; a child
    that is no object ([None]) is passed over. *)
Definition on_messages (now : Z) (children : list (string * option MessageData))
    : list Message :=
  sort_by_timestamp (omap (fun kv => to_message now kv.1 <$> kv.2) children).

(** [message.senderId !== userId && !message.readAt] *)
Definition is_unread (userId : string) (m : Message) : bool :=
  match senderId m with
  | Some s => negb (String.eqb s userId)
  | None => true
  end
  && match readAt m with
     | Some t => t =? 0
     | None => true
     end.

Inductive MessageEffect :=
  | UpdateMessage (conversation message : string) (delivered read : Z)
  | UpdateRefused (conversation message : string).

(** [markConversationMessagesAsRead]: [granted] tells whether the update
    of a child goes through; the first that does not ends the loop. *)
Fixpoint markConversationMessagesAsRead (granted : string -> bool) (conversation userId : string)
    (now : Z) (messages : list Message) : list MessageEffect :=
  match messages with
  | [] => []
  | m :: rest =>
      if is_unread userId m then
        if granted (msg_id m) then
          UpdateMessage conversation (msg_id m) (or_now (deliveredAt m) now) now
          :: markConversationMessagesAsRead granted conversation userId now rest
        else [UpdateRefused conversation (msg_id m)]
      else markConversationMessagesAsRead granted conversation userId now rest
  end.

(** The effect of the page that marks what it shows as read. *)
Definition mark_shown_as_read (granted : string -> bool) (selectedConversation userId : option string)
    (now : Z) (messages : list Message) : list MessageEffect :=
  match selectedConversation, userId with
  | Some conv, Some uid =>
      if String.eqb conv "" || String.eqb uid "" then []
      else
        let unreadMessages := List.filter (is_unread uid) messages in
        match unreadMessages with
        | [] => []
        | _ :: _ => markConversationMessagesAsRead granted conv uid now unreadMessages
        end
  | _, _ => []
  end.

(** [update(ref(db, messages/<conversation>/<id>), { deliveredAt, readAt })]:
    the two fields are set in the child, which is made if it is not there. *)
Definition update_message (delivered read : Z) (old : option MessageData) : MessageData :=
  match old with
  | Some d =>
      mkMessageData (data_senderId d) (data_text d) (data_timestamp d) (Some delivered)
        (Some read)
  | None => mkMessageData None None None (Some delivered) (Some read)
  end.

Definition apply_message_effect (store : gmap string MessageData) (e : MessageEffect)
    : gmap string MessageData :=
  match e with
  | UpdateMessage _ m delivered read => <[m := update_message delivered read (store !! m)]> store
  | UpdateRefused _ _ => store
  end.

(** The child that an update is written to. *)
Definition written (e : MessageEffect) : option string :=
  match e with
  | UpdateMessage _ m _ _ => Some m
  | UpdateRefused _ _ => None
  end.

(** An update that marks as read: its [readAt] is a clock, not [0]. *)
Definition is_marking (e : MessageEffect) : bool :=
  match e with
  | UpdateMessage _ _ _ read => negb (read =? 0)
  | UpdateRefused _ _ => true
  end.

(** The child [k] is stored and has a [readAt]. *)
Definition read_child (store : gmap string MessageData) (k : string) : Prop :=
  exists d r, store !! k = Some d /\ data_readAt d = Some r /\ r <> 0.

(** A snapshot of the children of a conversation: each child once. *)
Definition lists (children : list (string * option MessageData))
    (store : gmap string MessageData) : Prop :=
  NoDup children.*1
  /\ forall k d, (k, Some d) ∈ children <-> store !! k = Some d.

(** ** Messages by day: [groupedMessages] *)

Record DayGroup := mkDayGroup {
  group_date : option Z;
  group_messages : list Message
}.

(** One round of the [forEach]; [startOfDay] is the local midnight before a
    time. The state is [groups], [currentGroup] and [currentDate]. *)
Definition group_step (startOfDay : Z -> Z)
    (st : list DayGroup * list Message * option Z) (m : Message)
    : list DayGroup * list Message * option Z :=
  let '(groups, currentGroup, currentDate) := st in
  let messageDate := startOfDay (msg_timestamp m) in
  if match currentDate with
     | None => true
     | Some d => negb (d =? messageDate)
     end
  then
    (match currentGroup with
     | [] => groups
     | _ :: _ => groups ++ [mkDayGroup currentDate currentGroup]
     end, [m], Some messageDate)
  else (groups, currentGroup ++ [m], currentDate).

Definition groupedMessages (startOfDay : Z -> Z) (messages : list Message) : list DayGroup :=
  let '(groups, currentGroup, currentDate) := foldl (group_step startOfDay) ([], [], None) messages in
  match currentGroup, currentDate with
  | _ :: _, Some d => groups ++ [mkDayGroup (Some d) currentGroup]
  | _, _ => groups
  end.

(** A stored child once it is marked as read at [now]. *)
Definition marked (now : Z) (d : MessageData) : MessageData :=
  mkMessageData (data_senderId d) (data_text d) (data_timestamp d)
    (Some (or_now (data_deliveredAt d) now)) (Some now).

(** The children of a conversation once the unread messages of the others
    are marked. *)
Definition all_marked (userId : string) (now : Z) (store : gmap string MessageData)
    (k : string) : option MessageData :=
  match store !! k with
  | Some d => if is_unread userId (to_message 0 k d) then Some (marked now d) else Some d
  | None => None
  end.

(** ** A conversation of three messages *)
Module Talk.

Definition hello : MessageData := mkMessageData (Some "alice") (Some "hello") (Some 1000) None None.
Definition hi : MessageData := mkMessageData (Some "bob") (Some "hi") (Some 2000) (Some 2100) None.
Definition seen : MessageData :=
  mkMessageData (Some "bob") (Some "how are you?") (Some 2000) (Some 2100) (Some 2500).

Definition stored : list (string * MessageData) := [("m1", hello); ("m2", hi); ("m3", seen)].

Definition children : list (string * option MessageData) :=
  (fun kv => (kv.1, Some kv.2)) <$> stored.

Definition store : gmap string MessageData := list_to_map stored.

(** The same conversation with one more message of Bob that Alice has not
    read. *)
Definition later : MessageData :=
  mkMessageData (Some "bob") (Some "are you there?") (Some 2600) None None.

Definition stored_later : list (string * MessageData) := stored ++ [("m4", later)].

Definition children_later : list (string * option MessageData) :=
  (fun kv => (kv.1, Some kv.2)) <$> stored_later.

Definition store_later : gmap string MessageData := list_to_map stored_later.

End Talk.

(** No two neighbours of a list are equal. *)
Fixpoint adjacent_differ {A} (l : list A) : Prop :=
  match l with
  | a :: (b :: _) as l' => a <> b /\ adjacent_differ l'
  | _ => True
  end.

(** A group of [groupedMessages] as it should be: not empty, with a date,
    which is the day of each of its messages. *)
Definition day_group (startOfDay : Z -> Z) (g : DayGroup) : Prop :=
  group_messages g <> []
  /\ exists d, group_date g = Some d
               /\ Forall (fun m => startOfDay (msg_timestamp m) = d) (group_messages g).

(** What holds of the state of the loop of [groupedMessages] when the
    messages [done] have been gone through. *)
Definition grouping (startOfDay : Z -> Z) (done : list Message)
    (st : list DayGroup * list Message * option Z) : Prop :=
  let '(groups, currentGroup, currentDate) := st in
  concat (group_messages <$> groups) ++ currentGroup = done
  /\ Forall (day_group startOfDay) groups
  /\ adjacent_differ (group_date <$> groups)
  /\ match currentDate with
     | Some d =>
         currentGroup <> []
         /\ Forall (fun m => startOfDay (msg_timestamp m) = d) currentGroup
         /\ last (group_date <$> groups) <> Some (Some d)
     | None => currentGroup = [] /\ groups = []
     end.

(** ** The server: groups and their members *)

Record Group := mkGroup {
  group_id : string;
  group_name : string;
  group_description : option string;
  creatorId : string;
  createdAt : Z;
  lastMessageAt : Z;
  memberCount : Z;
  lastMemberChangeAt : Z
}.

Record GroupMember := mkGroupMember {
  member_id : string;
  member_groupId : string;
  member_userId : string;
  joinedAt : Z
}.

(** [groups/<group>] and [groupMembers/<group>/<user>] *)
Record GroupStore := mkGroupStore {
  groups : gmap string Group;
  groupMembers : gmap string (gmap string GroupMember)
}.

Definition members_of (st : GroupStore) (g : string) : gmap string GroupMember :=
  default ∅ (groupMembers st !! g).

Definition set_memberCount (n : Z) (grp : Group) : Group :=
  mkGroup (group_id grp) (group_name grp) (group_description grp) (creatorId grp) (createdAt grp)
    (lastMessageAt grp) n (lastMemberChangeAt grp).

Definition set_lastMemberChangeAt (t : Z) (grp : Group) : Group :=
  mkGroup (group_id grp) (group_name grp) (group_description grp) (creatorId grp) (createdAt grp)
    (lastMessageAt grp) (memberCount grp) t.

(** [update(groupRef, ...)] on a group that is there. *)
Definition update_group (g : string) (f : Group -> Group) (st : GroupStore) : GroupStore :=
  match groups st !! g with
  | Some grp => mkGroupStore (<[g := f grp]> (groups st)) (groupMembers st)
  | None => st
  end.

Module FirebaseService.

(** [createGroup]: the group is written with [set], [description] among
    its fields. [set] takes no value that is [undefined]: for a group
    without a description it throws and nothing is written ([None]). *)
Definition createGroup (grp : Group) (st : GroupStore) : option GroupStore :=
  match group_description grp with
  | Some _ =>
      Some (mkGroupStore
              (<[group_id grp := set_lastMemberChangeAt (createdAt grp) grp]> (groups st))
              (groupMembers st))
  | None => None
  end.

(** [addGroupMember]; [now] is the clock at the update of the group. *)
Definition addGroupMember (m : GroupMember) (now : Z) (st : GroupStore) : GroupStore :=
  let g := member_groupId m in
  let st1 := mkGroupStore (groups st)
               (<[g := <[member_userId m := m]> (members_of st g)]> (groupMembers st)) in
  update_group g (fun grp => set_lastMemberChangeAt now (set_memberCount (memberCount grp + 1) grp))
    st1.

(** [removeGroupMember] *)
Definition removeGroupMember (g u : string) (now : Z) (st : GroupStore) : GroupStore :=
  let st1 := mkGroupStore (groups st)
               (<[g := delete u (members_of st g)]> (groupMembers st)) in
  update_group g
    (fun grp => set_lastMemberChangeAt now (set_memberCount (Z.max 0 (memberCount grp - 1)) grp))
    st1.

(** [isGroupMember] *)
Definition isGroupMember (g u : string) (st : GroupStore) : bool :=
  bool_decide (is_Some (members_of st g !! u)).

(** [deleteGroupFromFirebaseOnly] *)
Definition deleteGroupFromFirebaseOnly (g : string) (st : GroupStore) : GroupStore :=
  mkGroupStore (delete g (groups st)) (delete g (groupMembers st)).

End FirebaseService.

Module Storage.

(** [createGroup]: [id] and [memberId] are the identifiers drawn. When the
    lower layer throws, no member is added. *)
Definition createGroup (id memberId name : string) (description : option string)
    (creator : string) (now now' : Z) (st : GroupStore) : option GroupStore :=
  match FirebaseService.createGroup (mkGroup id name description creator now now 1 now) st with
  | Some st1 =>
      Some (FirebaseService.addGroupMember (mkGroupMember memberId id creator now) now' st1)
  | None => None
  end.

(** [addGroupMember]: the member is added by the lower layer, then the
    group is read again and written with its count plus one. *)
Definition addGroupMember (id g u : string) (now now' : Z) (st : GroupStore) : GroupStore :=
  let st1 := FirebaseService.addGroupMember (mkGroupMember id g u now) now' st in
  update_group g (fun grp => set_memberCount (memberCount grp + 1) grp) st1.

(** [removeGroupMember] *)
Definition removeGroupMember (g u : string) (now : Z) (st : GroupStore) : GroupStore :=
  let st1 := FirebaseService.removeGroupMember g u now st in
  match groups st1 !! g with
  | Some grp =>
      if 0 <? memberCount grp
      then update_group g (fun grp => set_memberCount (memberCount grp - 1) grp) st1
      else st1
  | None => st1
  end.

End Storage.

(** [POST /api/groups/:groupId/join] *)
Definition join_group (id : string) (now now' : Z) (g currentUserId : string) (st : GroupStore)
    : Z * GroupStore :=
  match groups st !! g with
  | None => (404, st)
  | Some _ =>
      if FirebaseService.isGroupMember g currentUserId st then (400, st)
      else (200, Storage.addGroupMember id g currentUserId now now' st)
  end.

(** [POST /api/groups/:groupId/members], with the [userId] of the body. *)
Definition add_member (id : string) (now now' : Z) (g : string) (userId : option string)
    (st : GroupStore) : Z * GroupStore :=
  match userId with
  | None => (400, st)
  | Some u =>
      if String.eqb u "" then (400, st)
      else
        match groups st !! g with
        | None => (404, st)
        | Some _ =>
            if FirebaseService.isGroupMember g u st then (400, st)
            else (200, Storage.addGroupMember id g u now now' st)
        end
  end.

(** [DELETE /api/groups/:groupId/leave] *)
Definition leave_group (now : Z) (g currentUserId : string) (st : GroupStore) : Z * GroupStore :=
  match groups st !! g with
  | None => (404, st)
  | Some grp =>
      if String.eqb (creatorId grp) currentUserId then (400, st)
      else (200, Storage.removeGroupMember g currentUserId now st)
  end.

(** [cleanupEmptyGroups], for one group: [EMPTY_GROUP_RETENTION_MS] is two
    hours. *)
Definition EMPTY_GROUP_RETENTION_MS : Z := 2 * 60 * 60 * 1000.

Definition first_nonzero (a b c : Z) : Z :=
  if a =? 0 then (if b =? 0 then c else b) else a.

Definition cleanup_group (now : Z) (g : string) (st : GroupStore) : GroupStore :=
  match groups st !! g with
  | None => st
  | Some grp =>
      if (memberCount grp =? 0)
         && (first_nonzero (lastMemberChangeAt grp) (createdAt grp) now
             <? now - EMPTY_GROUP_RETENTION_MS)
      then FirebaseService.deleteGroupFromFirebaseOnly g st
      else st
  end.

(** The count of a group is twice the number of its members. *)
Definition counted_twice (st : GroupStore) (g : string) : Prop :=
  exists grp, groups st !! g = Some grp
              /\ memberCount grp = 2 * Z.of_nat (size (members_of st g)).

(** A group that its creator has just made, with a description. *)
Module Club.

Definition founded : GroupStore :=
  default (mkGroupStore ∅ ∅)
    (Storage.createGroup "g1" "m1" "Chess" (Some "Openings on Mondays") "alice" 100 101
       (mkGroupStore ∅ ∅)).

End Club.

(** ** The server: blocking a user *)

(** A user record, as far as blocking goes ([name] and [passwordHash] are
    left out). An empty list is a [blockedUsers] that is not stored. *)
Record User := mkUser {
  user_id : string;
  username : string;
  blockedUsers : list string;
  blockedAt : gmap string Z
}.

Definition includes (l : list string) (x : string) : bool := existsb (String.eqb x) l.

(** [if (!list.includes(x)) list.push(x)] *)
Definition push_new (x : string) (l : list string) : list string :=
  if includes l x then l else l ++ [x].

Definition blocks (other : string) (timestamp : Z) (u : User) : User :=
  mkUser (user_id u) (username u) (push_new other (blockedUsers u))
    (<[other := timestamp]> (blockedAt u)).

(** [FirebaseService.blockUser]: both records are read first; then the
    blocked users and the times of the one, and after it of the other, are
    written, each made from the record as it was read. *)
Definition blockUser (userId targetUserId : string) (timestamp : Z) (users : gmap string User)
    : gmap string User :=
  match users !! userId, users !! targetUserId with
  | Some user, Some targetUser =>
      <[targetUserId := blocks userId timestamp targetUser]>
        (<[userId := blocks targetUserId timestamp user]> users)
  | _, _ => users
  end.

(** [FirebaseService.isBlocked] and [getBlockedUsers] *)
Definition isBlocked (userId targetUserId : string) (users : gmap string User) : bool :=
  match users !! userId with
  | Some user => includes (blockedUsers user) targetUserId
  | None => false
  end.

Definition getBlockedUsers (userId : string) (users : gmap string User) : list string :=
  match users !! userId with
  | Some user => blockedUsers user
  | None => []
  end.

(** ** Recording without remote audio *)





Module Browser.



End Browser.

(** * Properties *)

(** ** Running a method *)

Lemma for_each_emit {A} (f : A -> Effect) (l : list A) (s : WebRTCService) :
  for_each l (fun x => emit (f x)) s = (Returned tt, s, map f l).
Proof.
  induction l as [|x l IH]; [reflexivity|].
  cbn [for_each]. unfold mbind, Act_bind. unfold emit at 1. rewrite IH. reflexivity.
Qed.

Lemma for_each_emitted {A} (f : A -> Effect) (l : list A) (s : WebRTCService) :
  for_each l (fun x s' => (Returned tt, s', [f x])) s = (Returned tt, s, map f l).
Proof. exact (for_each_emit f l s). Qed.

Lemma count_app p l1 l2 : count p (l1 ++ l2) = (count p l1 + count p l2)%nat.
Proof. unfold count. rewrite List.filter_app, length_app. reflexivity. Qed.

Lemma filter_none (p : Effect -> bool) l :
  Forall (fun e => p e = false) l -> List.filter p l = [].
Proof.
  induction 1 as [|e l He _ IH]; [reflexivity|].
  cbn. rewrite He. exact IH.
Qed.

Lemma filter_map_TrackStop (tracks : list MediaStreamTrack) :
  List.filter is_release (map TrackStop tracks) = map TrackStop tracks.
Proof. induction tracks as [|t l IH]; [reflexivity|]. cbn. now rewrite IH. Qed.

Lemma count_map_TrackStop p (tracks : list MediaStreamTrack) :
  (forall t, p (TrackStop t) = false) -> count p (map TrackStop tracks) = 0%nat.
Proof.
  intros Hp. unfold count.
  induction tracks as [|t l IH]; [reflexivity|]. cbn. rewrite Hp. exact IH.
Qed.

(** Unfolding the monad. *)
Ltac run_act :=
  unfold mbind, mret, Act_bind, Act_ret, this, assign, emit, throw, when, attempt, try_catch in *;
  cbn in *.

Section ServiceFacts.

Variable env : Env.

Lemma cleanup_spec s : cleanup s = (Returned tt, cleaned s, cleanup_effects s).
Proof.
  destruct s as [pc ls rs ms ac cid uid oid su cu mr ch en cvd act].
  unfold cleanup, cleaned, cleanup_effects.
  destruct su, cu, ls as [tracks|], pc, ac; run_act;
    rewrite ?for_each_emitted; cbn; rewrite ?app_nil_r; reflexivity.
Qed.

Lemma cleanupRemoteResources_spec s t_sig t_key t_end :
  cleanupRemoteResources env t_sig t_key t_end s
  = (Returned tt, s, remote_effects env s t_sig t_key t_end).
Proof.
  unfold cleanupRemoteResources, remote_effects, sendSignal, updateCallState, end_call_signal,
    ended_update.
  run_act.
  destruct (env_set env _), (env_updateCallState env _); reflexivity.
Qed.

(** [endCall] when the latch is set: nothing. *)
Lemma endCall_latched s t_sig t_key t_end :
  isCallEnded s = true -> endCall env t_sig t_key t_end s = (Returned tt, s, []).
Proof. intros H. unfold endCall. run_act. rewrite H. reflexivity. Qed.

(** [endCall] when the latch is open. *)
Lemma endCall_open s t_sig t_key t_end :
  isCallEnded s = false ->
  endCall env t_sig t_key t_end s
  = (Returned tt, after_endCall s,
     match mediaRecorder s with
     | Some r => if not_inactive r then [RecorderStop] else []
     | None => []
     end ++ cleanup_effects s ++ remote_effects env s t_sig t_key t_end).
Proof.
  intros H. unfold endCall, after_endCall, recorder_stopped.
  unfold mbind at 1. unfold Act_bind, this. rewrite H.
  unfold mbind, Act_bind, assign.
  destruct (mediaRecorder s) as [r|] eqn:Hr; [destruct (not_inactive r) eqn:Ha|];
    unfold when, emit, mbind, mret, Act_bind, Act_ret, assign;
    rewrite cleanup_spec, cleanupRemoteResources_spec; cbn;
    destruct s; cbn in *; subst; reflexivity.
Qed.





Lemma cleanup_effects_counts s :
  count is_end_call_signal (cleanup_effects s) = 0%nat
  /\ count is_ended_write (cleanup_effects s) = 0%nat
  /\ List.filter is_release (cleanup_effects s)
     = map TrackStop (default [] (localStream s))
       ++ match peerConnection s with Some _ => [PcClose] | None => [] end
       ++ match audioContext s with Some _ => [AudioContextClose] | None => [] end.
Proof.
  unfold cleanup_effects.
  rewrite !count_app, !List.filter_app, filter_map_TrackStop.
  rewrite !count_map_TrackStop by reflexivity.
  destruct (signalUnsubscribe s), (callStateUnsubscribe s), (peerConnection s), (audioContext s);
    repeat split; reflexivity.
Qed.


End ServiceFacts.

(** ** Termination *)





(** ** Symmetric teardown *)

(** C3, evaluated. Bob is in an active call and recording when Alice hangs
    up. His listener handles her end-call signal and his call-state listener
    sees [ended]: the latch is set, but the connection is still open, the
    microphone and the camera are still live, the recorder still runs, and
    the page is not told ([onCallEnded] is not called), so nothing ends the
    call at Bob's without his user. In the other order [onCallEnded] is
    called; the page's [handleEndCall] then calls [endCall], which returns at
    the latch: the connection stays open and no track is stopped. In neither
    order does Bob send an end-call signal. *)
Lemma remote_end_leaves_resources_held :
  let r := run Example.granted Example.alice_hangs_up Example.bob_in_call in
  let r' := run Example.granted Example.alice_hangs_up' Example.bob_in_call in
  let page := handleEndCall Example.granted Example.ending (Example.bob_page (fst r')) in
  (isCallEnded (fst r) = true
   /\ peerConnection (fst r) = peerConnection Example.bob_in_call
   /\ localStream (fst r) = Some [Example.mic; Example.cam]
   /\ (rec_state <$> mediaRecorder (fst r)) = Some rec_recording
   /\ List.filter is_release (snd r) = []
   /\ count is_onCallEnded (snd r) = 0%nat
   /\ count is_end_call_signal (snd r) = 0%nat)
  /\ (count is_onCallEnded (snd r') = 1%nat
      /\ (peerConnection <$> snd (fst page)) = Some (peerConnection Example.bob_in_call)
      /\ (localStream <$> snd (fst page)) = Some (Some [Example.mic; Example.cam])
      /\ List.filter is_release (service_effects (snd page)) = [RecorderStop]
      /\ count is_end_call_signal (snd r' ++ service_effects (snd page)) = 0%nat).
Proof. vm_compute. repeat split. Qed.

(** ** The recording after the end *)

Lemma getRecording_after_endCall (s : WebRTCService) (final : option Blob) :
  getRecording final (after_endCall s) = (Returned None, after_endCall s, []).
Proof.
  unfold getRecording, after_endCall, recorder_stopped. run_act.
  destruct (mediaRecorder s) as [r|]; [destruct (not_inactive r) eqn:Ha|]; cbn;
    rewrite ?Ha; reflexivity.
Qed.

Lemma patched_skip (l1 l2 : list PageEffect) :
  Forall (fun e => is_patch e = false) l1 -> patched (l1 ++ l2) = patched l2.
Proof.
  induction 1 as [|e l He _ IH]; [reflexivity|].
  destruct e; try discriminate He; exact IH.
Qed.

Lemma ServiceDid_no_patch (l : list Effect) :
  Forall (fun e => is_patch e = false) (map ServiceDid l).
Proof. induction l; constructor; [reflexivity|assumption]. Qed.

Lemma ServiceDid_no_upload (l : list Effect) :
  Forall (fun e => is_upload e = false) (map ServiceDid l).
Proof. induction l; constructor; [reflexivity|assumption]. Qed.

(** What [save_call] sends as the record of the call, unless the upload
    fails. *)
Lemma save_call_patched env i p call dur svc :
  (forall e, uploaded i <> Thrown e) ->
  exists url,
    patched (snd (save_call env i p call dur svc))
    = Some (end_call_body call dur url (t_started i) (t_ended i)).
Proof.
  intros Hup. unfold save_call.
  destruct svc as [s|].
  - destruct (getRecording (final i) s) as [[o s1] l1]. unfold outcome_of, effects_of, state_of.
    cbn [fst snd].
    destruct o as [[blob|]|e].
    + destruct (uploaded i) as [url|e] eqn:Hu; [|destruct (Hup e); reflexivity].
      exists url. cbn [snd]. rewrite patched_skip by apply ServiceDid_no_patch. reflexivity.
    + eexists. cbn [snd]. rewrite patched_skip by apply ServiceDid_no_patch. reflexivity.
    + eexists. cbn [snd]. rewrite patched_skip by apply ServiceDid_no_patch. reflexivity.
  - eexists. reflexivity.
Qed.

Lemma handleEndCall_patched env i p call :
  activeCall p = Some call ->
  truthy (page_userId p) = true ->
  isEndingCallRef p = false ->
  (forall e, uploaded i <> Thrown e) ->
  exists url,
    patched (snd (handleEndCall env i p))
    = Some (end_call_body call (call_duration (startedAt call) (t_dur i)) url
              (t_started i) (t_ended i)).
Proof.
  intros Hc Hu He Hup. unfold handleEndCall. rewrite Hc, Hu, He. cbn [negb].
  set (dur := call_duration _ _).
  destruct (webrtcService p) as [s|].
  - destruct (save_call_patched env i p call dur
                (Some (state_of (endCall env (t_sig i) (t_key i) (t_end i) s))) Hup)
      as [url Hp].
    exists url.
    destruct (save_call env i p call dur _) as [svc' saved]. cbn [snd] in *.
    rewrite patched_skip by apply ServiceDid_no_patch. exact Hp.
  - destruct (save_call_patched env i p call dur None Hup) as [url Hp].
    exists url.
    destruct (save_call env i p call dur None) as [svc' saved]. cbn [snd] in *. exact Hp.
Qed.

(** C10, as the code has it. When [endCall] finds the latch open, a
    [getRecording] that follows it, before the recorder delivers anything
    more, resolves to [null] and does nothing, whatever chunks had been
    recorded; and the page, which asks for the recording only after
    [endCall], then uploads nothing and records the call without a
    recording address. *)
Theorem recording_unreachable_after_endCall (env : Env) (s : WebRTCService)
    (t_sig t_key t_end : Z) (final : option Blob) :
  isCallEnded s = false ->
  let s' := state_of (endCall env t_sig t_key t_end s) in
  getRecording final s' = (Returned None, s', [])
  /\ (forall i p call,
        activeCall p = Some call -> truthy (page_userId p) = true ->
        isEndingCallRef p = false -> webrtcService p = Some s ->
        let done := snd (handleEndCall env i p) in
        count_occ bool_dec (map is_upload done) true = 0%nat
        /\ (ec_recordingUrl <$> patched done) = Some None).
Proof.
  intros Hopen s'. subst s'.
  split.
  - rewrite (endCall_open env s t_sig t_key t_end Hopen). unfold state_of. cbn [fst snd].
    apply getRecording_after_endCall.
  - intros i p call Hc Hu He Hs done. subst done.
    unfold handleEndCall. rewrite Hc, Hu, He, Hs. cbn [negb].
    rewrite (endCall_open env s _ _ _ Hopen). unfold state_of, effects_of. cbn [fst snd].
    unfold save_call. rewrite getRecording_after_endCall.
    unfold outcome_of, effects_of, state_of. cbn [fst snd map app].
    split.
    + rewrite map_app, count_occ_app.
      assert (H0 : forall l, count_occ bool_dec (map is_upload (map ServiceDid l)) true = 0%nat)
        by (induction l; [reflexivity|assumption]).
      rewrite H0.
      destruct (patch_accepted i), (selectedConversationId p) as [conv|];
        try destruct (String.eqb conv ""); reflexivity.
    + rewrite patched_skip by apply ServiceDid_no_patch. reflexivity.
Qed.

Lemma recording_unreachable_after_endCall_witness :
  let s' := state_of (endCall Example.granted 9000 9001 9002 Example.bob_in_call) in
  getRecording (Some Example.chunk) s' = (Returned None, s', [])
  /\ (forall i p call,
        activeCall p = Some call -> truthy (page_userId p) = true ->
        isEndingCallRef p = false -> webrtcService p = Some Example.bob_in_call ->
        let done := snd (handleEndCall Example.granted i p) in
        count_occ bool_dec (map is_upload done) true = 0%nat
        /\ (ec_recordingUrl <$> patched done) = Some None).
Proof.
  apply (recording_unreachable_after_endCall Example.granted Example.bob_in_call 9000 9001 9002
           (Some Example.chunk)).
  reflexivity.
Defined.

(** C10 as stated fails for a session that the peer ended first: the latch
    is set by Alice's end-call signal, Bob's [endCall] returns at once
    without clearing anything, and the [getRecording] after it stops the
    recorder and resolves to the recording (the chunk recorded during the
    call and the one the recorder still held). *)
Lemma recording_reachable_after_remote_end :
  let s := fst (run Example.granted Example.alice_hangs_up Example.bob_in_call) in
  let s' := state_of (endCall Example.granted 9200 9201 9202 s) in
  recordedChunks Example.bob_in_call = [Example.chunk]
  /\ outcome_of (getRecording (Some Example.chunk) s')
     = Returned (Some (mkBlob 1000 "video/webm"))
  /\ outcome_of (getRecording (Some Example.chunk) s') <> Returned None.
Proof. vm_compute. repeat split. discriminate. Qed.

(** ** Duration *)

Lemma call_duration_started (t now : Z) :
  t <> 0 -> call_duration (Some t) now = (now - t) / 1000.
Proof.
  intros Ht. unfold call_duration.
  destruct (Z.eqb_spec t 0) as [E|_]; [contradiction|reflexivity].
Qed.

Lemma or_now_started (t now : Z) : t <> 0 -> or_now (Some t) now = t.
Proof.
  intros Ht. unfold or_now.
  destruct (Z.eqb_spec t 0) as [E|_]; [contradiction|reflexivity].
Qed.

(** C6, as the code has it. The record that ends a call (sent unless the
    upload of the recording fails) carries as its duration the whole seconds between [startedAt] and the clock as read when
    [handleEndCall] starts (for [startedAt = 1000] and a clock of [127000],
    [126]), and [0] when the call has no [startedAt]; its [endedAt] is a
    reading of the clock made later, when the request is sent, so the
    duration is at most the whole seconds between [startedAt] and
    [endedAt]. *)
Theorem duration_computation (env : Env) (i : EndInputs) (p : Page) (call : Call) :
  activeCall p = Some call ->
  truthy (page_userId p) = true ->
  isEndingCallRef p = false ->
  (forall e, uploaded i <> Thrown e) ->
  exists body,
    patched (snd (handleEndCall env i p)) = Some body
    /\ ec_endedAt body = t_ended i
    /\ ec_duration body = call_duration (startedAt call) (t_dur i)
    /\ (forall t, startedAt call = Some t -> t <> 0 ->
          ec_startedAt body = t /\ ec_duration body = (t_dur i - t) / 1000)
    /\ (startedAt call = Some 1000 -> t_dur i = 127000 -> ec_duration body = 126)
    /\ (startedAt call = None -> ec_duration body = 0)
    /\ (forall t, startedAt call = Some t -> t <> 0 -> t_dur i <= t_ended i ->
          ec_duration body <= (ec_endedAt body - ec_startedAt body) / 1000).
Proof.
  intros Hc Hu He Hup.
  destruct (handleEndCall_patched env i p call Hc Hu He Hup) as [url Hp].
  eexists. split; [exact Hp|]. cbn [end_call_body ec_endedAt ec_duration ec_startedAt].
  split; [reflexivity|]. split; [reflexivity|].
  split; [|split; [|split]].
  - intros t Ht Hn. rewrite Ht. split; [apply or_now_started|apply call_duration_started]; exact Hn.
  - intros Ht Hd. rewrite Ht, Hd. reflexivity.
  - intros Ht. rewrite Ht. reflexivity.
  - intros t Ht Hn Hle. rewrite Ht, or_now_started, call_duration_started by exact Hn.
    apply Z.div_le_mono; lia.
Qed.

Lemma duration_computation_witness :
  exists body,
    patched (snd (handleEndCall Example.granted Example.ending
                    (Example.bob_page Example.bob_in_call))) = Some body
    /\ ec_endedAt body = t_ended Example.ending
    /\ ec_duration body = call_duration (startedAt Example.the_call) (t_dur Example.ending)
    /\ (forall t, startedAt Example.the_call = Some t -> t <> 0 ->
          ec_startedAt body = t /\ ec_duration body = (t_dur Example.ending - t) / 1000)
    /\ (startedAt Example.the_call = Some 1000 -> t_dur Example.ending = 127000 ->
          ec_duration body = 126)
    /\ (startedAt Example.the_call = None -> ec_duration body = 0)
    /\ (forall t, startedAt Example.the_call = Some t -> t <> 0 ->
          t_dur Example.ending <= t_ended Example.ending ->
          ec_duration body <= (ec_endedAt body - ec_startedAt body) / 1000).
Proof.
  apply (duration_computation Example.granted Example.ending
           (Example.bob_page Example.bob_in_call) Example.the_call);
    try reflexivity.
  intros e H. discriminate H.
Defined.

(** C6 as stated fails on the record the page sends: for a call started
    at 1000 that the user ends at 127000 and whose request is stamped at
    128000, the record has [startedAt = 1000], [endedAt = 128000] and
    [duration = 126], while the whole seconds between the two are 127. *)
Lemma duration_differs_from_endedAt_minus_startedAt :
  exists body,
    patched (snd (handleEndCall Example.granted Example.ending
                    (Example.bob_page Example.bob_in_call))) = Some body
    /\ ec_startedAt body = 1000
    /\ ec_endedAt body = 128000
    /\ ec_duration body = 126
    /\ (ec_endedAt body - ec_startedAt body) / 1000 = 127
    /\ ec_duration body <> (ec_endedAt body - ec_startedAt body) / 1000.
Proof. eexists. vm_compute. repeat split. discriminate. Qed.

(** ** Candidates *)

(** C4. An ice-candidate signal that is handled while the connection has
    no remote description (or while there is no connection) changes nothing
    and reaches nothing - the candidate is not handed to the connection and
    the service keeps it nowhere - and one that is handled once a remote
    description is set is handed to [addIceCandidate]; either way the
    listener then removes the signal from the mailbox. *)
Theorem candidate_deferral (env : Env) (s : WebRTCService) (signal : WebRTCSignal)
    (key t_sig t_key : Z) :
  sig_type signal = ice_candidate ->
  let applied :=
    match peerConnection s with
    | Some pc =>
        match remoteDescription pc with
        | None => []
        | Some _ =>
            [outcome_as (env_addIceCandidate env (payload signal))
               (PcAddIceCandidate (payload signal))]
        end
    | None => []
    end in
  handleSignal env t_sig t_key signal s = (Returned tt, s, applied)
  /\ consume env t_sig t_key key signal s
     = (Returned tt, s, applied ++ [DbRemoveSignal (callId s) (userId s) key]).
Proof.
  intros Hty applied. subst applied.
  unfold consume, handleSignal, outcome_as. run_act.
  destruct (peerConnection s) as [pc|]; [|split; reflexivity].
  rewrite Hty.
  destruct (remoteDescription pc) as [d|]; [|split; reflexivity].
  destruct (env_addIceCandidate env (payload signal)); split; reflexivity.
Qed.

Lemma candidate_deferral_witness :
  (* before the offer is handled: dropped *)
  (handleSignal Example.granted 7 8 Example.a_candidate Example.bob_waiting
   = (Returned tt, Example.bob_waiting, [])
   /\ consume Example.granted 7 8 101 Example.a_candidate Example.bob_waiting
      = (Returned tt, Example.bob_waiting, [] ++ [DbRemoveSignal "c1" "bob" 101]))
  (* in the call: applied *)
  /\ (handleSignal Example.granted 7 8 Example.a_candidate Example.bob_in_call
      = (Returned tt, Example.bob_in_call, [PcAddIceCandidate (Some "candidate-1")])
      /\ consume Example.granted 7 8 101 Example.a_candidate Example.bob_in_call
         = (Returned tt, Example.bob_in_call,
            [PcAddIceCandidate (Some "candidate-1")] ++ [DbRemoveSignal "c1" "bob" 101])).
Proof.
  split.
  - apply (candidate_deferral Example.granted Example.bob_waiting Example.a_candidate 101 7 8).
    reflexivity.
  - apply (candidate_deferral Example.granted Example.bob_in_call Example.a_candidate 101 7 8).
    reflexivity.
Defined.

(** ** The audit log and the request that ends a call *)

(** When [logCall] is asked to throw on error, it throws exactly when no
    spreadsheet is configured, a user lookup fails or the row is refused. *)
Lemma logCall_throws (sh : Sheets) (c : Call) :
  (exists e, fst (logCall sh c true) = Thrown e)
  <-> configured sh = false
      \/ (exists e, getUser sh (callerId c) = Thrown e)
      \/ (exists e, getUser sh (receiverId c) = Thrown e)
      \/ (exists a b, getUser sh (callerId c) = Returned a /\ getUser sh (receiverId c) = Returned b
                      /\ append sh (call_row sh c a b) = false).
Proof.
  unfold logCall.
  destruct (configured sh); cbn [negb].
  - destruct (getUser sh (callerId c)) as [a|e1].
    + destruct (getUser sh (receiverId c)) as [b|e2].
      * destruct (append sh (call_row sh c a b)) eqn:Ha; cbn.
        -- split.
           ++ intros [e He]. discriminate He.
           ++ intros [H|[[e H]|[[e H]|(a' & b' & Ha' & Hb' & H)]]]; try discriminate.
              injection Ha' as <-. injection Hb' as <-. congruence.
        -- split; [|intros _; eexists; reflexivity].
           intros _. right. right. right. exists a, b. auto.
      * cbn. split; [|intros _; eexists; reflexivity].
        intros _. right. right. left. eexists. reflexivity.
    + cbn. split; [|intros _; eexists; reflexivity].
      intros _. right. left. eexists. reflexivity.
  - cbn. split; [intros _; left; reflexivity|intros _; eexists; reflexivity].
Qed.

(** C8. The update of a call answers 503 exactly when it is an update to
    [ended] that passes validation and whose audit-log write throws; it
    answers 200 when that write goes through; and an update with any other
    status is answered without the spreadsheet being consulted: the answer
    is the same whatever the state of the spreadsheet, it is never 503, and
    nothing is written. *)
Theorem audit_coupled_end_update (sh : Sheets) (callId : string) (b : gmap string JValue) :
  (code (fst (patch_call sh callId b)) = 503
   <-> status_is_ended b = true
       /\ exists v e, parse_endCall b = Some v
                      /\ fst (logCall sh (call_of callId v) true) = Thrown e)
  /\ (forall v, status_is_ended b = true -> parse_endCall b = Some v ->
        fst (logCall sh (call_of callId v) true) = Returned tt ->
        code (fst (patch_call sh callId b)) = 200)
  /\ (status_is_ended b = false ->
        (forall sh', patch_call sh' callId b = patch_call sh callId b)
        /\ code (fst (patch_call sh callId b)) <> 503
        /\ snd (patch_call sh callId b) = []).
Proof.
  unfold patch_call.
  destruct (status_is_ended b).
  - destruct (parse_endCall b) as [v|].
    + destruct (logCall sh (call_of callId v) true) as [[[]|e] l] eqn:Hlog; cbn.
      * split; [|split].
        -- split; [discriminate|]. intros (_ & v' & e & Hv & He).
           injection Hv as <-. rewrite Hlog in He. discriminate He.
        -- reflexivity.
        -- discriminate.
      * split; [|split].
        -- split; [|reflexivity]. intros _. split; [reflexivity|].
           exists v, e. rewrite Hlog. split; reflexivity.
        -- intros v' _ Hv. injection Hv as <-. rewrite Hlog. discriminate.
        -- discriminate.
    + cbn. split; [|split].
      * split; [discriminate|]. intros (_ & v & e & Hv & _). discriminate Hv.
      * intros v _ Hv. discriminate Hv.
      * discriminate.
  - split; [|split].
    + split.
      * destruct (parse_updateCall b); cbn; discriminate.
      * intros [H _]. discriminate H.
    + intros v H. discriminate H.
    + intros _. split; [reflexivity|].
      destruct (parse_updateCall b); cbn; split; (discriminate || reflexivity).
Qed.

(** The two ways, run: the same valid request is answered 200 when the
    spreadsheet takes the row and 503 when it does not; a request that marks
    the call active is answered 200 either way. *)
Example patch_call_runs :
  code (fst (patch_call Example.sheets_up "c1" Example.ended_body)) = 200
  /\ code (fst (patch_call Example.sheets_down "c1" Example.ended_body)) = 503
  /\ code (fst (patch_call Example.sheets_down "c1" Example.active_body)) = 200.
Proof. vm_compute. repeat split. Qed.

(** ** The mailbox *)

Lemma mailbox_db_set (db : Database) (call to : string) (key : Z) (signal : WebRTCSignal) :
  mailbox (db_set call to key signal db) call to = <[key := signal]> (mailbox db call to).
Proof. unfold mailbox, db_set. cbn. rewrite lookup_insert_eq. reflexivity. Qed.

(** A write under a key that is free adds the signal and keeps all that
    was there. *)
Lemma db_set_fresh (db : Database) (call to : string) (key : Z) (signal : WebRTCSignal) :
  mailbox db call to !! key = None ->
  mailbox (db_set call to key signal db) call to !! key = Some signal
  /\ (forall k old, mailbox db call to !! k = Some old ->
        mailbox (db_set call to key signal db) call to !! k = Some old)
  /\ base.size (mailbox (db_set call to key signal db) call to)
     = S (base.size (mailbox db call to)).
Proof.
  intros Hfree. rewrite mailbox_db_set. split; [apply lookup_insert_eq|]. split.
  - intros k old Hk. rewrite lookup_insert_ne; [exact Hk|]. congruence.
  - apply map_size_insert_None. exact Hfree.
Qed.

(** X2. [sendSignal] writes the signal at
    [webrtc-signals/<callId>/<toUserId>/<clock>] and changes nothing in the
    service. When the clock differs from every key of that mailbox and the
    database takes the write, the signal is added under the clock, every
    signal already there is kept, the mailbox grows by one, and no other
    mailbox and no call state changes. When the database refuses the write,
    [sendSignal] throws and the database is as before. *)
Theorem sendSignal_fresh_key (env : Env) (now : Z) (signal : WebRTCSignal)
    (s : WebRTCService) (db : Database) :
  mailbox db (callId s) (toUserId signal) !! now = None ->
  let r := sendSignal env now signal s in
  let db' := apply_effects (effects_of r) db in
  state_of r = s
  /\ if env_set env signal then
       outcome_of r = Returned tt
       /\ effects_of r = [DbSetSignal (callId s) (toUserId signal) now signal]
       /\ mailbox db' (callId s) (toUserId signal) !! now = Some signal
       /\ (forall k old, mailbox db (callId s) (toUserId signal) !! k = Some old ->
             mailbox db' (callId s) (toUserId signal) !! k = Some old)
       /\ base.size (mailbox db' (callId s) (toUserId signal))
          = S (base.size (mailbox db (callId s) (toUserId signal)))
       /\ (forall call user, (call, user) <> (callId s, toUserId signal) ->
             mailbox db' call user = mailbox db call user)
       /\ callStates db' = callStates db
     else
       outcome_of r = Thrown "set failed"
       /\ effects_of r = [Refused (DbSetSignal (callId s) (toUserId signal) now signal)]
       /\ db' = db.
Proof.
  intros Hfree r db'. subst r db'.
  unfold sendSignal, state_of, effects_of, outcome_of. run_act.
  destruct (env_set env signal); cbn; (split; [reflexivity|]); [|repeat split].
  destruct (db_set_fresh db (callId s) (toUserId signal) now signal Hfree) as (F1 & F2 & F3).
  repeat split; try assumption.
  intros call user Hother. unfold mailbox, db_set. cbn.
  rewrite lookup_insert_ne; [reflexivity|]. congruence.
Qed.

Lemma sendSignal_fresh_key_witness :
  let db := db_set "c1" "bob" 51 Example.the_offer Example.empty_database in
  let r := sendSignal Example.granted 5000 Example.a_candidate Example.alice_dialling in
  let db' := apply_effects (effects_of r) db in
  state_of r = Example.alice_dialling
  /\ outcome_of r = Returned tt
  /\ effects_of r = [DbSetSignal "c1" "bob" 5000 Example.a_candidate]
  /\ mailbox db' "c1" "bob" !! 5000 = Some Example.a_candidate
  /\ (forall k old, mailbox db "c1" "bob" !! k = Some old ->
        mailbox db' "c1" "bob" !! k = Some old)
  /\ base.size (mailbox db' "c1" "bob") = S (base.size (mailbox db "c1" "bob"))
  /\ (forall call user, (call, user) <> ("c1", "bob") ->
        mailbox db' call user = mailbox db call user)
  /\ callStates db' = callStates db.
Proof.
  apply (sendSignal_fresh_key Example.granted 5000 Example.a_candidate Example.alice_dialling
           (db_set "c1" "bob" 51 Example.the_offer Example.empty_database)).
  vm_compute. reflexivity.
Defined.

(** A write under a key that is taken replaces the signal that was
    there. *)
Lemma db_set_taken (db : Database) (call to : string) (key : Z) (signal old : WebRTCSignal) :
  mailbox db call to !! key = Some old ->
  mailbox (db_set call to key signal db) call to !! key = Some signal
  /\ base.size (mailbox (db_set call to key signal db) call to) = base.size (mailbox db call to).
Proof.
  intros Htaken. rewrite mailbox_db_set. split; [apply lookup_insert_eq|].
  apply map_size_insert_Some. rewrite Htaken. eexists. reflexivity.
Qed.

(** C9, evaluated. Alice's connection finds two candidates within one
    millisecond. Both are sent to Bob, under the key the clock gives, which
    is the same: his mailbox ends up with her offer and the second
    candidate, and the first candidate is gone. *)
Lemma signals_of_one_millisecond_collide :
  let sent := snd (run Example.granted Example.two_candidates Example.alice_dialling) in
  let db := apply_effects sent (db_set "c1" "bob" 51 Example.the_offer Example.empty_database) in
  length sent = 2%nat
  /\ (payload <$> mailbox db "c1" "bob" !! 5000) = Some (Some "candidate-2")
  /\ base.size (mailbox db "c1" "bob") = 2%nat
  /\ (payload <$> (snd <$> snapshot (mailbox db "c1" "bob")))
     = [Some "sdp-offer"; Some "candidate-2"].
Proof. vm_compute. repeat split. Qed.

(** ** Signals are consumed *)

(** [handleSignal] contains every failure: it always returns. *)
Lemma handleSignal_returns (env : Env) (t_sig t_key : Z) (signal : WebRTCSignal)
    (s : WebRTCService) :
  outcome_of (handleSignal env t_sig t_key signal s) = Returned tt.
Proof.
  unfold handleSignal, outcome_of. run_act.
  destruct (peerConnection s) as [pc|]; [|reflexivity].
  destruct (sig_type signal);
    unfold pc_setRemoteDescription, pc_setLocalDescription, sendSignal; run_act.
  - destruct (env_setRemoteDescription env _); cbn; [|reflexivity].
    destruct (env_createAnswer env) as [sdp|]; cbn; [|reflexivity].
    destruct (env_setLocalDescription env _); cbn; [|reflexivity].
    destruct (env_set env _); reflexivity.
  - destruct (env_setRemoteDescription env _); reflexivity.
  - destruct (remoteDescription pc); [|reflexivity].
    destruct (env_addIceCandidate env _); reflexivity.
  - destruct (isCallEnded s); reflexivity.
  - destruct (isCallEnded s); reflexivity.
Qed.

(** X1. The loop of the listener removes every signal it has handled,
    whether it could be applied or not: handling never throws, and the last
    thing done for a signal is the removal of its child from the mailbox. *)
Lemma consume_removes (env : Env) (t_sig t_key key : Z) (signal : WebRTCSignal)
    (s : WebRTCService) :
  outcome_of (consume env t_sig t_key key signal s) = Returned tt
  /\ exists done,
       effects_of (consume env t_sig t_key key signal s)
       = done ++ [DbRemoveSignal (callId s) (userId s) key].
Proof.
  pose proof (handleSignal_returns env t_sig t_key signal s) as H.
  unfold consume, outcome_of, effects_of in *. run_act.
  destruct (handleSignal env t_sig t_key signal s) as [[o s1] l1]. cbn in *. subst o.
  split; [reflexivity|]. exists l1. reflexivity.
Qed.

(** C5, evaluated. Bob's listener is attached while Alice's offer (key
    100) and a candidate of hers (key 101) wait in his mailbox. The first run
    of the callback handles the offer and removes it; the removal changes
    the mailbox, so the listener runs again, on the candidate that is left,
    and handles it; the first run then goes on with its own copy of the
    mailbox and handles the candidate a second time: [addIceCandidate] is
    called twice for it. Likewise, when the candidate arrives while the
    first run is still at the offer, the second run starts from a mailbox
    that still has the offer, and the offer is handled, and answered,
    twice. *)
Lemma signal_handled_twice :
  let c := Listener.exec Example.granted
             [Listener.Subscribe 200; Listener.Resume 0 201; Listener.Resume 0 202]
             Example.bob_listening in
  let c' := Listener.exec Example.granted
              [Listener.Subscribe 200; Listener.Arrive 101 Example.a_candidate 201]
              Example.bob_listening' in
  (Listener.handled c = [100; 101; 101]
   /\ Listener.times_handled 101 c = 2%nat
   /\ count is_add_candidate (Listener.effects c) = 2%nat)
  /\ (Listener.handled c' = [100; 100]
      /\ Listener.times_handled 100 c' = 2%nat
      /\ count (fun e => match e with PcCreateAnswer => true | _ => false end)
           (Listener.effects c') = 2%nat).
Proof. vm_compute. repeat split. Qed.

(** ** Activation *)

Section EmitsOnly.

Variable P : Effect -> Prop.

Lemma emits_only_ret {A} (a : A) : emits_only P (mret a).
Proof. intros s. constructor. Qed.

Lemma emits_only_this : emits_only P this.
Proof. intros s. constructor. Qed.

Lemma emits_only_assign f : emits_only P (assign f).
Proof. intros s. constructor. Qed.

Lemma emits_only_throw {A} e : emits_only P (@throw A e).
Proof. intros s. constructor. Qed.

Lemma emits_only_emit e : P e -> emits_only P (emit e).
Proof. intros H s. constructor; [exact H|constructor]. Qed.

Lemma emits_only_bind {A B} (m : Act A) (f : A -> Act B) :
  emits_only P m -> (forall a, emits_only P (f a)) -> emits_only P (m ≫= f).
Proof.
  intros Hm Hf s. specialize (Hm s). unfold effects_of, mbind, Act_bind in *.
  destruct (m s) as [[[a|e] s1] l1]; cbn in *; [|exact Hm].
  specialize (Hf a s1). unfold effects_of in Hf.
  destruct (f a s1) as [[r s2] l2]. cbn in *. apply Forall_app. split; assumption.
Qed.

Lemma emits_only_try_catch {A} (body : Act A) (handler : string -> Act A) :
  emits_only P body -> (forall e, emits_only P (handler e)) ->
  emits_only P (try_catch body handler).
Proof.
  intros Hm Hf s. specialize (Hm s). unfold effects_of, try_catch in *.
  destruct (body s) as [[[a|e] s1] l1]; cbn in *; [exact Hm|].
  specialize (Hf e s1). unfold effects_of in Hf.
  destruct (handler e s1) as [[r s2] l2]. cbn in *. apply Forall_app. split; assumption.
Qed.

Lemma emits_only_attempt e ok msg :
  P e -> P (Refused e) -> emits_only P (attempt e ok msg).
Proof.
  intros He Hr. unfold attempt. destruct ok.
  - apply emits_only_emit, He.
  - apply emits_only_bind; [apply emits_only_emit, Hr|intros _; apply emits_only_throw].
Qed.

Lemma emits_only_when b m : emits_only P m -> emits_only P (when b m).
Proof. intros H. unfold when. destruct b; [exact H|apply emits_only_ret]. Qed.

Lemma emits_only_for_each {A} (l : list A) (body : A -> Act unit) :
  (forall x, emits_only P (body x)) -> emits_only P (for_each l body).
Proof.
  intros H. induction l as [|x l IH]; cbn [for_each]; [apply emits_only_ret|].
  apply emits_only_bind; [apply H|intros _; exact IH].
Qed.

End EmitsOnly.

(** One step of the decomposition of a method into its calls. *)
Ltac emits_only_step :=
  lazymatch goal with
  | |- emits_only _ (mret _) => apply emits_only_ret
  | |- emits_only _ this => apply emits_only_this
  | |- emits_only _ (assign _) => apply emits_only_assign
  | |- emits_only _ (throw _) => apply emits_only_throw
  | |- emits_only _ (emit _) => apply emits_only_emit; reflexivity
  | |- emits_only _ (attempt _ _ _) => apply emits_only_attempt; reflexivity
  | |- emits_only _ (when _ _) => apply emits_only_when
  | |- emits_only _ (for_each _ _) => apply emits_only_for_each; intros ?
  | |- emits_only _ (mbind _ _) => apply emits_only_bind; [|intros ?]
  | |- emits_only _ (try_catch _ _) => apply emits_only_try_catch; [|intros ?]
  | |- emits_only _ (match ?x with _ => _ end) => destruct x
  end.

Ltac emits_only_auto := repeat emits_only_step.

Section Activation.

Variable env : Env.

Lemma startRecording_inactive : emits_only inactive (startRecording env).
Proof. unfold startRecording. emits_only_auto. Qed.

Lemma handleSignal_inactive t_sig t_key signal :
  emits_only inactive (handleSignal env t_sig t_key signal).
Proof.
  unfold handleSignal, pc_setRemoteDescription, pc_setLocalDescription, sendSignal.
  emits_only_auto.
Qed.

(** No handler but the one of a connection that reports [connected] or
    [completed] writes [active]. *)
Lemma handle_inactive ev :
  match ev with EvIceConnectionState st _ => is_connected st | _ => false end = false ->
  emits_only inactive (handle env ev).
Proof.
  intros Hev. destruct ev; cbn [handle].
  - unfold initializeCall, setupPeerConnection, createOffer, pc_setLocalDescription, sendSignal.
    emits_only_auto.
  - unfold acceptCall. emits_only_auto.
  - unfold consume. emits_only_auto. apply handleSignal_inactive.
  - unfold ontrack. emits_only_auto; apply startRecording_inactive.
  - unfold onicecandidate, sendSignal. emits_only_auto.
  - unfold oniceconnectionstatechange. rewrite Hev.
    change (when false ?m) with (mret tt : Act unit). emits_only_auto.
  - unfold onCallState. emits_only_auto; apply startRecording_inactive.
  - unfold ondataavailable. emits_only_auto.
  - unfold getRecording, ondataavailable. emits_only_auto.
  - unfold endCall, cleanupRemoteResources, updateCallState, cleanup, sendSignal.
    emits_only_auto.
  - unfold rejectCall, updateCallState, cleanup, sendSignal.
    emits_only_auto.
Qed.

End Activation.

(** The database under effects that do not make a call active. *)
Lemma apply_effect_inactive (e : Effect) (db : Database) (call : string) :
  inactive e -> call_is_active db call = false ->
  call_is_active (apply_effect db e) call = false.
Proof.
  intros He Hdb. destruct e; try exact Hdb.
  unfold inactive, marks_active in He. unfold call_is_active, apply_effect, db_update in *.
  cbn [callStates].
  destruct (decide (call0 = call)) as [->|Hne].
  - rewrite lookup_insert_eq. unfold merge_update. cbn [st_status].
    destruct (upd_status u) as [x|]; [exact He|].
    destruct (callStates db !! call) as [st|]; [exact Hdb|reflexivity].
  - rewrite lookup_insert_ne by exact Hne. exact Hdb.
Qed.

Lemma apply_effects_inactive (l : list Effect) : forall (db : Database) (call : string),
  Forall inactive l -> call_is_active db call = false ->
  call_is_active (apply_effects l db) call = false.
Proof.
  induction l as [|e l IH]; intros db call Hl Hdb; [exact Hdb|].
  inversion Hl as [|? ? He Hrest]; subst.
  unfold apply_effects. cbn [foldl]. apply IH; [exact Hrest|].
  apply apply_effect_inactive; assumption.
Qed.

Lemma system_step_inactive (env : Env) (e : SystemEvent) (sys : System) (call : string) :
  reports_connected e = false ->
  call_is_active (database sys) call = false ->
  call_is_active (database (system_step env sys e)) call = false.
Proof.
  intros He Hdb. destruct e as [p ev|c|c].
  - assert (Hev : match ev with EvIceConnectionState st _ => is_connected st | _ => false end
                  = false) by (destruct ev; try reflexivity; exact He).
    destruct p; cbn [system_step database];
      (apply apply_effects_inactive; [apply handle_inactive; exact Hev|exact Hdb]).
  - unfold call_is_active in *. cbn.
    destruct (decide (c = call)) as [->|Hne];
      [rewrite lookup_insert_eq; reflexivity|rewrite lookup_insert_ne by exact Hne; exact Hdb].
  - unfold call_is_active in *. cbn.
    destruct (decide (c = call)) as [->|Hne];
      [rewrite lookup_delete_eq; reflexivity|rewrite lookup_delete_ne by exact Hne; exact Hdb].
Qed.

Lemma acceptCall_writes_nothing : emits_only (fun e => writes_call_state e = false) acceptCall.
Proof. unfold acceptCall. emits_only_auto. Qed.

Lemma consume_writes_nothing (env : Env) (t_sig t_key key : Z) (signal : WebRTCSignal) :
  emits_only (fun e => writes_call_state e = false) (consume env t_sig t_key key signal).
Proof.
  unfold consume, handleSignal, pc_setRemoteDescription, pc_setLocalDescription, sendSignal.
  emits_only_auto.
Qed.

(** C2. Over every run of the two endpoints and the database - calls of
    the page, signals handled, media arriving, call-state changes observed,
    in any order and with any outcome of the browser's and the database's
    calls - a call whose stored status is not [active] does not become
    [active] as long as no connection has reported [connected] or
    [completed]. In particular [acceptCall] and the handling of a signal,
    the offer and the answer included, never write to the call state. The
    one thing that does is the handler of the connection state: when it sees
    [connected] or [completed] on a service not yet active, it writes status
    [active] with [startedAt] set to the clock. *)
Theorem no_premature_activation (env : Env) (tr : list SystemEvent) (sys : System)
    (call : string) :
  call_is_active (database sys) call = false ->
  Forall (fun e => reports_connected e = false) tr ->
  call_is_active (database (system_run env tr sys)) call = false
  /\ (forall s, List.filter writes_call_state (effects_of (acceptCall s)) = [])
  /\ (forall s t_sig t_key key signal,
        List.filter writes_call_state (effects_of (consume env t_sig t_key key signal s)) = [])
  /\ (forall s pc st now,
        peerConnection s = Some pc -> isCallActive s = false -> is_connected st = true ->
        effects_of (oniceconnectionstatechange env st now s)
        = [ Handler (onIceConnectionStateChange st);
            outcome_as (env_updateCallState env (mkUpdate (Some "active") (Some now) None))
              (DbUpdateCallState (callId s) (mkUpdate (Some "active") (Some now) None)) ]).
Proof.
  intros Hdb Htr. split; [|split; [|split]].
  - revert sys Hdb. induction Htr as [|e tr He _ IH]; intros sys Hdb; [exact Hdb|].
    unfold system_run. cbn [foldl]. apply IH. apply system_step_inactive; assumption.
  - intros s. apply filter_none. apply acceptCall_writes_nothing.
  - intros s t_sig t_key key signal. apply filter_none. apply consume_writes_nothing.
  - intros s pc st now Hpc Hact Hst.
    unfold oniceconnectionstatechange, updateCallState, effects_of, outcome_as. run_act.
    rewrite Hpc, Hst, Hact. cbn.
    destruct (env_updateCallState env _); reflexivity.
Qed.

Lemma no_premature_activation_witness :
  call_is_active (database (system_run Example.granted Example.negotiated Example.idle)) "c1"
  = false
  /\ (forall s, List.filter writes_call_state (effects_of (acceptCall s)) = [])
  /\ (forall s t_sig t_key key signal,
        List.filter writes_call_state
          (effects_of (consume Example.granted t_sig t_key key signal s)) = [])
  /\ (forall s pc st now,
        peerConnection s = Some pc -> isCallActive s = false -> is_connected st = true ->
        effects_of (oniceconnectionstatechange Example.granted st now s)
        = [ Handler (onIceConnectionStateChange st);
            outcome_as
              (env_updateCallState Example.granted (mkUpdate (Some "active") (Some now) None))
              (DbUpdateCallState (callId s) (mkUpdate (Some "active") (Some now) None)) ]).
Proof.
  apply (no_premature_activation Example.granted Example.negotiated Example.idle "c1").
  - reflexivity.
  - repeat constructor.
Defined.

(** The same run, continued: once Bob's connection reports [connected],
    the stored status is [active], with the clock of that moment. *)
Example activation_runs :
  let sys := system_run Example.granted
               (Example.negotiated ++ [AtPeer Callee (EvIceConnectionState ice_connected 2000)])
               Example.idle in
  call_is_active (database sys) "c1" = true
  /\ (st_startedAt <$> callStates (database sys) !! "c1") = Some (Some 2000).
Proof. vm_compute. repeat split. Qed.

(** ** Recording *)







Lemma new_Blob_size (chunks : list Blob) (ty : string) :
  Forall (fun c => 0 < blob_size c) chunks -> chunks <> [] -> 0 < blob_size (new_Blob chunks ty).
Proof.
  intros Hpos Hne. unfold new_Blob. cbn.
  destruct Hpos as [|c l Hc Hl]; [contradiction|]. cbn.
  assert (0 <= foldr (fun c n => blob_size c + n) 0 l); [|lia].
  clear Hne. induction Hl as [|c' l' Hc' _ IH]; cbn; lia.
Qed.


(** * Further properties *)

(** Unfolding the monad without unfolding the methods. *)
Ltac act_unfold :=
  repeat (progress (unfold mbind, mret, Act_bind, Act_ret, this, assign, emit, throw, when,
                      attempt, try_catch; cbv beta iota zeta)).

(** ** Rejecting a call *)

Lemma rejectCall_latched (env : Env) (s : WebRTCService) (t_sig t_key t_end : Z) :
  isCallEnded s = true -> rejectCall env t_sig t_key t_end s = (Returned tt, s, []).
Proof. intros H. unfold rejectCall. run_act. rewrite H. reflexivity. Qed.

Lemma rejectCall_open (env : Env) (s : WebRTCService) (t_sig t_key t_end : Z) :
  isCallEnded s = false ->
  let signal := mkSignal (callId s) (userId s) (otherUserId s) reject_call None t_sig in
  let u := mkUpdate (Some "rejected") None (Some t_end) in
  rejectCall env t_sig t_key t_end s
  = (Returned tt, cleaned (set_isCallEnded true s),
     (if env_set env signal
      then [ DbSetSignal (callId s) (otherUserId s) t_key signal;
             outcome_as (env_updateCallState env u) (DbUpdateCallState (callId s) u) ]
      else [ Refused (DbSetSignal (callId s) (otherUserId s) t_key signal) ])
     ++ cleanup_effects s).
Proof.
  intros H signal u. subst signal u.
  unfold rejectCall, sendSignal, updateCallState, outcome_as. act_unfold. rewrite H.
  cbn [toUserId].
  destruct (env_set env _); [destruct (env_updateCallState env _)|];
    act_unfold; rewrite cleanup_spec; destruct s; reflexivity.
Qed.

(** X3. [rejectCall] on a session whose latch is open returns normally,
    sends one reject-call signal, writes status [rejected] only if the
    signal was accepted by the database, releases the local tracks, the
    connection and the audio context once, and sets the latch, so that no
    later [endCall] or [rejectCall] does anything; on a session whose latch
    is set it does nothing. *)
Theorem rejectCall_once (env : Env) (s : WebRTCService) (t_sig t_key t_end : Z) :
  isCallEnded s = false ->
  let r := rejectCall env t_sig t_key t_end s in
  let signal := mkSignal (callId s) (userId s) (otherUserId s) reject_call None t_sig in
  outcome_of r = Returned tt
  /\ count is_reject_call_signal (effects_of r) = 1%nat
  /\ count is_rejected_write (effects_of r) = (if env_set env signal then 1 else 0)%nat
  /\ count is_end_call_signal (effects_of r) = 0%nat
  /\ List.filter is_release (effects_of r)
     = map TrackStop (default [] (localStream s))
       ++ match peerConnection s with Some _ => [PcClose] | None => [] end
       ++ match audioContext s with Some _ => [AudioContextClose] | None => [] end
  /\ (forall a b c,
        endCall env a b c (state_of r) = (Returned tt, state_of r, [])
        /\ rejectCall env a b c (state_of r) = (Returned tt, state_of r, []))
  /\ (forall s' a b c, isCallEnded s' = true ->
        rejectCall env a b c s' = (Returned tt, s', [])).
Proof.
  intros Hopen r signal. subst r signal.
  rewrite (rejectCall_open env s t_sig t_key t_end Hopen).
  unfold outcome_of, state_of, effects_of. cbn [fst snd].
  destruct (cleanup_effects_counts s) as (C1 & C2 & C3).
  assert (C4 : count is_reject_call_signal (cleanup_effects s) = 0%nat
               /\ count is_rejected_write (cleanup_effects s) = 0%nat).
  { unfold cleanup_effects. rewrite !count_app, !count_map_TrackStop by reflexivity.
    destruct (signalUnsubscribe s), (callStateUnsubscribe s), (peerConnection s),
      (audioContext s); split; reflexivity. }
  destruct C4 as (C4 & C5).
  rewrite !count_app, List.filter_app, C1, C3, C4, C5.
  split; [reflexivity|].
  split; [|split; [|split; [|split; [|split]]]].
  - unfold outcome_as.
    destruct (env_set env _); [destruct (env_updateCallState env _)|]; reflexivity.
  - unfold outcome_as.
    destruct (env_set env _); [destruct (env_updateCallState env _)|]; reflexivity.
  - unfold outcome_as.
    destruct (env_set env _); [destruct (env_updateCallState env _)|]; reflexivity.
  - unfold outcome_as.
    destruct (env_set env _); [destruct (env_updateCallState env _)|]; reflexivity.
  - intros a b c. split; [apply endCall_latched|apply rejectCall_latched]; reflexivity.
  - intros s' a b c H. apply rejectCall_latched. exact H.
Qed.

Lemma rejectCall_once_witness :
  let r := rejectCall Example.offline 10 11 12 Example.bob_waiting in
  outcome_of r = Returned tt
  /\ count is_reject_call_signal (effects_of r) = 1%nat
  /\ count is_rejected_write (effects_of r) = 0%nat
  /\ count is_end_call_signal (effects_of r) = 0%nat
  /\ List.filter is_release (effects_of r)
     = [TrackStop Example.mic; TrackStop Example.cam; PcClose]
  /\ (forall a b c,
        endCall Example.offline a b c (state_of r) = (Returned tt, state_of r, [])
        /\ rejectCall Example.offline a b c (state_of r) = (Returned tt, state_of r, []))
  /\ (forall s' a b c, isCallEnded s' = true ->
        rejectCall Example.offline a b c s' = (Returned tt, s', [])).
Proof.
  apply (rejectCall_once Example.offline Example.bob_waiting 10 11 12). reflexivity.
Defined.

(** ** Starting a session *)

Lemma count_map_none {A} (p : Effect -> bool) (f : A -> Effect) (l : list A) :
  (forall x, p (f x) = false) -> count p (map f l) = 0%nat.
Proof.
  intros Hp. unfold count. induction l as [|x l IH]; [reflexivity|]. cbn. rewrite Hp. exact IH.
Qed.

Lemma filter_map_none {A} (p : Effect -> bool) (f : A -> Effect) (l : list A) :
  (forall x, p (f x) = false) -> List.filter p (map f l) = [].
Proof.
  intros Hp. induction l as [|x l IH]; [reflexivity|]. cbn. rewrite Hp. exact IH.
Qed.

(** [initializeCall] when the media is refused. *)
Lemma initializeCall_refused (env : Env) (call other : string) (a v init : bool)
    (t_sig t_key : Z) (s : WebRTCService) :
  env_getUserMedia env a v = None ->
  initializeCall env call other a v init t_sig t_key s
  = (Thrown "getUserMedia failed", session_reset call other s,
     [Refused (GetUserMedia a v); Handler (onError "getUserMedia failed")]).
Proof.
  intros H. unfold initializeCall. act_unfold. rewrite H. act_unfold. reflexivity.
Qed.

(** [initializeCall] when the media is granted. *)
Lemma initializeCall_granted (env : Env) (call other : string) (a v init : bool)
    (t_sig t_key : Z) (s : WebRTCService) (media : MediaStream) :
  env_getUserMedia env a v = Some media ->
  let s1 := connection_set_up media v (session_reset call other s) in
  let before := [GetUserMedia a v; PcNew] ++ map PcAddTrack media ++ [SubscribeCallState call] in
  initializeCall env call other a v init t_sig t_key s
  = match (if init then createOffer env t_sig t_key s1 else (Returned tt, s1, [])) with
    | (Returned _, s2, l) =>
        (Returned tt, set_signalUnsubscribe true s2,
         before ++ l ++ [SubscribeSignals call (userId s2)])
    | (Thrown e, s2, l) => (Thrown e, s2, before ++ l ++ [Handler (onError e)])
    end.
Proof.
  intros H s1 before. subst s1 before.
  destruct s as [pc ls rs ms ac cid uid oid su cu mr ch en cvd act].
  unfold initializeCall, setupPeerConnection, connection_set_up, session_reset.
  act_unfold. rewrite H. act_unfold.
  destruct v; [destruct (getVideoTracks media) as [|t ts]|]; act_unfold; cbn;
    rewrite for_each_emitted; cbn;
    (destruct init; cbn;
     [ match goal with |- context [createOffer env t_sig t_key ?x] =>
         destruct (createOffer env t_sig t_key x) as [[[[]|e] s2] l] end;
       cbn; rewrite <- ?app_assoc; cbn; rewrite ?app_nil_r; reflexivity
     | cbn; rewrite <- ?app_assoc; cbn; rewrite ?app_nil_r; reflexivity ]).
Qed.

Lemma createOffer_spec (env : Env) (t_sig t_key : Z) (s : WebRTCService) (pc : RTCPeerConnection) :
  peerConnection s = Some pc ->
  createOffer env t_sig t_key s
  = match env_createOffer env with
    | None => (Thrown "createOffer failed", s, [Refused PcCreateOffer])
    | Some sdp =>
        let signal := mkSignal (callId s) (userId s) (otherUserId s) offer sdp t_sig in
        if env_setLocalDescription env sdp then
          if env_set env signal then
            (Returned tt, set_localDescription sdp s,
             [PcCreateOffer; PcSetLocalDescription sdp;
              DbSetSignal (callId s) (otherUserId s) t_key signal])
          else
            (Thrown "set failed", set_localDescription sdp s,
             [PcCreateOffer; PcSetLocalDescription sdp;
              Refused (DbSetSignal (callId s) (otherUserId s) t_key signal)])
        else
          (Thrown "setLocalDescription failed", s,
           [PcCreateOffer; Refused (PcSetLocalDescription sdp)])
    end.
Proof.
  intros Hpc. unfold createOffer, pc_setLocalDescription, sendSignal. act_unfold. rewrite Hpc.
  destruct (env_createOffer env) as [sdp|]; act_unfold; [|reflexivity].
  destruct (env_setLocalDescription env sdp); act_unfold; [|reflexivity].
  replace (callId (set_localDescription sdp s)) with (callId s)
    by (unfold set_localDescription; rewrite Hpc; destruct s; reflexivity).
  cbn [toUserId].
  destruct (env_set env _); reflexivity.
Qed.

Lemma connection_set_up_fields (media : MediaStream) (v : bool) (s : WebRTCService) :
  peerConnection (connection_set_up media v s) = Some (mkPc None None ice_new media)
  /\ localStream (connection_set_up media v s) = Some media
  /\ remoteStream (connection_set_up media v s) = Some []
  /\ callStateUnsubscribe (connection_set_up media v s) = true
  /\ signalUnsubscribe (connection_set_up media v s) = signalUnsubscribe s
  /\ callId (connection_set_up media v s) = callId s
  /\ userId (connection_set_up media v s) = userId s
  /\ otherUserId (connection_set_up media v s) = otherUserId s
  /\ isCallEnded (connection_set_up media v s) = isCallEnded s
  /\ isCallActive (connection_set_up media v s) = isCallActive s.
Proof.
  unfold connection_set_up.
  destruct v; [destruct (getVideoTracks media)|]; destruct s; cbn; repeat split.
Qed.

(** X4. When [initializeCall] throws, the last thing it has done is to
    call the application's [onError] with the error it throws, and it has
    called [onError] at no other time; the signal listener has not been
    attached and nothing has been released. If the media was refused, nothing
    was acquired: the only calls made are the refused [getUserMedia] and
    [onError]. Otherwise the service is the initiator and it is the offer
    that failed - at [createOffer], at [setLocalDescription] or at the write
    of the offer signal - after the connection was set up and the call state
    subscribed to: the local media, the peer connection and the call-state
    subscription stay as they were set up. *)
Theorem initializeCall_failure (env : Env) (call other : string) (a v init : bool)
    (t_sig t_key : Z) (s : WebRTCService) (e : string) :
  outcome_of (initializeCall env call other a v init t_sig t_key s) = Thrown e ->
  let r := initializeCall env call other a v init t_sig t_key s in
  (exists before,
      effects_of r = before ++ [Handler (onError e)] /\ count is_onError before = 0%nat)
  /\ count is_onError (effects_of r) = 1%nat
  /\ count is_subscribe_signals (effects_of r) = 0%nat
  /\ signalUnsubscribe (state_of r) = signalUnsubscribe s
  /\ List.filter is_release (effects_of r) = []
  /\ match env_getUserMedia env a v with
     | None =>
         e = "getUserMedia failed"
         /\ effects_of r = [Refused (GetUserMedia a v); Handler (onError e)]
         /\ peerConnection (state_of r) = peerConnection s
         /\ localStream (state_of r) = localStream s
         /\ callStateUnsubscribe (state_of r) = callStateUnsubscribe s
     | Some media =>
         let set_up :=
           [GetUserMedia a v; PcNew] ++ map PcAddTrack media ++ [SubscribeCallState call] in
         init = true
         /\ localStream (state_of r) = Some media
         /\ (exists pc, peerConnection (state_of r) = Some pc)
         /\ callStateUnsubscribe (state_of r) = true
         /\ match env_createOffer env with
            | None =>
                e = "createOffer failed"
                /\ effects_of r = set_up ++ [Refused PcCreateOffer; Handler (onError e)]
            | Some sdp =>
                let signal := mkSignal call (userId s) other offer sdp t_sig in
                if env_setLocalDescription env sdp then
                  env_set env signal = false
                  /\ e = "set failed"
                  /\ effects_of r
                     = set_up ++ [PcCreateOffer; PcSetLocalDescription sdp;
                                  Refused (DbSetSignal call other t_key signal);
                                  Handler (onError e)]
                else
                  e = "setLocalDescription failed"
                  /\ effects_of r
                     = set_up ++ [PcCreateOffer; Refused (PcSetLocalDescription sdp);
                                  Handler (onError e)]
            end
     end.
Proof.
  intros Hthrown r. subst r. revert Hthrown.
  destruct (env_getUserMedia env a v) as [media|] eqn:Hmedia.
  - rewrite (initializeCall_granted env call other a v init t_sig t_key s media Hmedia).
    set (s1 := connection_set_up media v (session_reset call other s)).
    destruct (connection_set_up_fields media v (session_reset call other s))
      as (Fpc & Fl & _ & Fc & Fs & Fid & Fu & Fo & _).
    fold s1 in Fpc, Fl, Fc, Fs, Fid, Fu, Fo.
    assert (Hid : callId s1 = call) by (rewrite Fid; destruct s; reflexivity).
    assert (Hu : userId s1 = userId s) by (rewrite Fu; destruct s; reflexivity).
    assert (Ho : otherUserId s1 = other) by (rewrite Fo; destruct s; reflexivity).
    destruct init; [|discriminate].
    rewrite (createOffer_spec env t_sig t_key s1 _ Fpc), Hid, Hu, Ho.
    assert (Hkeep : forall sdp,
              localStream (set_localDescription sdp s1) = Some media
              /\ (exists pc, peerConnection (set_localDescription sdp s1) = Some pc)
              /\ callStateUnsubscribe (set_localDescription sdp s1) = true
              /\ signalUnsubscribe (set_localDescription sdp s1) = signalUnsubscribe s).
    { intros sdp. unfold set_localDescription. rewrite Fpc.
      destruct s1; cbn in *. subst. repeat split; try reflexivity; eauto. }
    assert (Fs' : signalUnsubscribe s1 = signalUnsubscribe s)
      by (rewrite Fs; destruct s; reflexivity).
    set (set_up := [GetUserMedia a v; PcNew] ++ map PcAddTrack media ++ [SubscribeCallState call]).
    assert (Hnone : count is_onError set_up = 0%nat
                    /\ count is_subscribe_signals set_up = 0%nat
                    /\ List.filter is_release set_up = []).
    { subst set_up.
      rewrite !count_app, !List.filter_app, (count_map_none is_onError),
        (count_map_none is_subscribe_signals), (filter_map_none is_release) by reflexivity.
      repeat split. }
    destruct Hnone as (N1 & N2 & N3).
    assert (Hshape : forall l,
              count is_onError l = 0%nat -> count is_subscribe_signals l = 0%nat ->
              List.filter is_release l = [] ->
              (exists before,
                  set_up ++ l ++ [Handler (onError e)] = before ++ [Handler (onError e)]
                  /\ count is_onError before = 0%nat)
              /\ count is_onError (set_up ++ l ++ [Handler (onError e)]) = 1%nat
              /\ count is_subscribe_signals (set_up ++ l ++ [Handler (onError e)]) = 0%nat
              /\ List.filter is_release (set_up ++ l ++ [Handler (onError e)]) = []).
    { intros l L1 L2 L3. split; [|split; [|split]].
      - exists (set_up ++ l). split; [now rewrite <- app_assoc|].
        now rewrite count_app, N1, L1.
      - now rewrite !count_app, N1, L1.
      - now rewrite !count_app, N2, L2.
      - now rewrite !List.filter_app, N3, L3. }
    destruct (env_createOffer env) as [sdp|]; cbv zeta.
    + destruct (Hkeep sdp) as (K1 & K2 & K3 & K4).
      destruct (env_setLocalDescription env sdp);
        [destruct (env_set env _) eqn:Hset|];
        unfold outcome_of, effects_of, state_of; cbn [fst snd]; intros H;
        try discriminate H; injection H as <-.
      * destruct (Hshape [PcCreateOffer; PcSetLocalDescription sdp;
                          Refused (DbSetSignal call other t_key
                                     (mkSignal call (userId s) other offer sdp t_sig))])
          as (S1 & S2 & S3 & S4); try reflexivity.
        repeat split; eauto.
      * destruct (Hshape [PcCreateOffer; Refused (PcSetLocalDescription sdp)])
          as (S1 & S2 & S3 & S4); try reflexivity.
        repeat split; eauto.
    + unfold outcome_of, effects_of, state_of. cbn [fst snd]. intros H. injection H as <-.
      destruct (Hshape [Refused PcCreateOffer]) as (S1 & S2 & S3 & S4); try reflexivity.
      repeat split; eauto.
  - rewrite (initializeCall_refused env call other a v init t_sig t_key s Hmedia).
    unfold outcome_of, effects_of, state_of. cbn [fst snd]. intros H. injection H as <-.
    split; [exists [Refused (GetUserMedia a v)]; split; reflexivity|].
    destruct s; repeat split.
Qed.

Lemma initializeCall_failure_witness :
  let blocked :=
    mkEnv (fun _ _ => None) None None (fun _ => true) (fun _ => true) (fun _ => true)
      (fun _ => true) (fun _ => true) None (fun _ => true) (fun _ => true) (fun _ _ => true) in
  let r := initializeCall blocked "c1" "bob" true true true 50 51 (constructor "alice") in
  let r' := initializeCall Example.offline "c1" "bob" true true true 50 51 (constructor "alice") in
  let the_offer := mkSignal "c1" "alice" "bob" offer (Some "sdp-offer") 50 in
  ((exists before,
       effects_of r = before ++ [Handler (onError "getUserMedia failed")]
       /\ count is_onError before = 0%nat)
   /\ count is_onError (effects_of r) = 1%nat
   /\ count is_subscribe_signals (effects_of r) = 0%nat
   /\ signalUnsubscribe (state_of r) = false
   /\ List.filter is_release (effects_of r) = []
   /\ "getUserMedia failed" = "getUserMedia failed"
   /\ effects_of r = [Refused (GetUserMedia true true); Handler (onError "getUserMedia failed")]
   /\ peerConnection (state_of r) = None
   /\ localStream (state_of r) = None
   /\ callStateUnsubscribe (state_of r) = false)
  /\ ((exists before,
          effects_of r' = before ++ [Handler (onError "set failed")]
          /\ count is_onError before = 0%nat)
      /\ count is_onError (effects_of r') = 1%nat
      /\ count is_subscribe_signals (effects_of r') = 0%nat
      /\ signalUnsubscribe (state_of r') = false
      /\ List.filter is_release (effects_of r') = []
      /\ true = true
      /\ localStream (state_of r') = Some [Example.mic; Example.cam]
      /\ (exists pc, peerConnection (state_of r') = Some pc)
      /\ callStateUnsubscribe (state_of r') = true
      /\ false = false
      /\ "set failed" = "set failed"
      /\ effects_of r'
         = [GetUserMedia true true; PcNew; PcAddTrack Example.mic; PcAddTrack Example.cam;
            SubscribeCallState "c1"; PcCreateOffer; PcSetLocalDescription (Some "sdp-offer");
            Refused (DbSetSignal "c1" "bob" 51 the_offer); Handler (onError "set failed")]).
Proof.
  split.
  - apply (initializeCall_failure
             (mkEnv (fun _ _ => None) None None (fun _ => true) (fun _ => true) (fun _ => true)
                (fun _ => true) (fun _ => true) None (fun _ => true) (fun _ => true)
                (fun _ _ => true))
             "c1" "bob" true true true 50 51 (constructor "alice") "getUserMedia failed").
    reflexivity.
  - apply (initializeCall_failure Example.offline
             "c1" "bob" true true true 50 51 (constructor "alice") "set failed").
    reflexivity.
Defined.

(** X5. With the media granted, the receiver's [initializeCall] writes no
    signal: it sets up the connection, subscribes to the call state and
    attaches the signal listener. The initiator's, when the offer goes
    through, writes exactly one signal, the offer, addressed to the other
    user, after the call-state subscription and before the signal listener
    is attached. Either way the session starts with both latches open, an
    empty remote stream and no remote description. *)
Theorem initializeCall_roles (env : Env) (call other : string) (a v : bool)
    (t_sig t_key : Z) (s : WebRTCService) (media : MediaStream) :
  env_getUserMedia env a v = Some media ->
  let s1 := connection_set_up media v (session_reset call other s) in
  let before := [GetUserMedia a v; PcNew] ++ map PcAddTrack media ++ [SubscribeCallState call] in
  initializeCall env call other a v false t_sig t_key s
  = (Returned tt, set_signalUnsubscribe true s1, before ++ [SubscribeSignals call (userId s)])
  /\ (forall sdp,
        let signal := mkSignal call (userId s) other offer sdp t_sig in
        env_createOffer env = Some sdp -> env_setLocalDescription env sdp = true ->
        env_set env signal = true ->
        initializeCall env call other a v true t_sig t_key s
        = (Returned tt, set_signalUnsubscribe true (set_localDescription sdp s1),
           before ++ [PcCreateOffer; PcSetLocalDescription sdp;
                      DbSetSignal call other t_key signal;
                      SubscribeSignals call (userId s)]))
  /\ isCallEnded s1 = false /\ isCallActive s1 = false
  /\ remoteStream s1 = Some []
  /\ peerConnection s1 = Some (mkPc None None ice_new media).
Proof.
  intros Hmedia s1 before.
  destruct (connection_set_up_fields media v (session_reset call other s))
    as (Fpc & Fl & Fr & Fc & Fs & Fcid & Fu & Fo & Fe & Fa).
  fold s1 in Fpc, Fl, Fr, Fc, Fs, Fcid, Fu, Fo, Fe, Fa.
  assert (Hu : userId s1 = userId s) by (rewrite Fu; destruct s; reflexivity).
  assert (Hc : callId s1 = call) by (rewrite Fcid; destruct s; reflexivity).
  assert (Ho : otherUserId s1 = other) by (rewrite Fo; destruct s; reflexivity).
  split; [|split; [|split; [|split; [|split]]]].
  - rewrite (initializeCall_granted env call other a v false t_sig t_key s media Hmedia).
    fold s1. cbv iota beta. rewrite Hu. reflexivity.
  - intros sdp signal Hoffer Hlocal Hset.
    rewrite (initializeCall_granted env call other a v true t_sig t_key s media Hmedia).
    fold s1. rewrite (createOffer_spec env t_sig t_key s1 _ Fpc), Hoffer.
    cbv zeta. rewrite Hlocal, Hu, Hc, Ho. fold signal. rewrite Hset. cbv iota beta.
    replace (userId (set_localDescription sdp s1)) with (userId s)
      by (unfold set_localDescription; rewrite Fpc, <- Hu; destruct s1; reflexivity).
    reflexivity.
  - rewrite Fe. destruct s; reflexivity.
  - rewrite Fa. destruct s; reflexivity.
  - exact Fr.
  - exact Fpc.
Qed.

Lemma initializeCall_roles_witness :
  initializeCall Example.granted "c1" "alice" true true false 0 0 (constructor "bob")
  = (Returned tt, Example.bob_waiting,
     [GetUserMedia true true; PcNew; PcAddTrack Example.mic; PcAddTrack Example.cam;
      SubscribeCallState "c1"; SubscribeSignals "c1" "bob"])
  /\ initializeCall Example.granted "c1" "bob" true true true 50 51 (constructor "alice")
     = (Returned tt, Example.alice_dialling,
        [GetUserMedia true true; PcNew; PcAddTrack Example.mic; PcAddTrack Example.cam;
         SubscribeCallState "c1"; PcCreateOffer; PcSetLocalDescription (Some "sdp-offer");
         DbSetSignal "c1" "bob" 51 (mkSignal "c1" "alice" "bob" offer (Some "sdp-offer") 50);
         SubscribeSignals "c1" "alice"]).
Proof.
  destruct (initializeCall_roles Example.granted "c1" "alice" true true 0 0 (constructor "bob")
              [Example.mic; Example.cam] eq_refl) as (Hreceiver & _).
  destruct (initializeCall_roles Example.granted "c1" "bob" true true 50 51
              (constructor "alice") [Example.mic; Example.cam] eq_refl) as (_ & Hinitiator & _).
  specialize (Hinitiator (Some "sdp-offer") eq_refl eq_refl eq_refl).
  vm_compute in Hreceiver, Hinitiator. vm_compute. split; assumption.
Defined.

(** ** Signals *)

(** X6. An offer that is handled on a service with a connection never
    throws. The remote description is set exactly when the connection
    accepts the offer, and an answer is written exactly when the connection
    accepts the offer, creates an answer and accepts it as local
    description; the answer then goes to the other user, under the clock of
    the write, and is all that is written. *)
Theorem offer_is_answered (env : Env) (s : WebRTCService) (pc : RTCPeerConnection)
    (signal : WebRTCSignal) (t_sig t_key : Z) :
  peerConnection s = Some pc ->
  sig_type signal = offer ->
  let r := handleSignal env t_sig t_key signal s in
  outcome_of r = Returned tt
  /\ (remoteDescription <$> peerConnection (state_of r))
     = Some (if env_setRemoteDescription env (payload signal)
             then Some (payload signal) else remoteDescription pc)
  /\ (count is_answer_signal (effects_of r) = 1%nat
      <-> env_setRemoteDescription env (payload signal) = true
          /\ exists sdp, env_createAnswer env = Some sdp
                         /\ env_setLocalDescription env sdp = true)
  /\ (forall sdp,
        env_setRemoteDescription env (payload signal) = true ->
        env_createAnswer env = Some sdp -> env_setLocalDescription env sdp = true ->
        let reply := mkSignal (callId s) (userId s) (otherUserId s) answer sdp t_sig in
        effects_of r
        = [ PcSetRemoteDescription (payload signal); PcCreateAnswer;
            PcSetLocalDescription sdp;
            outcome_as (env_set env reply)
              (DbSetSignal (callId s) (otherUserId s) t_key reply) ]).
Proof.
  intros Hpc Hty r. subst r.
  destruct s as [pc0 ls rs ms ac cid uid oid su cu mr ch en cvd act]. cbn in Hpc. subst pc0.
  unfold handleSignal, pc_setRemoteDescription, pc_setLocalDescription, sendSignal,
    outcome_of, state_of, effects_of, outcome_as.
  run_act. rewrite Hty. run_act.
  destruct (env_setRemoteDescription env (payload signal)); run_act.
  - destruct (env_createAnswer env) as [sdp|]; run_act.
    + destruct (env_setLocalDescription env sdp) eqn:Hl; run_act.
      * destruct (env_set env _) eqn:Hs; run_act;
          (split; [reflexivity|]; split; [reflexivity|]; split;
           [ split; [intros _; split; [reflexivity|]; exists sdp; split; [reflexivity|exact Hl]
                    |reflexivity]
           | intros sdp' _ H _; injection H as <-; rewrite Hs; reflexivity ]).
      * split; [reflexivity|]. split; [reflexivity|]. split.
        -- split; [discriminate|]. intros (_ & sdp' & H & H'). injection H as <-. congruence.
        -- intros sdp' _ H H'. injection H as <-. congruence.
    + split; [reflexivity|]. split; [reflexivity|]. split.
      * split; [discriminate|]. intros (_ & sdp' & H & _). discriminate H.
      * intros sdp' _ H. discriminate H.
  - split; [reflexivity|]. split; [reflexivity|]. split.
    + split; [discriminate|]. intros (H & _). discriminate H.
    + intros sdp' H. discriminate H.
Qed.

Lemma offer_is_answered_witness :
  let r := handleSignal Example.granted 110 111 Example.the_offer Example.bob_waiting in
  outcome_of r = Returned tt
  /\ (remoteDescription <$> peerConnection (state_of r)) = Some (Some (Some "sdp-offer"))
  /\ count is_answer_signal (effects_of r) = 1%nat
  /\ effects_of r
     = [ PcSetRemoteDescription (Some "sdp-offer"); PcCreateAnswer;
         PcSetLocalDescription (Some "sdp-answer");
         DbSetSignal "c1" "alice" 111
           (mkSignal "c1" "bob" "alice" answer (Some "sdp-answer") 110) ].
Proof.
  destruct (offer_is_answered Example.granted Example.bob_waiting
              (mkPc None None ice_new [Example.mic; Example.cam]) Example.the_offer 110 111
              eq_refl eq_refl) as (H1 & H2 & H3 & H4).
  split; [exact H1|]. split; [exact H2|]. split.
  - apply H3. split; [reflexivity|]. eexists. split; reflexivity.
  - apply (H4 (Some "sdp-answer")); reflexivity.
Defined.

(** X7. On a service with a connection, handling the peer's end-call or
    reject-call signal makes no call at all - no handler of the application
    is called, nothing is released - and changes nothing but the ended
    latch, which it sets; [endCall] and [rejectCall] after it return at the
    latch, so the connection, the local stream and the recorder stay as they
    were. *)
Theorem remote_end_sets_latch_only (env : Env) (s : WebRTCService) (pc : RTCPeerConnection)
    (signal : WebRTCSignal) (t_sig t_key : Z) :
  peerConnection s = Some pc ->
  negotiates signal = false ->
  let r := handleSignal env t_sig t_key signal s in
  r = (Returned tt, set_isCallEnded true s, [])
  /\ (forall a b c,
        endCall env a b c (state_of r) = (Returned tt, state_of r, [])
        /\ rejectCall env a b c (state_of r) = (Returned tt, state_of r, []))
  /\ peerConnection (state_of r) = peerConnection s
  /\ localStream (state_of r) = localStream s
  /\ mediaRecorder (state_of r) = mediaRecorder s
  /\ recordedChunks (state_of r) = recordedChunks s.
Proof.
  intros Hpc Hty r.
  assert (Hr : r = (Returned tt, set_isCallEnded true s, [])).
  { subst r. unfold handleSignal. run_act. rewrite Hpc.
    unfold negotiates in Hty.
    destruct (sig_type signal); try discriminate Hty;
      destruct s as [pc0 ls rs ms ac cid uid oid su cu mr ch [] cvd act]; reflexivity. }
  rewrite Hr. unfold state_of. cbn [fst snd].
  split; [reflexivity|]. split.
  - intros a b c. split; [apply endCall_latched|apply rejectCall_latched]; reflexivity.
  - destruct s; repeat split.
Qed.

Lemma remote_end_sets_latch_only_witness :
  let r := handleSignal Example.granted 9100 9101 Example.the_end_call Example.bob_in_call in
  r = (Returned tt, set_isCallEnded true Example.bob_in_call, [])
  /\ (forall a b c,
        endCall Example.granted a b c (state_of r) = (Returned tt, state_of r, [])
        /\ rejectCall Example.granted a b c (state_of r) = (Returned tt, state_of r, []))
  /\ peerConnection (state_of r) = peerConnection Example.bob_in_call
  /\ localStream (state_of r) = localStream Example.bob_in_call
  /\ mediaRecorder (state_of r) = mediaRecorder Example.bob_in_call
  /\ recordedChunks (state_of r) = recordedChunks Example.bob_in_call.
Proof.
  apply (remote_end_sets_latch_only Example.granted Example.bob_in_call
           (mkPc (Some (Some "sdp-offer")) (Some (Some "sdp-answer")) ice_connected
              [Example.mic; Example.cam])
           Example.the_end_call 9100 9101);
    reflexivity.
Defined.

(** X8. The handling of an offer, an answer or a candidate does not
    consult the ended latch: whatever the latch, the same calls are made and
    the same changes applied. A session that the peer has ended, and that
    still has its connection, goes on answering offers and applying
    candidates. *)
Theorem negotiation_ignores_latch (env : Env) (s : WebRTCService) (signal : WebRTCSignal)
    (t_sig t_key : Z) (latch : bool) :
  negotiates signal = true ->
  handleSignal env t_sig t_key signal (set_isCallEnded latch s)
  = (outcome_of (handleSignal env t_sig t_key signal s),
     set_isCallEnded latch (state_of (handleSignal env t_sig t_key signal s)),
     effects_of (handleSignal env t_sig t_key signal s)).
Proof.
  intros Hty.
  destruct s as [pc ls rs ms ac cid uid oid su cu mr ch en cvd act].
  unfold handleSignal, pc_setRemoteDescription, pc_setLocalDescription, sendSignal,
    outcome_of, state_of, effects_of, negotiates in *.
  run_act.
  destruct pc as [pc|]; [|reflexivity].
  destruct (sig_type signal); try discriminate Hty; run_act.
  - destruct (env_setRemoteDescription env _); run_act; [|reflexivity].
    destruct (env_createAnswer env) as [sdp|]; run_act; [|reflexivity].
    destruct (env_setLocalDescription env sdp); run_act; [|reflexivity].
    destruct (env_set env _); reflexivity.
  - destruct (env_setRemoteDescription env _); reflexivity.
  - destruct (remoteDescription pc); [|reflexivity].
    destruct (env_addIceCandidate env _); reflexivity.
Qed.

Lemma negotiation_ignores_latch_witness :
  let r := handleSignal Example.granted 7 8 Example.a_candidate Example.bob_waiting in
  handleSignal Example.granted 7 8 Example.a_candidate (set_isCallEnded true Example.bob_waiting)
  = (outcome_of r, set_isCallEnded true (state_of r), effects_of r).
Proof.
  apply (negotiation_ignores_latch Example.granted Example.bob_waiting Example.a_candidate 7 8
           true).
  reflexivity.
Defined.


(** ** The recording *)

(** X9. [getRecording] can be asked again: a second call resolves to the
    same recording as the first, stops nothing and changes nothing; the
    first stops the recorder exactly when it finds one that is not
    inactive. *)
Theorem getRecording_again (s : WebRTCService) (final final' : option Blob) :
  let r := getRecording final s in
  getRecording final' (state_of r) = (outcome_of r, state_of r, [])
  /\ effects_of r
     = match mediaRecorder s with
       | Some rec => if not_inactive rec then [RecorderStop] else []
       | None => []
       end.
Proof.
  intros r. subst r.
  destruct s as [pc ls rs ms ac cid uid oid su cu mr ch en cvd act].
  unfold getRecording, ondataavailable, outcome_of, state_of, effects_of. run_act.
  destruct mr as [[str mime st]|]; [|split; reflexivity].
  destruct st; run_act; try (split; reflexivity);
    (destruct final as [f|]; [destruct (0 <? blob_size f)|]; run_act; split; reflexivity).
Qed.

(** ** What a method keeps *)

Section Keeps.

Variable Q : WebRTCService -> Prop.

Lemma keeps_ret {A} (a : A) : keeps Q (mret a).
Proof. intros s H. exact H. Qed.

Lemma keeps_this : keeps Q this.
Proof. intros s H. exact H. Qed.

Lemma keeps_emit e : keeps Q (emit e).
Proof. intros s H. exact H. Qed.

Lemma keeps_throw {A} e : keeps Q (@throw A e).
Proof. intros s H. exact H. Qed.

Lemma keeps_assign f : (forall s, Q s -> Q (f s)) -> keeps Q (assign f).
Proof. intros Hf s H. apply Hf, H. Qed.

Lemma keeps_bind {A B} (m : Act A) (f : A -> Act B) :
  keeps Q m -> (forall a, keeps Q (f a)) -> keeps Q (m ≫= f).
Proof.
  intros Hm Hf s H. specialize (Hm s H). unfold state_of, mbind, Act_bind in *.
  destruct (m s) as [[[a|e] s1] l1]; cbn in *; [|exact Hm].
  specialize (Hf a s1 Hm). unfold state_of in Hf.
  destruct (f a s1) as [[r s2] l2]. exact Hf.
Qed.

Lemma keeps_try_catch {A} (body : Act A) (handler : string -> Act A) :
  keeps Q body -> (forall e, keeps Q (handler e)) -> keeps Q (try_catch body handler).
Proof.
  intros Hm Hf s H. specialize (Hm s H). unfold state_of, try_catch in *.
  destruct (body s) as [[[a|e] s1] l1]; cbn in *; [exact Hm|].
  specialize (Hf e s1 Hm). unfold state_of in Hf.
  destruct (handler e s1) as [[r s2] l2]. exact Hf.
Qed.

Lemma keeps_attempt e ok msg : keeps Q (attempt e ok msg).
Proof. intros s H. unfold attempt. destruct ok; exact H. Qed.

Lemma keeps_when b m : keeps Q m -> keeps Q (when b m).
Proof. intros H. unfold when. destruct b; [exact H|apply keeps_ret]. Qed.

Lemma keeps_for_each {A} (l : list A) (body : A -> Act unit) :
  (forall x, keeps Q (body x)) -> keeps Q (for_each l body).
Proof.
  intros H. induction l as [|x l IH]; cbn [for_each]; [apply keeps_ret|].
  apply keeps_bind; [apply H|intros _; exact IH].
Qed.

End Keeps.

(** One step of the decomposition of a method; [tac] proves that an
    assignment keeps the property. *)
Ltac keeps_step tac :=
  lazymatch goal with
  | |- keeps _ (mret _) => apply keeps_ret
  | |- keeps _ this => apply keeps_this
  | |- keeps _ (assign _) => apply keeps_assign; tac
  | |- keeps _ (throw _) => apply keeps_throw
  | |- keeps _ (emit _) => apply keeps_emit
  | |- keeps _ (attempt _ _ _) => apply keeps_attempt
  | |- keeps _ (when _ _) => apply keeps_when
  | |- keeps _ (for_each _ _) => apply keeps_for_each; intros ?
  | |- keeps _ (mbind _ _) => apply keeps_bind; [|intros ?]
  | |- keeps _ (try_catch _ _) => apply keeps_try_catch; [|intros ?]
  | |- keeps _ (match ?x with _ => _ end) => destruct x
  end.

Ltac keeps_auto tac := repeat keeps_step tac.

Ltac field_kept :=
  let s := fresh "s" in
  let H := fresh "H" in
  intros s H;
  unfold latches_kept, chunks_have_data, set_localDescription, set_remoteDescription,
    set_iceConnectionState in *;
  try (destruct (peerConnection s));
  destruct s; cbn in *; first [exact H | intuition congruence | constructor].

Lemma handle_latches_kept (env : Env) (s0 : WebRTCService) (ev : Event) :
  is_initializeCall ev = false -> keeps (latches_kept s0) (handle env ev).
Proof.
  intros Hev. destruct ev; try discriminate Hev; cbn [handle].
  - unfold acceptCall. keeps_auto field_kept.
  - unfold consume, handleSignal, pc_setRemoteDescription, pc_setLocalDescription, sendSignal.
    keeps_auto field_kept.
  - unfold ontrack, startRecording. keeps_auto field_kept.
  - unfold onicecandidate, sendSignal. keeps_auto field_kept.
  - unfold oniceconnectionstatechange, updateCallState. keeps_auto field_kept.
  - unfold onCallState, startRecording. keeps_auto field_kept.
  - unfold ondataavailable. keeps_auto field_kept.
  - unfold getRecording, ondataavailable. keeps_auto field_kept.
  - unfold endCall, cleanupRemoteResources, updateCallState, cleanup, sendSignal.
    keeps_auto field_kept.
  - unfold rejectCall, updateCallState, cleanup, sendSignal.
    keeps_auto field_kept.
Qed.

Lemma run_keeps (env : Env) (Q : WebRTCService -> Prop) (allowed : Event -> bool) :
  (forall ev, allowed ev = true -> keeps Q (handle env ev)) ->
  forall evs s, Forall (fun ev => allowed ev = true) evs -> Q s -> Q (fst (run env evs s)).
Proof.
  intros Hstep evs. induction evs as [|ev evs IH]; intros s Hevs Hs; [exact Hs|].
  inversion Hevs as [|? ? Hev Hrest]; subst. cbn.
  apply IH; [exact Hrest|]. apply Hstep; assumption.
Qed.

(** ** Recording gating *)















Lemma startRecording_returns (env : Env) (s : WebRTCService) :
  outcome_of (startRecording env s) = Returned tt.
Proof.
  unfold startRecording, outcome_of. unfold mbind at 1. unfold Act_bind, this.
  destruct (localStream s) as [local|]; [|reflexivity].
  destruct (remoteStream s) as [remote|]; [|reflexivity].
  unfold try_catch.
  match goal with |- context [match ?b s with _ => _ end] => destruct (b s) as [[[[]|e] s1] l1] end;
    reflexivity.
Qed.

Lemma startRecording_not_onCallEnded (env : Env) : emits_only not_onCallEnded (startRecording env).
Proof. unfold startRecording. emits_only_auto. Qed.

Lemma startRecording_keeps_latch (env : Env) (b : bool) :
  keeps (fun s => isCallEnded s = b) (startRecording env).
Proof.
  unfold startRecording.
  keeps_auto ltac:(let s := fresh in let H := fresh in intros s H; destruct s; exact H).
Qed.

Lemma not_onCallEnded_count (l : list Effect) :
  Forall not_onCallEnded l -> count is_onCallEnded l = 0%nat.
Proof. intros H. unfold count. rewrite filter_none; [reflexivity|exact H]. Qed.

(** The call-state listener: [onCallEnded] is called when the state is
    [ended] and the latch is open, and the latch is then set. *)
Lemma onCallState_notifies (env : Env) (state : CallState) (s : WebRTCService) :
  let r := onCallState env state s in
  let fires := String.eqb (cs_status state) "ended" && negb (isCallEnded s) in
  count is_onCallEnded (effects_of r) = (if fires then 1 else 0)%nat
  /\ isCallEnded (state_of r) = (fires || isCallEnded s).
Proof.
  intros r fires. subst r fires. unfold onCallState, effects_of, state_of.
  act_unfold.
  destruct (String.eqb (cs_status state) "active" && negb (isCallActive s)).
  - pose proof (startRecording_returns env (set_isCallActive true s)) as Hret.
    pose proof (startRecording_not_onCallEnded env (set_isCallActive true s)) as Hq.
    pose proof (startRecording_keeps_latch env (isCallEnded s) (set_isCallActive true s)) as Hk.
    unfold outcome_of, effects_of, state_of in *.
    destruct (startRecording env (set_isCallActive true s)) as [[o s2] l2].
    cbn in Hret, Hq, Hk. subst o. specialize (Hk eq_refl). rewrite Hk.
    cbv beta iota zeta.
    destruct (String.eqb (cs_status state) "ended" && negb (isCallEnded s));
      cbn [fst snd app];
      change (?x :: l2 ++ ?l) with ([x] ++ l2 ++ l);
      rewrite !count_app, (not_onCallEnded_count l2 Hq);
      (split; [reflexivity|]); [destruct s2; reflexivity|exact Hk].
  - cbv beta iota zeta. cbn [fst snd app].
    destruct (String.eqb (cs_status state) "ended" && negb (isCallEnded s));
      cbn; split; try reflexivity; destruct s; reflexivity.
Qed.

Lemma handle_not_onCallEnded (env : Env) (ev : Event) :
  match ev with EvCallState _ => false | _ => true end = true ->
  emits_only not_onCallEnded (handle env ev).
Proof.
  intros Hev. destruct ev; try discriminate Hev; cbn [handle].
  - unfold initializeCall, setupPeerConnection, createOffer, pc_setLocalDescription, sendSignal.
    emits_only_auto.
  - unfold acceptCall. emits_only_auto.
  - unfold consume, handleSignal, pc_setRemoteDescription, pc_setLocalDescription, sendSignal.
    emits_only_auto.
  - unfold ontrack. emits_only_auto; apply startRecording_not_onCallEnded.
  - unfold onicecandidate, sendSignal. emits_only_auto.
  - unfold oniceconnectionstatechange, updateCallState. emits_only_auto.
  - unfold ondataavailable. emits_only_auto.
  - unfold getRecording, ondataavailable. emits_only_auto.
  - unfold endCall, cleanupRemoteResources, updateCallState, cleanup, sendSignal.
    emits_only_auto.
  - unfold rejectCall, updateCallState, cleanup, sendSignal.
    emits_only_auto.
Qed.

Lemma handle_notifies (env : Env) (ev : Event) (s : WebRTCService) :
  let n := count is_onCallEnded (effects_of (handle env ev s)) in
  (n <= if isCallEnded s then 0 else 1)%nat
  /\ (n = 1%nat -> isCallEnded (state_of (handle env ev s)) = true).
Proof.
  intros n. subst n.
  destruct (match ev with EvCallState _ => false | _ => true end) eqn:Hev.
  - rewrite (not_onCallEnded_count _ (handle_not_onCallEnded env ev Hev s)).
    split; [lia|discriminate].
  - destruct ev; try discriminate Hev. cbn [handle].
    destruct (onCallState_notifies env state s) as [-> ->].
    destruct (String.eqb (cs_status state) "ended"), (isCallEnded s); cbn;
      split; first [lia | reflexivity | discriminate].
Qed.

(** ** The latches over a session *)

(** X10. Between two [initializeCall]s the two latches only ever go from
    open to set and the identifiers of the session do not change, whatever
    happens - calls of the page, signals, call states, callbacks of the
    connection and of the recorder, with any answer of the browser and of
    the database; and the application's [onCallEnded] is called at most
    once, and not at all on a session whose ended latch is already set. *)
Theorem latches_one_way (env : Env) (evs : list Event) (s : WebRTCService) :
  Forall (fun ev => is_initializeCall ev = false) evs ->
  let r := run env evs s in
  (isCallEnded s = true -> isCallEnded (fst r) = true)
  /\ (isCallActive s = true -> isCallActive (fst r) = true)
  /\ callId (fst r) = callId s /\ otherUserId (fst r) = otherUserId s
  /\ userId (fst r) = userId s
  /\ (count is_onCallEnded (snd r) <= if isCallEnded s then 0 else 1)%nat.
Proof.
  intros Hevs r. subst r.
  assert (Hkept : forall evs s, Forall (fun ev => is_initializeCall ev = false) evs ->
                    latches_kept s (fst (run env evs s))).
  { intros evs' s' H'.
    apply (run_keeps env (latches_kept s') (fun ev => negb (is_initializeCall ev))).
    - intros ev Hev. apply handle_latches_kept. destruct (is_initializeCall ev); [discriminate|reflexivity].
    - eapply Forall_impl; [exact H'|]. intros ev ->. reflexivity.
    - unfold latches_kept. tauto. }
  destruct (Hkept evs s Hevs) as (H1 & H2 & H3 & H4 & H5).
  repeat (split; [assumption|]).
  clear H1 H2 H3 H4 H5.
  revert s. induction Hevs as [|ev evs Hev Hrest IH]; intros s; [cbn; destruct (isCallEnded s); lia|].
  cbn [run snd]. rewrite count_app.
  destruct (handle_notifies env ev s) as [Hle Hset].
  specialize (IH (state_of (handle env ev s))).
  pose proof (handle_latches_kept env s ev Hev s) as Hk.
  assert (Hrefl : latches_kept s s) by (unfold latches_kept; tauto).
  destruct (Hk Hrefl) as [Hended _].
  destruct (isCallEnded s).
  - rewrite Hended in IH by reflexivity. lia.
  - destruct (count is_onCallEnded (effects_of (handle env ev s))) as [|[|n]] eqn:Hn.
    + destruct (isCallEnded (state_of (handle env ev s))); lia.
    + rewrite Hset in IH by reflexivity. lia.
    + lia.
Qed.

Lemma latches_one_way_witness :
  let r := run Example.granted Example.alice_hangs_up' Example.bob_in_call in
  (isCallEnded Example.bob_in_call = true -> isCallEnded (fst r) = true)
  /\ (isCallActive Example.bob_in_call = true -> isCallActive (fst r) = true)
  /\ callId (fst r) = callId Example.bob_in_call
  /\ otherUserId (fst r) = otherUserId Example.bob_in_call
  /\ userId (fst r) = userId Example.bob_in_call
  /\ (count is_onCallEnded (snd r) <= if isCallEnded Example.bob_in_call then 0 else 1)%nat.
Proof.
  apply (latches_one_way Example.granted Example.alice_hangs_up' Example.bob_in_call).
  repeat constructor.
Defined.

(** ** The chunks of a recording *)

Lemma ondataavailable_keeps_chunks (data : option Blob) :
  keeps chunks_have_data (ondataavailable data).
Proof.
  intros s H. unfold ondataavailable, state_of, chunks_have_data in *. run_act.
  destruct (mediaRecorder s), data as [b|]; cbn; try exact H.
  destruct (0 <? blob_size b) eqn:Hb; cbn; [|exact H].
  destruct s; cbn in *. apply Forall_app. split; [exact H|].
  constructor; [lia|constructor].
Qed.

Lemma handle_keeps_chunks (env : Env) (ev : Event) : keeps chunks_have_data (handle env ev).
Proof.
  destruct ev; cbn [handle].
  - unfold initializeCall, setupPeerConnection, createOffer, pc_setLocalDescription, sendSignal.
    keeps_auto field_kept.
  - unfold acceptCall. keeps_auto field_kept.
  - unfold consume, handleSignal, pc_setRemoteDescription, pc_setLocalDescription, sendSignal.
    keeps_auto field_kept.
  - unfold ontrack, startRecording. keeps_auto field_kept.
  - unfold onicecandidate, sendSignal. keeps_auto field_kept.
  - unfold oniceconnectionstatechange, updateCallState. keeps_auto field_kept.
  - unfold onCallState, startRecording. keeps_auto field_kept.
  - apply ondataavailable_keeps_chunks.
  - unfold getRecording. keeps_auto field_kept; apply ondataavailable_keeps_chunks.
  - unfold endCall, cleanupRemoteResources, updateCallState, cleanup, sendSignal.
    keeps_auto field_kept.
  - unfold rejectCall, updateCallState, cleanup, sendSignal.
    keeps_auto field_kept.
Qed.

Lemma getRecording_outcome (final : option Blob) (s : WebRTCService) :
  outcome_of (getRecording final s)
  = Returned (recording_of (recordedChunks (state_of (getRecording final s)))).
Proof.
  destruct s as [pc ls rs ms ac cid uid oid su cu mr ch en cvd act].
  unfold getRecording, ondataavailable, outcome_of, state_of. run_act.
  destruct mr as [[str mime st]|]; [|reflexivity].
  destruct st; run_act; try reflexivity;
    (destruct final as [f|]; [destruct (0 <? blob_size f)|]; reflexivity).
Qed.

(** X11. Whatever has happened to a service since it was made - any
    sequence of calls, signals, call states and callbacks, with any answer of
    the browser and of the database - a recording that [getRecording]
    resolves to is never empty: it has a positive size, and its type is
    [video/webm] whatever type the recorder was made with. *)
Theorem recording_has_data (env : Env) (uid : string) (evs : list Event)
    (final : option Blob) (b : Blob) :
  outcome_of (getRecording final (fst (run env evs (constructor uid)))) = Returned (Some b) ->
  0 < blob_size b /\ blob_type b = "video/webm".
Proof.
  intros Hb.
  assert (Hs : chunks_have_data (fst (run env evs (constructor uid)))).
  { apply (run_keeps env chunks_have_data (fun _ => true)).
    - intros ev _. apply handle_keeps_chunks.
    - apply Forall_true. intros ev. reflexivity.
    - constructor. }
  pose proof (handle_keeps_chunks env (EvGetRecording final) _ Hs) as Hs'.
  rewrite getRecording_outcome in Hb.
  set (s' := state_of (getRecording final (fst (run env evs (constructor uid))))) in *.
  assert (Hch : chunks_have_data s').
  { subst s'. revert Hs'. cbn [handle]. unfold state_of, mbind, Act_bind, mret, Act_ret.
    destruct (getRecording final _) as [[[o|e] s2] l2]; cbn; auto. }
  unfold chunks_have_data in Hch. unfold recording_of in Hb.
  destruct (recordedChunks s') as [|c l] eqn:Hl; [discriminate|].
  injection Hb as <-. split; [|reflexivity].
  apply new_Blob_size; [exact Hch|discriminate].
Qed.

Lemma recording_has_data_witness :
  let b := mkBlob 800 "video/webm" in
  outcome_of (getRecording (Some (mkBlob 300 "video/webm;codecs=vp9"))
                (fst (run Example.granted Example.bob_joins (constructor "bob"))))
  = Returned (Some b)
  /\ 0 < blob_size b /\ blob_type b = "video/webm".
Proof.
  split; [vm_compute; reflexivity|].
  apply (recording_has_data Example.granted "bob" Example.bob_joins
           (Some (mkBlob 300 "video/webm;codecs=vp9"))).
  vm_compute. reflexivity.
Defined.

(** ** The page and the server *)

Lemma filter_ServiceDid (p : PageEffect -> bool) (l : list Effect) :
  (forall e, p (ServiceDid e) = false) -> List.filter p (map ServiceDid l) = [].
Proof.
  intros H. induction l as [|e l IH]; [reflexivity|]. cbn. rewrite H. exact IH.
Qed.

(** X12. [handleEndCall] twice is [handleEndCall] once: on the page that an
    invocation leaves, a further invocation - at any later time, with any
    answers - changes nothing and does nothing; and one invocation sends at
    most one update of the call and uploads at most one recording. *)
Theorem handleEndCall_again (env : Env) (i i' : EndInputs) (p : Page) :
  let r := handleEndCall env i p in
  let p' := fst (fst r) in
  handleEndCall env i' p' = (p', webrtcService p', [])
  /\ (length (List.filter is_patch (snd r)) <= 1)%nat
  /\ (length (List.filter is_upload (snd r)) <= 1)%nat.
Proof.
  intros r p'. subst p' r. unfold handleEndCall.
  destruct (activeCall p) as [call|] eqn:Hcall; [|cbn; rewrite Hcall; repeat split; cbn; lia].
  destruct (negb (truthy (page_userId p))) eqn:Hu;
    [cbn; rewrite Hcall, Hu; repeat split; cbn; lia|].
  destruct (isEndingCallRef p) eqn:He;
    [cbn; rewrite Hcall, Hu, He; repeat split; cbn; lia|].
  unfold save_call.
  destruct (webrtcService p) as [s|]; cbn [fst snd].
  - destruct (outcome_of (getRecording _ _)) as [[blob|]|e];
      [destruct (uploaded i) as [url|e]| |];
      (split; [reflexivity|]);
      rewrite !List.filter_app, !length_app, !filter_ServiceDid by reflexivity;
      cbn; destruct (patch_accepted i), (selectedConversationId p) as [conv|];
      try destruct (String.eqb conv ""); cbn; lia.
  - split; [reflexivity|].
    cbn; destruct (patch_accepted i), (selectedConversationId p) as [conv|];
      try destruct (String.eqb conv ""); cbn; lia.
Qed.

Lemma parse_json_of_EndCall (v : EndCall) : parse_endCall (json_of_EndCall v) = Some v.
Proof.
  destruct v as [conv cid cname rid rname ty started ended_at dur [url|] ts]; destruct ty;
    vm_compute; reflexivity.
Qed.

Lemma json_of_EndCall_ended (v : EndCall) : status_is_ended (json_of_EndCall v) = true.
Proof.
  destruct v as [conv cid cname rid rname ty started ended_at dur [url|] ts];
    vm_compute; reflexivity.
Qed.

(** X13. The update that [handleEndCall] sends always passes the server's
    validation: read back from its JSON text, the body is the record that
    was sent, the route takes the branch of ended calls, and the answer is
    200 or 503 according to the log alone, never 400. *)
Theorem end_call_body_accepted (sh : Sheets) (callId : string) (v : EndCall) :
  parse_endCall (json_of_EndCall v) = Some v
  /\ patch_call sh callId (json_of_EndCall v)
     = match logCall sh (call_of callId v) true with
       | (Thrown e, l) => (mkResponse 503 (LogFailed e), l)
       | (Returned _, l) => (mkResponse 200 (EndedOk callId (call_of callId v)), l)
       end
  /\ code (fst (patch_call sh callId (json_of_EndCall v))) <> 400.
Proof.
  assert (Hp : patch_call sh callId (json_of_EndCall v)
               = match logCall sh (call_of callId v) true with
                 | (Thrown e, l) => (mkResponse 503 (LogFailed e), l)
                 | (Returned _, l) => (mkResponse 200 (EndedOk callId (call_of callId v)), l)
                 end).
  { unfold patch_call. rewrite json_of_EndCall_ended, parse_json_of_EndCall. reflexivity. }
  split; [apply parse_json_of_EndCall|]. split; [exact Hp|].
  rewrite Hp. destruct (logCall sh (call_of callId v) true) as [[[]|e] l]; discriminate.
Qed.

(** X14. Every body that passes the schema of ended calls passes the schema
    of updates, which reads from it the status [ended], the three numbers
    and the address of the recording. *)
Theorem endCall_is_an_update (b : gmap string JValue) (v : EndCall) :
  parse_endCall b = Some v ->
  parse_updateCall b
  = Some (mkUpdateCall (Some ended) (Some (ec_startedAt v)) (Some (ec_endedAt v))
            (Some (ec_duration v)) (ec_recordingUrl v)).
Proof.
  unfold parse_endCall, parse_updateCall, get_string, get_number, get_optional_number,
    get_optional_string.
  intros H.
  pose (read := fun k : string => b !! k).
  assert (Hread : forall k, b !! k = read k) by reflexivity.
  rewrite !Hread in H. rewrite !Hread. clear Hread.
  destruct (read "conversationId") as [[| | |conv|]|]; try discriminate H.
  destruct (read "callerId") as [[| | |cid|]|]; try discriminate H.
  destruct (read "callerUsername") as [[| | |cname|]|]; try discriminate H.
  destruct (read "receiverId") as [[| | |rid|]|]; try discriminate H.
  destruct (read "receiverUsername") as [[| | |rname|]|]; try discriminate H.
  destruct (read "type") as [[| | |ty|]|]; try discriminate H.
  cbv beta iota delta [mbind option_bind] in H.
  destruct (parse_CallType ty) as [ty'|]; [|discriminate H].
  destruct (read "status") as [[| | |st|]|]; try discriminate H.
  destruct (read "startedAt") as [[| |started| |]|]; try discriminate H.
  destruct (read "endedAt") as [[| |ended_at| |]|]; try discriminate H.
  destruct (read "duration") as [[| |dur| |]|]; try discriminate H.
  destruct (read "recordingUrl") as [[| | |url|]|]; try discriminate H;
    (destruct (read "timestamp") as [[| |ts| |]|]; try discriminate H;
     cbv beta iota delta [mbind option_bind] in H;
     destruct (String.eqb_spec st "ended") as [->|]; [|discriminate H];
     injection H as <-; reflexivity).
Qed.

Lemma endCall_is_an_update_witness :
  parse_updateCall Example.ended_body
  = Some (mkUpdateCall (Some ended) (Some 1000) (Some 128000) (Some 126) None).
Proof.
  pose proof (endCall_is_an_update Example.ended_body
                (mkEndCall "conv-1" "alice" "Alice" "bob" "Bob" video 1000 128000 126 None 900)) as H.
  vm_compute in H. vm_compute. apply H. reflexivity.
Defined.

(** X15. [logCall] without [throwOnError] never throws, and does to the
    spreadsheet exactly what the throwing variant does. Either variant
    appends at most one row, of seven columns, to [Calls!A:G], and the
    throwing variant returns exactly when the row was appended. *)
Theorem logCall_lenient (sh : Sheets) (c : Call) :
  fst (logCall sh c false) = Returned tt
  /\ snd (logCall sh c false) = snd (logCall sh c true)
  /\ (fst (logCall sh c true) = Returned tt
      <-> exists caller_name receiver_name,
            getUser sh (callerId c) = Returned caller_name
            /\ getUser sh (receiverId c) = Returned receiver_name
            /\ snd (logCall sh c true)
               = [SheetsAppend "Calls!A:G" (call_row sh c caller_name receiver_name)])
  /\ (fst (logCall sh c true) <> Returned tt -> snd (logCall sh c true) = [])
  /\ (forall caller_name receiver_name,
        length (call_row sh c caller_name receiver_name) = 7%nat).
Proof.
  unfold logCall.
  destruct (configured sh); cbn [negb].
  - destruct (getUser sh (callerId c)) as [cn|e1].
    + destruct (getUser sh (receiverId c)) as [rn|e2].
      * destruct (append sh (call_row sh c cn rn)); cbn.
        -- repeat split; try reflexivity; try congruence.
           intros _. exists cn, rn. repeat split.
        -- repeat split; try reflexivity; try discriminate.
           intros (? & ? & _ & _ & H). discriminate H.
      * cbn. repeat split; try reflexivity; try discriminate.
        intros (? & ? & _ & H & _). discriminate H.
    + cbn. repeat split; try reflexivity; try discriminate.
      intros (? & ? & H & _). discriminate H.
  - cbn. repeat split; try reflexivity; try discriminate.
    intros (? & ? & _ & _ & H). discriminate H.
Qed.

(** ** The write of [active] *)

Lemma oniceconnectionstatechange_spec (env : Env) (s : WebRTCService) (pc : RTCPeerConnection)
    (st : RTCIceConnectionState) (now : Z) :
  peerConnection s = Some pc ->
  oniceconnectionstatechange env st now s
  = (Returned tt, set_iceConnectionState st s,
     Handler (onIceConnectionStateChange st)
     :: if is_connected st && negb (isCallActive s) then [active_write env s now] else []).
Proof.
  intros Hpc. unfold oniceconnectionstatechange, updateCallState, active_write, active_update,
    outcome_as.
  act_unfold. rewrite Hpc. cbv beta iota zeta.
  destruct (is_connected st), (isCallActive s); cbn; try reflexivity.
  destruct (env_updateCallState env _); reflexivity.
Qed.

Lemma onCallState_no_write (env : Env) (state : CallState) :
  emits_only (fun e => writes_call_state e = false) (onCallState env state).
Proof. unfold onCallState, startRecording. emits_only_auto. Qed.

Lemma onCallState_keeps_connection (env : Env) (state : CallState) (pc : option RTCPeerConnection)
    (call : string) :
  keeps (fun s => peerConnection s = pc /\ callId s = call) (onCallState env state).
Proof.
  unfold onCallState, startRecording.
  keeps_auto ltac:(let s := fresh in let H := fresh in intros s H; destruct s; exact H).
Qed.

Lemma onCallState_active (env : Env) (state : CallState) (s : WebRTCService) :
  cs_status state = "active" -> isCallActive (state_of (onCallState env state s)) = true.
Proof.
  intros Hst. unfold onCallState, state_of. act_unfold. rewrite Hst.
  change (String.eqb "active" "active") with true.
  change (String.eqb "active" "ended") with false. cbn [andb].
  destruct (isCallActive s) eqn:Ha; cbn [negb]; cbv beta iota zeta; cbn [fst snd];
    [exact Ha|].
  pose proof (startRecording_returns env (set_isCallActive true s)) as Hret.
  assert (Hk : keeps (fun x => isCallActive x = true) (startRecording env)).
  { unfold startRecording.
    keeps_auto ltac:(let s := fresh in let H := fresh in intros s H; destruct s; exact H). }
  specialize (Hk (set_isCallActive true s) eq_refl).
  unfold outcome_of, state_of in *.
  destruct (startRecording env (set_isCallActive true s)) as [[o s2] l2]. cbn in *. subst o.
  exact Hk.
Qed.

(** While the active latch is set, what happens in a call writes nothing
    to the call state and leaves the latch set. *)
Lemma handle_in_call_no_write (env : Env) (ev : Event) (s : WebRTCService) :
  in_call ev = true -> isCallActive s = true ->
  isCallActive (state_of (handle env ev s)) = true
  /\ List.filter writes_call_state (effects_of (handle env ev s)) = [].
Proof.
  intros Hev Ha.
  assert (simple : forall m : Act unit,
            keeps (fun x => isCallActive x = true) m ->
            emits_only (fun e => writes_call_state e = false) m ->
            isCallActive (state_of (m s)) = true
            /\ List.filter writes_call_state (effects_of (m s)) = []).
  { intros m Hk He. split; [apply Hk, Ha|apply filter_none, He]. }
  destruct ev; try discriminate Hev; cbn [handle].
  - apply simple.
    + unfold ontrack, startRecording.
      keeps_auto ltac:(let s := fresh in let H := fresh in
                       intros s H; destruct s; first [exact H|reflexivity]).
    + unfold ontrack, startRecording. emits_only_auto.
  - destruct (peerConnection s) as [pc|] eqn:Hpc.
    + rewrite (oniceconnectionstatechange_spec env s pc st now Hpc).
      unfold state_of, effects_of. cbn [fst snd]. rewrite Ha, andb_false_r.
      split; [|reflexivity].
      unfold set_iceConnectionState. rewrite Hpc. destruct s; exact Ha.
    + unfold oniceconnectionstatechange. act_unfold. rewrite Hpc.
      split; [exact Ha|reflexivity].
  - apply simple.
    + unfold onCallState, startRecording.
      keeps_auto ltac:(let s := fresh in let H := fresh in
                       intros s H; destruct s; first [exact H|reflexivity]).
    + apply onCallState_no_write.
  - apply simple.
    + unfold ondataavailable.
      keeps_auto ltac:(let s := fresh in let H := fresh in
                       intros s H; destruct s; first [exact H|reflexivity]).
    + unfold ondataavailable. emits_only_auto.
Qed.

Lemma run_in_call_no_write (env : Env) (evs : list Event) (s : WebRTCService) :
  Forall (fun ev => in_call ev = true) evs -> isCallActive s = true ->
  List.filter writes_call_state (snd (run env evs s)) = [].
Proof.
  intros Hevs. revert s. induction Hevs as [|ev evs Hev _ IH]; intros s Ha; [reflexivity|].
  destruct (handle_in_call_no_write env ev s Hev Ha) as (K1 & K2).
  cbn. now rewrite List.filter_app, K2, (IH _ K1).
Qed.

(** X16. A report of [connected] or [completed] that arrives on a session
    whose active latch is open writes [active] to the call state, with the
    clock of the report as [startedAt]. The handler of the report does not
    assign the latch: the call-state listener does when it sees [active],
    which the database client tells it of as soon as the session's own write
    is made. From then on no later report, call state, remote track or
    recorder data writes the call state: of a session's reports only the
    first writes [startedAt]. *)
Theorem active_written_once (env : Env) (s : WebRTCService) (pc : RTCPeerConnection)
    (st : RTCIceConnectionState) (now : Z) (state : CallState) (later : list Event) :
  peerConnection s = Some pc -> isCallActive s = false ->
  is_connected st = true -> cs_status state = "active" ->
  Forall (fun ev => in_call ev = true) later ->
  let report := oniceconnectionstatechange env st now s in
  isCallActive (state_of report) = isCallActive s
  /\ List.filter writes_call_state (effects_of report) = [active_write env s now]
  /\ isCallActive (state_of (onCallState env state (state_of report))) = true
  /\ List.filter writes_call_state
       (snd (run env (EvIceConnectionState st now :: EvCallState state :: later) s))
     = [active_write env s now].
Proof.
  intros Hpc Ha Hconn Hst Hlater.
  set (s1 := set_iceConnectionState st s).
  assert (Ha1 : isCallActive s1 = false)
    by (subst s1; unfold set_iceConnectionState; rewrite Hpc; destruct s; exact Ha).
  assert (Hw : writes_call_state (active_write env s now) = true)
    by (unfold active_write, outcome_as; destruct (env_updateCallState env _); reflexivity).
  assert (Hreport : oniceconnectionstatechange env st now s
                    = (Returned tt, s1,
                       [Handler (onIceConnectionStateChange st); active_write env s now])).
  { rewrite (oniceconnectionstatechange_spec env s pc st now Hpc), Hconn, Ha. reflexivity. }
  pose proof (onCallState_no_write env state s1) as Hq.
  pose proof (onCallState_active env state s1 Hst) as Ha2.
  cbn zeta. cbn [run handle snd fst]. unfold state_of, effects_of in *.
  rewrite Hreport. cbn [fst snd].
  split; [rewrite Ha; exact Ha1|]. split; [cbn; now rewrite Hw|].
  destruct (onCallState env state s1) as [[o s2] l2]. cbn [fst snd] in *.
  split; [exact Ha2|].
  cbn [app List.filter]. rewrite Hw. cbn [List.filter].
  rewrite List.filter_app, (filter_none _ l2 Hq), (run_in_call_no_write env later s2 Hlater Ha2).
  reflexivity.
Qed.

Lemma active_written_once_witness :
  let s := Example.bob_connected in
  let seen := mkCallState "active" (Some 2000) None in
  let later :=
    [EvIceConnectionState ice_completed 2400; EvCallState seen;
     EvIceConnectionState ice_connected 2900] in
  let report := oniceconnectionstatechange Example.granted ice_connected 2000 s in
  isCallActive (state_of report) = isCallActive s
  /\ List.filter writes_call_state (effects_of report) = [active_write Example.granted s 2000]
  /\ isCallActive (state_of (onCallState Example.granted seen (state_of report))) = true
  /\ List.filter writes_call_state
       (snd (run Example.granted
               (EvIceConnectionState ice_connected 2000 :: EvCallState seen :: later) s))
     = [active_write Example.granted s 2000].
Proof.
  apply (active_written_once Example.granted Example.bob_connected
           (mkPc (Some (Some "sdp-offer")) (Some (Some "sdp-answer")) ice_connected
              [Example.mic; Example.cam])
           ice_connected 2000 (mkCallState "active" (Some 2000) None));
    try reflexivity.
  repeat constructor.
Defined.


(** ** The server and the bodies the page sends *)

Lemma get_string_insert_ne (b : gmap string JValue) (k k' : string) (x : JValue) :
  k <> k' -> get_string (<[k := x]> b) k' = get_string b k'.
Proof. intros H. unfold get_string. rewrite lookup_insert_ne by exact H. reflexivity. Qed.

Lemma parse_insertCall_insert (b : gmap string JValue) (k : string) (x : JValue) :
  existsb (String.eqb k) insertCall_keys = false ->
  parse_insertCall (<[k := x]> b) = parse_insertCall b.
Proof.
  intros Hk. unfold parse_insertCall.
  rewrite !get_string_insert_ne; [reflexivity|..]; intros ->; discriminate Hk.
Qed.

Lemma parse_insertCall_with_key {A} (b : gmap string JValue) (k : string) (f : A -> JValue)
    (x : option A) :
  existsb (String.eqb k) insertCall_keys = false ->
  parse_insertCall (with_key k f x b) = parse_insertCall b.
Proof.
  intros Hk. destruct x; [|reflexivity]. apply parse_insertCall_insert, Hk.
Qed.

Lemma parse_insertCall_json (c : Call) :
  parse_insertCall (json_of_Call c)
  = Some (mkInsertCall (conversationId c) (callerId c) (callerUsername c) (receiverId c)
            (receiverUsername c) (type c) (status c)).
Proof.
  unfold json_of_Call.
  rewrite !parse_insertCall_with_key by reflexivity.
  destruct c as [i conv cid cname rid rname ty st sa ea du ru ts].
  destruct ty, st; vm_compute; reflexivity.
Qed.

(** X17. [POST /api/calls] gives the call an identifier of its own. The
    body is answered 201 or 400, whatever the spreadsheet does. No key other
    than the seven that [insertCallSchema] names - in particular not [id]
    and not [timestamp] - has any influence on the answer. So the call that
    the page posts when it dials, which carries the identifier under which
    the call state and the signals are kept, is recorded under another one:
    identifier and timestamp are the server's, status and parties the
    page's, and the optional fields are dropped. *)
Theorem post_call_makes_its_own_id (sh : Sheets) (t_id t_stamp : Z) (rnd : string) :
  (forall b, post_code (fst (post_call sh t_id t_stamp rnd b)) = 201
             \/ post_call sh t_id t_stamp rnd b = (mkPostResponse 400 InvalidCall, []))
  /\ (forall b sh', fst (post_call sh' t_id t_stamp rnd b) = fst (post_call sh t_id t_stamp rnd b))
  /\ (forall b k x,
        existsb (String.eqb k) insertCall_keys = false ->
        post_call sh t_id t_stamp rnd (<[k := x]> b) = post_call sh t_id t_stamp rnd b)
  /\ (forall c,
        let c' := mkCall (new_call_id t_id rnd) (conversationId c) (callerId c)
                    (callerUsername c) (receiverId c) (receiverUsername c) (type c) (status c)
                    None None None None t_stamp in
        post_call sh t_id t_stamp rnd (json_of_Call c)
        = (mkPostResponse 201 (CreatedCall c'), snd (logCall sh c' false))).
Proof.
  split; [|split; [|split]].
  - intros b. unfold post_call. destruct (parse_insertCall b); [left|right]; reflexivity.
  - intros b sh'. unfold post_call. destruct (parse_insertCall b); reflexivity.
  - intros b k x Hk. unfold post_call. rewrite parse_insertCall_insert by exact Hk. reflexivity.
  - intros c c'. unfold post_call. rewrite parse_insertCall_json. reflexivity.
Qed.

Lemma parse_updateCall_json (u : UpdateCall) : parse_updateCall (json_of_UpdateCall u) = Some u.
Proof.
  destruct u as [[st|] [sa|] [ea|] [du|] [ru|]]; try destruct st; vm_compute; reflexivity.
Qed.

Lemma parse_endCall_update (u : UpdateCall) : parse_endCall (json_of_UpdateCall u) = None.
Proof.
  destruct u as [[st|] [sa|] [ea|] [du|] [ru|]]; try destruct st; vm_compute; reflexivity.
Qed.

Lemma status_is_ended_update (u : UpdateCall) :
  status_is_ended (json_of_UpdateCall u)
  = match uc_status u with Some ended => true | _ => false end.
Proof.
  destruct u as [[st|] [sa|] [ea|] [du|] [ru|]]; try destruct st; vm_compute; reflexivity.
Qed.

(** X18. An update made of the fields of [updateCallSchema], as
    [handleAcceptCall] ([status: active, startedAt]) and [handleRejectCall]
    ([status: rejected, endedAt]) send it, is answered 200 with the update
    read back as it was sent, and nothing is written to the spreadsheet:
    the server keeps no trace of it. With status [ended] the same body is
    refused with 400, the fields of [endCallSchema] being required then. *)
Theorem status_update_leaves_no_trace (sh : Sheets) (callId : string) (u : UpdateCall) :
  patch_call sh callId (json_of_UpdateCall u)
  = match uc_status u with
    | Some ended => (mkResponse 400 InvalidUpdate, [])
    | _ => (mkResponse 200 (UpdatedOk callId u), [])
    end.
Proof.
  unfold patch_call.
  rewrite status_is_ended_update, parse_endCall_update, parse_updateCall_json.
  destruct (uc_status u) as [[]|]; reflexivity.
Qed.

(** ** Dialling *)

Lemma initializeCall_no_write (env : Env) call other a v init t_sig t_key :
  emits_only (fun e => writes_call_state e = false)
    (initializeCall env call other a v init t_sig t_key).
Proof.
  unfold initializeCall, setupPeerConnection, createOffer, pc_setLocalDescription, sendSignal.
  emits_only_auto.
Qed.

Lemma apply_effect_callStates (db : Database) (e : Effect) :
  writes_call_state e = false -> callStates (apply_effect db e) = callStates db.
Proof. destruct e; try discriminate; reflexivity. Qed.

Lemma apply_dial_service (l : list Effect) : forall rt,
  Forall (fun e => writes_call_state e = false) l ->
  incomingCalls (foldl apply_dial rt (map DialService l)) = incomingCalls rt
  /\ callStates (rt_database (foldl apply_dial rt (map DialService l)))
     = callStates (rt_database rt).
Proof.
  induction l as [|e l IH]; intros rt Hl; [split; reflexivity|].
  inversion Hl as [|? ? He Hrest]; subst. cbn [map foldl].
  destruct (IH (apply_dial rt (DialService e)) Hrest) as [-> ->].
  cbn. split; [reflexivity|]. apply apply_effect_callStates, He.
Qed.

Lemma filter_DialService (l : list Effect) :
  Forall (fun e => writes_call_state e = false) l ->
  List.filter is_withdrawal (map DialService l) = [].
Proof.
  induction 1 as [|e l He _ IH]; [reflexivity|]. cbn. rewrite He. exact IH.
Qed.

(** X19. A call that fails while the service is being set up - the user
    refuses the microphone, the offer cannot be made or sent - is left
    ringing. By then [handleStartCall] has written the call state [ringing]
    and the entry of the incoming call for the other user; it removes
    neither, writes nothing more to the call state and posts nothing; the
    page is as it was, without call and without service. The other user's
    page, told of the entry, shows the call as incoming, and the call state
    it watches gives it no reason to withdraw it. *)
Theorem failed_dial_keeps_ringing (env : Env) (i : DialInputs) (ty : CallType)
    (other_id other_name username conv uid e : string) (p : Page) (rt : Realtime) :
  selectedConversationId p = Some conv -> page_userId p = Some uid ->
  conv <> "" -> uid <> "" -> username <> "" -> other_id <> "" ->
  activeCall p = None ->
  d_initializeCallState i = true -> d_sendIncomingCall i = true ->
  let call := mkCall (new_call_id (d_t_id i) (d_rnd i)) conv uid username other_id other_name ty
                ringing None None None None (d_t_stamp i) in
  outcome_of (initializeCall env (id call) other_id true (is_video_call ty) true (d_t_sig i)
                (d_t_key i) (constructor uid)) = Thrown e ->
  let r := handleStartCall env i ty (Some (other_id, other_name)) username p in
  let rt' := foldl apply_dial rt (snd r) in
  fst (fst r) = p
  /\ incomingCalls rt' !! (other_id, id call) = Some call
  /\ (st_status <$> callStates (rt_database rt') !! id call) = Some (Some "ringing")
  /\ List.filter is_withdrawal (snd r) = []
  /\ Forall (fun e => match e with PostCall _ => False | _ => True end) (snd r)
  /\ incomingCall (on_incoming_calls [call] (mkCalleePage (Some other_id) None)) = Some call
  /\ on_incoming_call_state (Some (mkCallState "ringing" None None))
       (mkCalleePage (Some other_id) (Some call))
     = (mkCalleePage (Some other_id) (Some call), []).
Proof.
  intros Hconv Huid Nconv Nuid Nname Nother Hcall Hinit Hsend call Hthrown r rt'.
  assert (Hr : r = (p, Some (state_of (initializeCall env (id call) other_id true
                                         (is_video_call ty) true (d_t_sig i) (d_t_key i)
                                         (constructor uid))),
                    [WriteCallState call; WriteIncomingCall call]
                    ++ map DialService
                         (effects_of (initializeCall env (id call) other_id true
                                        (is_video_call ty) true (d_t_sig i) (d_t_key i)
                                        (constructor uid)))
                    ++ [Toast "Call Error" e; Toast "Call Failed" e])).
  { subst r. unfold handleStartCall. rewrite Hconv, Huid.
    apply String.eqb_neq in Nconv, Nuid, Nname. rewrite Nconv, Nuid, Nname, Hinit, Hsend.
    cbn [orb negb]. fold call. rewrite Hthrown.
    unfold handleEndCall. rewrite Hcall. cbn [fst snd map app]. reflexivity. }
  pose proof (initializeCall_no_write env (id call) other_id true (is_video_call ty) true
                (d_t_sig i) (d_t_key i) (constructor uid)) as Hq.
  subst rt'. rewrite Hr. cbn [fst snd].
  set (l := effects_of _) in *.
  split; [reflexivity|].
  rewrite !foldl_app. cbn [foldl].
  set (rt1 := apply_dial (apply_dial rt (WriteCallState call)) (WriteIncomingCall call)).
  destruct (apply_dial_service l rt1 Hq) as [Hin Hcs].
  split; [|split; [|split; [|split; [|split]]]].
  - cbn [apply_dial incomingCalls]. rewrite Hin. subst rt1. cbn. apply lookup_insert_eq.
  - cbn [apply_dial rt_database]. rewrite Hcs. subst rt1. cbn.
    rewrite lookup_insert_eq. reflexivity.
  - cbn [app]. cbn [List.filter is_withdrawal]. rewrite List.filter_app, filter_DialService by exact Hq.
    reflexivity.
  - cbn [app]. repeat constructor. apply Forall_app. split; [|repeat constructor].
    clear. induction l; constructor; [exact I|assumption].
  - unfold on_incoming_calls. cbn [callee_userId].
    apply String.eqb_neq in Nother. rewrite Nother. cbn [foldl].
    unfold is_ringing. cbn [status call receiverId]. rewrite String.eqb_refl. reflexivity.
  - reflexivity.
Qed.

Lemma failed_dial_keeps_ringing_witness :
  let r := handleStartCall Scenario.media_refused Scenario.dialling video (Some ("bob", "Bob"))
             "Alice" Scenario.alice_page in
  let rt' := foldl apply_dial Scenario.nothing_stored (snd r) in
  fst (fst r) = Scenario.alice_page
  /\ incomingCalls rt' !! ("bob", id Scenario.alice_calls_bob) = Some Scenario.alice_calls_bob
  /\ (st_status <$> callStates (rt_database rt') !! id Scenario.alice_calls_bob)
     = Some (Some "ringing")
  /\ List.filter is_withdrawal (snd r) = []
  /\ Forall (fun e => match e with PostCall _ => False | _ => True end) (snd r)
  /\ incomingCall (on_incoming_calls [Scenario.alice_calls_bob] (mkCalleePage (Some "bob") None))
     = Some Scenario.alice_calls_bob
  /\ on_incoming_call_state (Some (mkCallState "ringing" None None)) Scenario.bob_rung
     = (Scenario.bob_rung, []).
Proof.
  apply (failed_dial_keeps_ringing Scenario.media_refused Scenario.dialling video "bob" "Bob"
           "Alice" "conv-1" "alice" "getUserMedia failed" Scenario.alice_page
           Scenario.nothing_stored);
    first [reflexivity | discriminate].
Defined.

Lemma status_update_leaves_no_trace_body (sh : Sheets) (callId : string) (now : Z) :
  patch_call sh callId (json_of_UpdateCall (rejected_update now))
  = (mkResponse 200 (UpdatedOk callId (rejected_update now)), []).
Proof.
  unfold patch_call.
  rewrite status_is_ended_update, parse_updateCall_json. reflexivity.
Qed.

(** X20. Rejecting an incoming call is not told to the caller.
    [handleRejectCall] removes the callee's own entry of the incoming call
    and sends an update with status [rejected]; it touches neither the call
    state nor a mailbox, and the server answers the update with 200 and
    keeps nothing of it. The call state that the caller's service watches
    stays as it was. When the removal fails nothing is sent, and when the
    update fails the page still shows the call. *)
Theorem reject_is_not_signalled (p : CalleePage) (c : Call) (uid : string) (now : Z)
    (rt : Realtime) (sh : Sheets) :
  incomingCall p = Some c -> callee_userId p = Some uid -> uid <> "" ->
  let r := handleRejectCall true true now p in
  let rt' := foldl apply_dial rt (snd r) in
  snd r = [RemoveIncomingCall uid (id c); PatchStatus (id c) (rejected_update now)]
  /\ incomingCall (fst r) = None
  /\ rt_database rt' = rt_database rt
  /\ incomingCalls rt' = delete (uid, id c) (incomingCalls rt)
  /\ patch_call sh (id c) (json_of_UpdateCall (rejected_update now))
     = (mkResponse 200 (UpdatedOk (id c) (rejected_update now)), [])
  /\ handleRejectCall false true now p = (p, [Failed (RemoveIncomingCall uid (id c))])
  /\ fst (handleRejectCall true false now p) = p.
Proof.
  intros Hc Hu Nuid r rt'. subst rt' r. unfold handleRejectCall.
  rewrite Hc, Hu. apply String.eqb_neq in Nuid. rewrite Nuid. cbn [negb fst snd foldl].
  split; [reflexivity|]. split; [reflexivity|]. split; [reflexivity|].
  split; [reflexivity|].
  split; [apply (status_update_leaves_no_trace_body sh (id c) now)|].
  split; reflexivity.
Qed.

Lemma reject_is_not_signalled_witness :
  let p := Scenario.bob_rung in
  let c := Scenario.alice_calls_bob in
  let rt := mkRealtime (db_initializeCallState (id c) (mkDb ∅ ∅)) {[ ("bob", id c) := c ]} in
  let r := handleRejectCall true true 1700000004000 p in
  let rt' := foldl apply_dial rt (snd r) in
  snd r = [RemoveIncomingCall "bob" (id c); PatchStatus (id c) (rejected_update 1700000004000)]
  /\ incomingCall (fst r) = None
  /\ rt_database rt' = rt_database rt
  /\ incomingCalls rt' = delete ("bob", id c) (incomingCalls rt)
  /\ patch_call Example.sheets_down (id c) (json_of_UpdateCall (rejected_update 1700000004000))
     = (mkResponse 200 (UpdatedOk (id c) (rejected_update 1700000004000)), [])
  /\ handleRejectCall false true 1700000004000 p = (p, [Failed (RemoveIncomingCall "bob" (id c))])
  /\ fst (handleRejectCall true false 1700000004000 p) = p.
Proof.
  apply (reject_is_not_signalled Scenario.bob_rung Scenario.alice_calls_bob "bob" 1700000004000);
    first [reflexivity | discriminate].
Defined.

(** ** Hanging up before the call is taken *)

(** X21. A caller who hangs up withdraws the call from the callee's page.
    When [endCall] finds the latch open and its write of [ended] goes
    through, the stored call state has status [ended]; the callee's page,
    which watches the call state of the call it shows as incoming, then
    drops the call and removes its entry. It does the same when it comes to
    look only after the timer of [cleanupRemoteResources] has removed the
    call state. *)
Theorem hangup_withdraws_incoming (env : Env) (s : WebRTCService) (t_sig t_key t_end : Z)
    (db : Database) (q : CalleePage) (c : Call) (uid : string) :
  isCallEnded s = false ->
  env_updateCallState env (ended_update t_end) = true ->
  incomingCall q = Some c -> id c = callId s -> callee_userId q = Some uid -> uid <> "" ->
  let db1 := apply_effects (effects_of (endCall env t_sig t_key t_end s)) db in
  let db2 := db_removeCallState (callId s) db1 in
  (cs_status <$> read_call_state db1 (id c)) = Some "ended"
  /\ read_call_state db2 (id c) = None
  /\ on_incoming_call_state (read_call_state db1 (id c)) q
     = (mkCalleePage (Some uid) None, [RemoveIncomingCall uid (id c)])
  /\ on_incoming_call_state (read_call_state db2 (id c)) q
     = (mkCalleePage (Some uid) None, [RemoveIncomingCall uid (id c)]).
Proof.
  intros Hopen Hupd Hc Hid Hu Nuid db1 db2.
  assert (H1 : exists st, callStates db1 !! callId s = Some st /\ st_status st = Some "ended").
  { subst db1. rewrite (endCall_open env s t_sig t_key t_end Hopen). unfold effects_of.
    cbn [snd]. unfold apply_effects. rewrite !foldl_app.
    unfold remote_effects. rewrite Hupd. cbn [outcome_as foldl apply_effect].
    set (db0 := apply_effect _ _).
    eexists. split; [cbn; apply lookup_insert_eq|reflexivity]. }
  destruct H1 as (st & Hst & Hended).
  assert (R1 : read_call_state db1 (id c)
               = Some (mkCallState "ended" (st_startedAt st) (st_endedAt st))).
  { rewrite Hid. unfold read_call_state. rewrite Hst. cbn. rewrite Hended. reflexivity. }
  assert (R2 : read_call_state db2 (id c) = None).
  { rewrite Hid. subst db2. unfold read_call_state, db_removeCallState. cbn.
    rewrite lookup_delete_eq. reflexivity. }
  rewrite R1, R2. unfold on_incoming_call_state. rewrite Hc, Hu.
  apply String.eqb_neq in Nuid. rewrite Nuid. repeat split.
Qed.

Lemma hangup_withdraws_incoming_witness :
  let s := Example.alice_dialling in
  let q := mkCalleePage (Some "bob") (Some Example.ringing_call) in
  let db1 := apply_effects (effects_of (endCall Example.granted 700 701 702 s))
               Example.empty_database in
  let db2 := db_removeCallState (callId s) db1 in
  (cs_status <$> read_call_state db1 (id Example.ringing_call)) = Some "ended"
  /\ read_call_state db2 (id Example.ringing_call) = None
  /\ on_incoming_call_state (read_call_state db1 (id Example.ringing_call)) q
     = (mkCalleePage (Some "bob") None, [RemoveIncomingCall "bob" (id Example.ringing_call)])
  /\ on_incoming_call_state (read_call_state db2 (id Example.ringing_call)) q
     = (mkCalleePage (Some "bob") None, [RemoveIncomingCall "bob" (id Example.ringing_call)]).
Proof.
  apply (hangup_withdraws_incoming Example.granted Example.alice_dialling 700 701 702
           Example.empty_database (mkCalleePage (Some "bob") (Some Example.ringing_call))
           Example.ringing_call "bob");
    first [reflexivity | discriminate].
Defined.


(** ** The camera *)

(** X22. [flipCamera] asks for the next camera before it has looked for the
    track to replace. In a call whose local stream has no video track, and
    when the connection refuses the new track, the camera and the microphone
    that were just opened are left running: the service is unchanged, one
    stream was asked for, no track is stopped, and the new tracks are kept
    nowhere. *)
Theorem flipCamera_leaves_camera_open (cenv : CameraEnv) (s : WebRTCService)
    (local : MediaStream) (pc : RTCPeerConnection) (devices : list MediaDeviceInfo)
    (next : MediaDeviceInfo) (v : MediaStreamTrack) (auds : list MediaStreamTrack) :
  localStream s = Some local -> peerConnection s = Some pc ->
  cam_enumerateDevices cenv = Some devices ->
  let videoDevices := List.filter is_videoinput devices in
  videoDevices !! Z.to_nat (next_camera (currentVideoDevice s) videoDevices) = Some next ->
  (2 <= length videoDevices)%nat ->
  cam_getUserMedia cenv (deviceId next) = Some (v, auds) ->
  (getVideoTracks local = [] \/
   exists old rest, getVideoTracks local = old :: rest
                    /\ existsb (fun t => same_track t old) (senders pc) = true
                    /\ cam_replaceTrack cenv old v = false) ->
  let r := flipCamera cenv s in
  fst r = s
  /\ List.filter is_GetCamera (snd r) = [GetCamera (deviceId next)]
  /\ List.filter is_StopTrack (snd r) = [].
Proof.
  intros Hl Hpc Hdev videoDevices Hnext Hlen Hcam Hcase r. subst r.
  unfold flipCamera. rewrite Hl, Hpc, Hdev. fold videoDevices.
  assert (Hlt : (length videoDevices <? 2)%nat = false) by (apply Nat.ltb_ge; exact Hlen).
  rewrite Hlt, Hnext, Hcam.
  destruct Hcase as [Hnone|(old & rest & Hold & Hsender & Hrefused)].
  - rewrite Hnone. repeat split.
  - rewrite Hold, Hsender, Hrefused. repeat split.
Qed.

Lemma flipCamera_leaves_camera_open_witness :
  let r := flipCamera Devices.phone Devices.bob_voice_only in
  fst r = Devices.bob_voice_only
  /\ List.filter is_GetCamera (snd r) = [GetCamera (deviceId Devices.front)]
  /\ List.filter is_StopTrack (snd r) = [].
Proof.
  apply (flipCamera_leaves_camera_open Devices.phone Devices.bob_voice_only [Example.mic]
           (mkPc None None ice_new [Example.mic])
           [Devices.front; Devices.microphone; Devices.back] Devices.front Devices.front_track
           [Devices.second_mic]);
    first [reflexivity | (cbn; lia) | (left; reflexivity)].
Defined.

Lemma filter_map_StopTrack (tracks : list MediaStreamTrack) :
  List.filter is_StopTrack (map StopTrack tracks) = map StopTrack tracks.
Proof. induction tracks as [|t l IH]; [reflexivity|]. cbn. rewrite IH. reflexivity. Qed.

Lemma remove_track_audio (old : MediaStreamTrack) (local : MediaStream) :
  is_video old = true ->
  (forall t, In t local -> same_track t old = true -> is_video t = true) ->
  getAudioTracks (remove_track old local) = getAudioTracks local.
Proof.
  intros Hold Hids. unfold getAudioTracks, remove_track.
  induction local as [|t l IH]; [reflexivity|]. cbn.
  assert (IH' : List.filter is_audio (List.filter (fun u => negb (same_track u old)) l)
                = List.filter is_audio l)
    by (apply IH; intros u Hu; apply Hids; right; exact Hu).
  destruct (same_track t old) eqn:Hsame; cbn.
  - assert (Hv : is_video t = true) by (apply Hids; [left; reflexivity|exact Hsame]).
    unfold is_video in Hv. destruct (is_audio t); [discriminate|]. exact IH'.
  - destruct (is_audio t); [f_equal|]; exact IH'.
Qed.

(** X23. A switch that goes through. With two cameras or more, the next
    one granted, the first local video track sent by a sender of the
    connection and the connection accepting the new track: that sender sends
    the new track, the old track is stopped, it leaves the local stream and
    the new one joins it at the end, the audio tracks that came with the new
    camera are stopped, and the device of the new camera becomes the current
    one; the local audio tracks are the same as before. The recorder is not
    told: recorder, recorded stream and chunks are what they were, so a
    recording that was started on this local stream goes on with the camera
    track that has just been stopped. *)
Theorem flipCamera_switches (cenv : CameraEnv) (s : WebRTCService)
    (local : MediaStream) (pc : RTCPeerConnection) (devices : list MediaDeviceInfo)
    (next : MediaDeviceInfo) (old v : MediaStreamTrack) (rest auds : list MediaStreamTrack) :
  localStream s = Some local -> peerConnection s = Some pc ->
  cam_enumerateDevices cenv = Some devices ->
  let videoDevices := List.filter is_videoinput devices in
  videoDevices !! Z.to_nat (next_camera (currentVideoDevice s) videoDevices) = Some next ->
  (2 <= length videoDevices)%nat ->
  cam_getUserMedia cenv (deviceId next) = Some (v, auds) ->
  getVideoTracks local = old :: rest ->
  existsb (fun t => same_track t old) (senders pc) = true ->
  cam_replaceTrack cenv old v = true ->
  (forall t, In t local -> same_track t old = true -> is_video t = true) ->
  let r := flipCamera cenv s in
  snd r = [EnumerateDevices; GetCamera (deviceId next); ReplaceTrack old v; StopTrack old]
          ++ map StopTrack auds
  /\ currentVideoDevice (fst r) = Some (deviceId next)
  /\ localStream (fst r) = Some (add_track v (remove_track old local))
  /\ getAudioTracks (remove_track old local) = getAudioTracks local
  /\ (senders <$> peerConnection (fst r)) = Some (replace_first old v (senders pc))
  /\ mediaRecorder (fst r) = mediaRecorder s
  /\ mixedStream (fst r) = mixedStream s
  /\ recordedChunks (fst r) = recordedChunks s
  /\ In old (capture_stream local)
  /\ List.filter is_StopTrack (snd r) = StopTrack old :: map StopTrack auds.
Proof.
  intros Hl Hpc Hdev videoDevices Hnext Hlen Hcam Hold Hsender Hok Hids r. subst r.
  unfold flipCamera. rewrite Hl, Hpc, Hdev. fold videoDevices.
  assert (Hlt : (length videoDevices <? 2)%nat = false) by (apply Nat.ltb_ge; exact Hlen).
  rewrite Hlt, Hnext, Hcam, Hold, Hsender, Hok. cbn [fst snd].
  assert (Hv : is_video old = true).
  { assert (Hin : In old (getVideoTracks local)) by (rewrite Hold; left; reflexivity).
    unfold getVideoTracks in Hin. apply List.filter_In in Hin. apply Hin. }
  split; [reflexivity|].
  split; [destruct s; reflexivity|].
  split; [destruct s; reflexivity|].
  split; [apply remove_track_audio; assumption|].
  split; [destruct s; reflexivity|].
  split; [destruct s; reflexivity|].
  split; [destruct s; reflexivity|].
  split; [destruct s; reflexivity|].
  split.
  - unfold capture_stream. rewrite Hold. right. left. reflexivity.
  - cbn [app List.filter is_StopTrack]. rewrite filter_map_StopTrack. reflexivity.
Qed.

Lemma flipCamera_switches_witness :
  let s := Example.bob_in_call in
  let r := flipCamera Devices.phone s in
  snd r = [EnumerateDevices; GetCamera "cam-back"; ReplaceTrack Example.cam Devices.back_track;
           StopTrack Example.cam] ++ map StopTrack [Devices.second_mic]
  /\ currentVideoDevice (fst r) = Some "cam-back"
  /\ localStream (fst r)
     = Some (add_track Devices.back_track (remove_track Example.cam [Example.mic; Example.cam]))
  /\ getAudioTracks (remove_track Example.cam [Example.mic; Example.cam])
     = getAudioTracks [Example.mic; Example.cam]
  /\ (senders <$> peerConnection (fst r))
     = Some (replace_first Example.cam Devices.back_track [Example.mic; Example.cam])
  /\ mediaRecorder (fst r) = mediaRecorder s
  /\ mixedStream (fst r) = mixedStream s
  /\ recordedChunks (fst r) = recordedChunks s
  /\ In Example.cam (capture_stream [Example.mic; Example.cam])
  /\ List.filter is_StopTrack (snd r)
     = StopTrack Example.cam :: map StopTrack [Devices.second_mic].
Proof.
  apply (flipCamera_switches Devices.phone Example.bob_in_call [Example.mic; Example.cam]
           (mkPc (Some (Some "sdp-offer")) (Some (Some "sdp-answer")) ice_connected
              [Example.mic; Example.cam])
           [Devices.front; Devices.microphone; Devices.back] Devices.back Example.cam
           Devices.back_track [] [Devices.second_mic]);
    first [reflexivity | (cbn; lia)
          | (intros t [<-|[<-|[]]]; [discriminate|reflexivity])].
Defined.

Lemma findIndex_at (vds : list MediaDeviceInfo) : forall (i : nat) (d : MediaDeviceInfo),
  NoDup (deviceId <$> vds) -> vds !! i = Some d ->
  findIndex (is_current (Some (deviceId d))) vds = Z.of_nat i.
Proof.
  induction vds as [|x l IH]; intros i d Hnd Hi; [discriminate|].
  inversion Hnd as [|? ? Hx Hrest]; subst. cbn [findIndex is_current].
  destruct i as [|i].
  - injection Hi as ->. rewrite String.eqb_refl. reflexivity.
  - cbn in Hi.
    destruct (String.eqb_spec (deviceId x) (deviceId d)) as [Heq|_].
    + exfalso. apply Hx. rewrite Heq. apply list_elem_of_fmap_2.
      eapply list_elem_of_lookup_2. exact Hi.
    + specialize (IH i d Hrest Hi). cbn [is_current] in IH. rewrite IH.
      destruct (Z.ltb_spec (Z.of_nat i) 0); lia.
Qed.

Lemma camera_after_at (vds : list MediaDeviceInfo) (i : nat) (d : MediaDeviceInfo) :
  NoDup (deviceId <$> vds) -> vds !! i = Some d ->
  exists d', vds !! ((i + 1) `mod` length vds)%nat = Some d'
             /\ camera_after vds (deviceId d) = deviceId d'.
Proof.
  intros Hnd Hi. unfold camera_after, next_camera.
  rewrite (findIndex_at vds i d Hnd Hi).
  assert (Hlen : (i < length vds)%nat) by (eapply lookup_lt_Some; exact Hi).
  replace (Z.to_nat ((Z.of_nat i + 1) `mod` Z.of_nat (length vds)))
    with ((i + 1) `mod` length vds)%nat
    by (rewrite <- (Nat2Z.id ((i + 1) `mod` length vds)); f_equal;
        rewrite Nat2Z.inj_mod; f_equal; lia).
  destruct (lookup_lt_is_Some_2 vds ((i + 1) `mod` length vds)%nat) as [d' Hd'].
  { apply Nat.mod_upper_bound. lia. }
  exists d'. rewrite Hd'. split; reflexivity.
Qed.

(** X24. The cameras are taken in turn. With the video inputs listed under
    distinct identifiers, the camera that [flipCamera] moves to from the
    one at position [i] is the one at position [i + 1], and the first one
    after the last; so [k] switches lead from position [i] to position
    [(i + k) mod n], and as many switches as there are cameras lead back to
    the camera one started from. A current device that is not in the list,
    or none, is followed by the first camera. *)
Theorem cameras_in_turn (vds : list MediaDeviceInfo) (i k : nat) (d : MediaDeviceInfo) :
  NoDup (deviceId <$> vds) -> vds !! i = Some d ->
  (exists d', vds !! ((i + k) `mod` length vds)%nat = Some d'
              /\ Nat.iter k (camera_after vds) (deviceId d) = deviceId d')
  /\ Nat.iter (length vds) (camera_after vds) (deviceId d) = deviceId d
  /\ next_camera None vds = 0
  /\ (forall c, c ∉ deviceId <$> vds -> next_camera (Some c) vds = 0).
Proof.
  intros Hnd Hi.
  assert (Hlen : (i < length vds)%nat) by (eapply lookup_lt_Some; exact Hi).
  assert (Hiter : forall k, exists d', vds !! ((i + k) `mod` length vds)%nat = Some d'
                      /\ Nat.iter k (camera_after vds) (deviceId d) = deviceId d').
  { clear k. induction k as [|k (d' & Hd' & IH)].
    - exists d. rewrite Nat.add_0_r, Nat.mod_small by exact Hlen. split; [exact Hi|reflexivity].
    - rewrite Nat.iter_succ, IH.
      destruct (camera_after_at vds _ d' Hnd Hd') as (d'' & Hd'' & Hafter).
      exists d''. split; [|exact Hafter].
      rewrite <- Hd''. f_equal.
      rewrite Nat.Div0.add_mod_idemp_l. f_equal. lia. }
  split; [apply Hiter|]. split; [|split].
  - destruct (Hiter (length vds)) as (d' & Hd' & ->).
    replace ((i + length vds) `mod` length vds)%nat with i in Hd'.
    + rewrite Hi in Hd'. injection Hd' as <-. reflexivity.
    + rewrite <- (Nat.mul_1_l (length vds)) at 1.
      rewrite Nat.Div0.mod_add. symmetry. apply Nat.mod_small, Hlen.
  - unfold next_camera.
    assert (H : findIndex (is_current None) vds = -1).
    { clear. induction vds as [|x l IH]; [reflexivity|]. cbn [findIndex is_current].
      rewrite IH. reflexivity. }
    rewrite H. apply Z.mod_0_l. lia.
  - intros c Hc. unfold next_camera.
    assert (H : findIndex (is_current (Some c)) vds = -1).
    { clear - Hc. induction vds as [|x l IH]; [reflexivity|]. cbn [findIndex is_current].
      destruct (String.eqb_spec (deviceId x) c) as [<-|_].
      - exfalso. apply Hc. cbn. apply elem_of_cons. left. reflexivity.
      - rewrite IH; [reflexivity|]. intros Hin. apply Hc. cbn. apply elem_of_cons. right.
        exact Hin. }
    rewrite H. apply Z.mod_0_l. lia.
Qed.

Lemma cameras_in_turn_witness :
  let vds := [Devices.front; Devices.back] in
  (exists d', vds !! ((0 + 3) `mod` length vds)%nat = Some d'
              /\ Nat.iter 3 (camera_after vds) (deviceId Devices.front) = deviceId d')
  /\ Nat.iter (length vds) (camera_after vds) (deviceId Devices.front) = deviceId Devices.front
  /\ next_camera None vds = 0
  /\ (forall c, c ∉ deviceId <$> vds -> next_camera (Some c) vds = 0).
Proof.
  apply (cameras_in_turn [Devices.front; Devices.back] 0 3 Devices.front).
  - cbn. constructor; [|constructor; [apply not_elem_of_nil|constructor]].
    apply not_elem_of_cons. split; [discriminate|apply not_elem_of_nil].
  - reflexivity.
Defined.


(** ** Messages *)

Lemma insert_by_timestamp_perm (m : Message) (l : list Message) :
  insert_by_timestamp m l ≡ₚ m :: l.
Proof.
  induction l as [|x l IH]; [reflexivity|]. cbn.
  destruct (msg_timestamp m <=? msg_timestamp x); [reflexivity|].
  rewrite IH. apply Permutation_swap.
Qed.

Lemma sort_by_timestamp_perm (l : list Message) : sort_by_timestamp l ≡ₚ l.
Proof.
  induction l as [|m l IH]; [reflexivity|]. cbn.
  rewrite insert_by_timestamp_perm, IH. reflexivity.
Qed.

Lemma insert_by_timestamp_sorted (m : Message) (l : list Message) :
  Sorted (fun a b => msg_timestamp a <= msg_timestamp b) l ->
  Sorted (fun a b => msg_timestamp a <= msg_timestamp b) (insert_by_timestamp m l).
Proof.
  induction 1 as [|x l Hl IH Hx]; [repeat constructor|]. cbn.
  destruct (Z.leb_spec (msg_timestamp m) (msg_timestamp x)) as [Hle|Hgt].
  - constructor; [constructor; assumption|constructor; exact Hle].
  - constructor; [exact IH|].
    destruct l as [|y l']; cbn.
    + constructor. lia.
    + destruct (msg_timestamp m <=? msg_timestamp y); constructor; [lia|].
      inversion Hx; assumption.
Qed.

Lemma insert_by_timestamp_stable (t : Z) (m : Message) (l : list Message) :
  Sorted (fun a b => msg_timestamp a <= msg_timestamp b) l ->
  List.filter (fun x => msg_timestamp x =? t) (insert_by_timestamp m l)
  = List.filter (fun x => msg_timestamp x =? t) (m :: l).
Proof.
  intros Hs. apply Sorted_StronglySorted in Hs; [|intros a b c; lia].
  induction Hs as [|x l Hl IH Hx]; [reflexivity|]. cbn [insert_by_timestamp].
  destruct (Z.leb_spec (msg_timestamp m) (msg_timestamp x)) as [Hle|Hgt]; [reflexivity|].
  cbn [List.filter] in *. rewrite IH.
  destruct (Z.eqb_spec (msg_timestamp m) t) as [Hm|_]; [|reflexivity].
  destruct (Z.eqb_spec (msg_timestamp x) t) as [Hx'|_]; [lia|reflexivity].
Qed.

Lemma sort_by_timestamp_sorted (l : list Message) :
  Sorted (fun a b => msg_timestamp a <= msg_timestamp b) (sort_by_timestamp l).
Proof.
  induction l as [|m l IH]; [constructor|]. cbn. apply insert_by_timestamp_sorted, IH.
Qed.

Lemma sort_by_timestamp_stable (t : Z) (l : list Message) :
  List.filter (fun x => msg_timestamp x =? t) (sort_by_timestamp l)
  = List.filter (fun x => msg_timestamp x =? t) l.
Proof.
  induction l as [|m l IH]; [reflexivity|]. cbn [sort_by_timestamp foldr].
  rewrite insert_by_timestamp_stable by apply sort_by_timestamp_sorted.
  cbn [List.filter]. fold (sort_by_timestamp l). rewrite IH. reflexivity.
Qed.

(** X25. What the listener of a conversation hands to the page: one
    message for every child of the snapshot that is an object, under the
    key of the child; in the order of their timestamps; and, among messages
    of one timestamp, in the order of the snapshot. A child without
    timestamp is given the clock of the moment the snapshot is read, and a
    child without text the empty text. *)
Theorem messages_in_timestamp_order (now : Z) (children : list (string * option MessageData)) :
  let read := omap (fun kv => to_message now kv.1 <$> kv.2) children in
  let shown := on_messages now children in
  Sorted (fun a b => msg_timestamp a <= msg_timestamp b) shown
  /\ shown ≡ₚ read
  /\ (forall t, List.filter (fun m => msg_timestamp m =? t) shown
                = List.filter (fun m => msg_timestamp m =? t) read)
  /\ (forall m, m ∈ shown <->
                exists k d, (k, Some d) ∈ children /\ m = to_message now k d)
  /\ (forall k d, data_timestamp d = None -> msg_timestamp (to_message now k d) = now)
  /\ (forall k d, data_text d = None -> text (to_message now k d) = "").
Proof.
  intros read shown. subst shown. unfold on_messages. fold read.
  split; [apply sort_by_timestamp_sorted|].
  split; [apply sort_by_timestamp_perm|].
  split; [intros t; apply sort_by_timestamp_stable|].
  split; [|split].
  - intros m. rewrite sort_by_timestamp_perm. subst read. rewrite list_elem_of_omap.
    split.
    + intros ([k [d|]] & Hin & Hm); cbn in Hm; [|discriminate].
      injection Hm as <-. exists k, d. split; [exact Hin|reflexivity].
    + intros (k & d & Hin & ->). exists (k, Some d). split; [exact Hin|reflexivity].
  - intros k d Hd. unfold to_message. cbn. rewrite Hd. reflexivity.
  - intros k d Hd. unfold to_message. cbn. rewrite Hd. reflexivity.
Qed.

Lemma is_unread_to_message (userId : string) (t t' : Z) (k k' : string) (d : MessageData) :
  is_unread userId (to_message t k d) = is_unread userId (to_message t' k' d).
Proof. reflexivity. Qed.

Lemma mark_shown_as_read_unfold (granted : string -> bool) (conv uid : string) (now : Z)
    (messages : list Message) :
  conv <> "" -> uid <> "" ->
  mark_shown_as_read granted (Some conv) (Some uid) now messages
  = markConversationMessagesAsRead granted conv uid now (List.filter (is_unread uid) messages).
Proof.
  intros Nc Nu. unfold mark_shown_as_read.
  apply String.eqb_neq in Nc, Nu. rewrite Nc, Nu. cbn [orb].
  destruct (List.filter (is_unread uid) messages); reflexivity.
Qed.

Lemma mark_effects (conv uid : string) (now : Z) (U : list Message) (e : MessageEffect) :
  e ∈ markConversationMessagesAsRead (fun _ => true) conv uid now U ->
  exists m, m ∈ U /\ is_unread uid m = true
            /\ e = UpdateMessage conv (msg_id m) (or_now (deliveredAt m) now) now.
Proof.
  induction U as [|m U IH]; cbn; [intros H; inversion H|].
  destruct (is_unread uid m) eqn:Hm.
  - intros H. apply elem_of_cons in H as [->|H].
    + exists m. split; [apply elem_of_cons; left; reflexivity|]. split; [exact Hm|reflexivity].
    + destruct (IH H) as (m' & Hin & Hu & He). exists m'.
      split; [apply elem_of_cons; right; exact Hin|]. split; assumption.
  - intros H. destruct (IH H) as (m' & Hin & Hu & He). exists m'.
    split; [apply elem_of_cons; right; exact Hin|]. split; assumption.
Qed.

Lemma mark_fold (store : gmap string MessageData) (conv uid : string) (t now : Z)
    (U : list Message) : forall cur : gmap string MessageData,
  (forall m, m ∈ U -> exists d, store !! msg_id m = Some d /\ m = to_message t (msg_id m) d) ->
  (forall k, cur !! k = store !! k \/ cur !! k = all_marked uid now store k) ->
  let cur' := foldl apply_message_effect cur
                (markConversationMessagesAsRead (fun _ => true) conv uid now U) in
  (forall k, cur' !! k = store !! k \/ cur' !! k = all_marked uid now store k)
  /\ (forall k, cur !! k = all_marked uid now store k -> cur' !! k = all_marked uid now store k)
  /\ (forall m, m ∈ U -> is_unread uid m = true ->
                cur' !! msg_id m = all_marked uid now store (msg_id m)).
Proof.
  induction U as [|m U IH]; intros cur HU Hcur; cbn zeta.
  - cbn. split; [exact Hcur|]. split; [auto|]. intros m H. inversion H.
  - cbn [markConversationMessagesAsRead].
    assert (HU' : forall m', m' ∈ U ->
                    exists d, store !! msg_id m' = Some d /\ m' = to_message t (msg_id m') d)
      by (intros m' Hm'; apply HU, elem_of_cons; right; exact Hm').
    destruct (is_unread uid m) eqn:Hm.
    + cbn [foldl apply_message_effect].
      destruct (HU m) as (d & Hd & Heq); [apply elem_of_cons; left; reflexivity|].
      set (k0 := msg_id m) in *.
      assert (Hgoal : all_marked uid now store k0 = Some (marked now d)).
      { unfold all_marked. rewrite Hd.
        rewrite (is_unread_to_message uid 0 t k0 k0 d), <- Heq, Hm. reflexivity. }
      assert (Hupd : update_message (or_now (deliveredAt m) now) now (cur !! k0)
                     = marked now d).
      { destruct (Hcur k0) as [-> | ->].
        - rewrite Hd. rewrite Heq. reflexivity.
        - rewrite Hgoal. rewrite Heq. reflexivity. }
      rewrite Hupd.
      set (cur1 := <[k0 := marked now d]> cur).
      assert (Hcur1 : forall k, cur1 !! k = store !! k \/ cur1 !! k = all_marked uid now store k).
      { intros k. subst cur1. destruct (decide (k0 = k)) as [<-|Hne].
        - right. rewrite lookup_insert_eq, Hgoal. reflexivity.
        - rewrite lookup_insert_ne by exact Hne. apply Hcur. }
      destruct (IH cur1 HU' Hcur1) as (Ha & Hb & Hc).
      split; [exact Ha|]. split.
      * intros k Hk. apply Hb. subst cur1. destruct (decide (k0 = k)) as [<-|Hne].
        -- rewrite lookup_insert_eq, Hgoal. reflexivity.
        -- rewrite lookup_insert_ne by exact Hne. exact Hk.
      * intros m' Hin Hu. apply elem_of_cons in Hin as [->|Hin]; [|apply Hc; assumption].
        apply Hb. subst cur1. fold k0. rewrite lookup_insert_eq, Hgoal. reflexivity.
    + destruct (IH cur HU' Hcur) as (Ha & Hb & Hc).
      split; [exact Ha|]. split; [exact Hb|].
      intros m' Hin Hu. apply elem_of_cons in Hin as [->|Hin]; [|apply Hc; assumption].
      rewrite Hm in Hu. discriminate Hu.
Qed.

Lemma shown_elem (t : Z) (children : list (string * option MessageData))
    (store : gmap string MessageData) (m : Message) :
  lists children store ->
  m ∈ on_messages t children <->
  exists d, store !! msg_id m = Some d /\ m = to_message t (msg_id m) d.
Proof.
  intros [_ Hl]. unfold on_messages. rewrite sort_by_timestamp_perm, list_elem_of_omap.
  split.
  - intros ([k [d|]] & Hin & Hm); cbn in Hm; [|discriminate].
    injection Hm as <-. exists d. split; [apply Hl; exact Hin|reflexivity].
  - intros (d & Hd & ->). exists (msg_id (to_message t (msg_id m) d), Some d).
    split; [apply Hl; exact Hd|reflexivity].
Qed.

Lemma filter_nothing {A} (p : A -> bool) (l : list A) :
  (forall x, In x l -> p x = false) -> List.filter p l = [].
Proof.
  induction l as [|x l IH]; intros H; [reflexivity|]. cbn.
  rewrite (H x) by (left; reflexivity). apply IH. intros y Hy. apply H. right. exact Hy.
Qed.

(** With every update granted, one is written for each unread message. *)
Lemma mark_all (conv uid : string) (now : Z) (U : list Message) :
  markConversationMessagesAsRead (fun _ => true) conv uid now U
  = (fun m => UpdateMessage conv (msg_id m) (or_now (deliveredAt m) now) now)
      <$> List.filter (is_unread uid) U.
Proof.
  induction U as [|m U IH]; [reflexivity|]. cbn.
  destruct (is_unread uid m); [cbn; f_equal|]; exact IH.
Qed.

Lemma filter_twice {A} (p : A -> bool) (l : list A) :
  List.filter p (List.filter p l) = List.filter p l.
Proof.
  induction l as [|x l IH]; [reflexivity|]. cbn.
  destruct (p x) eqn:Hx; [cbn; rewrite Hx; f_equal|]; exact IH.
Qed.

Lemma written_updates (conv : string) (now : Z) (U : list Message) :
  omap written ((fun m => UpdateMessage conv (msg_id m) (or_now (deliveredAt m) now) now) <$> U)
  = msg_id <$> U.
Proof. induction U as [|m U IH]; [reflexivity|]. cbn. f_equal. exact IH. Qed.

Lemma updates_marking (conv : string) (now : Z) (U : list Message) :
  now <> 0 ->
  Forall (fun e => is_marking e = true)
    ((fun m => UpdateMessage conv (msg_id m) (or_now (deliveredAt m) now) now) <$> U).
Proof.
  intros Hnow. apply Forall_fmap, Forall_true. intros m. cbn.
  apply Z.eqb_neq in Hnow. now rewrite Hnow.
Qed.

(** An update leaves the children it is not for as they are. *)
Lemma foldl_untouched (l : list MessageEffect) (cur : gmap string MessageData) (k : string) :
  k ∉ omap written l -> foldl apply_message_effect cur l !! k = cur !! k.
Proof.
  revert cur. induction l as [|e l IH]; intros cur Hk; [reflexivity|]. cbn [foldl].
  destruct e as [c m d r|c m]; cbn in Hk |- *.
  - apply not_elem_of_cons in Hk as [Hne Hk]. rewrite (IH _ Hk).
    apply lookup_insert_ne. congruence.
  - apply IH, Hk.
Qed.

Lemma apply_keeps_read (cur : gmap string MessageData) (e : MessageEffect) (k : string) :
  is_marking e = true -> read_child cur k -> read_child (apply_message_effect cur e) k.
Proof.
  unfold read_child. intros He (d & r & Hd & Hr & Hne).
  destruct e as [c m dl rd|c m]; cbn in *; [|eauto 6].
  destruct (decide (m = k)) as [->|Hmk].
  - rewrite lookup_insert_eq, Hd. cbn. eexists _, rd. split; [reflexivity|].
    split; [reflexivity|]. apply Z.eqb_neq. now destruct (rd =? 0).
  - rewrite lookup_insert_ne by exact Hmk. eauto 6.
Qed.

(** After updates that mark as read, a child that one of them is for is
    read, whatever the others are for and whatever their order. *)
Lemma foldl_marks (l : list MessageEffect) (cur : gmap string MessageData) (k : string) :
  Forall (fun e => is_marking e = true) l -> k ∈ omap written l ->
  read_child (foldl apply_message_effect cur l) k.
Proof.
  intros Hall. revert cur.
  assert (Hkeep : forall l, Forall (fun e => is_marking e = true) l ->
            forall cur, read_child cur k -> read_child (foldl apply_message_effect cur l) k).
  { clear. intros l Hall. induction Hall as [|e l He _ IH]; intros cur H; [exact H|].
    cbn [foldl]. apply IH, apply_keeps_read; assumption. }
  induction Hall as [|e l He Hl IH]; intros cur Hk; [inversion Hk|]. cbn [foldl].
  destruct e as [c m dl rd|c m]; cbn in Hk; [|apply IH, Hk].
  apply elem_of_cons in Hk as [->|Hk]; [|apply IH, Hk].
  apply (Hkeep l Hl). unfold read_child. cbn in *. rewrite lookup_insert_eq.
  assert (Hrd : rd <> 0) by (apply Z.eqb_neq; now destruct (rd =? 0)).
  destruct (cur !! m); cbn; eauto 6.
Qed.

Lemma read_child_not_unread (uid : string) (store : gmap string MessageData) (k : string)
    (d : MessageData) (t : Z) :
  read_child store k -> store !! k = Some d -> is_unread uid (to_message t k d) = false.
Proof.
  intros (d' & r & Hd' & Hr & Hne) Hd. rewrite Hd in Hd'. injection Hd' as <-.
  unfold is_unread. cbn. rewrite Hr. apply Z.eqb_neq in Hne. rewrite Hne. apply andb_false_r.
Qed.

Lemma elem_of_filter_fmap {A B} (f : A -> B) (p : A -> bool) (l : list A) (y : B) :
  y ∈ f <$> List.filter p l <-> exists x, x ∈ l /\ p x = true /\ y = f x.
Proof.
  rewrite list_elem_of_fmap. split.
  - intros (x & -> & Hx). apply list_elem_of_In, List.filter_In in Hx as [Hx Hp].
    exists x. split; [apply list_elem_of_In, Hx|]. split; [exact Hp|reflexivity].
  - intros (x & Hx & Hp & ->). exists x. split; [reflexivity|].
    apply list_elem_of_In, List.filter_In. split; [apply list_elem_of_In, Hx|exact Hp].
Qed.

(** The messages shown have the keys of the children: each once. *)
Lemma shown_NoDup (t : Z) (children : list (string * option MessageData)) :
  NoDup children.*1 -> NoDup (msg_id <$> on_messages t children).
Proof.
  intros Hnd. unfold on_messages. rewrite sort_by_timestamp_perm.
  induction children as [|[k [d|]] l IH]; cbn in *; [constructor| |].
  - inversion Hnd as [|? ? Hk Hl]; subst. constructor; [|apply IH, Hl].
    intros Hin. apply Hk. apply list_elem_of_fmap in Hin as (m & -> & Hm).
    apply list_elem_of_omap in Hm as ([k' o] & Hin & Ho).
    destruct o as [d'|]; cbn in Ho; [|discriminate]. injection Ho as <-. cbn.
    apply list_elem_of_fmap. exists (k', Some d'). split; [reflexivity|exact Hin].
  - inversion Hnd as [|? ? Hk Hl]; subst. apply IH, Hl.
Qed.

Lemma filter_NoDup {A B} `{EqDecision B} (f : A -> B) (p : A -> bool) (l : list A) :
  NoDup (f <$> l) -> NoDup (f <$> List.filter p l).
Proof.
  induction l as [|x l IH]; intros Hnd; [constructor|]. cbn in *.
  inversion Hnd as [|? ? Hx Hl]; subst.
  destruct (p x); [|apply IH, Hl]. cbn. constructor; [|apply IH, Hl].
  intros Hin. apply Hx. apply elem_of_filter_fmap in Hin as (y & Hy & _ & ->).
  apply list_elem_of_fmap. exists y. split; [reflexivity|exact Hy].
Qed.

(** X26. Marking what is shown as read. When the page has the messages of
    a conversation from a snapshot and its updates go through: (1) the
    updates it writes are for the unread messages of the other users and for
    nothing else; (2) written with nothing else in between, they make no
    child and remove none, leave sender, text and timestamp of every child as
    they were, leave the user's own messages and the messages already read
    untouched, and set [readAt] to the clock and [deliveredAt] to what it
    was, or to the clock when it was not set. (3) The updates are written one
    by one, and the effect runs again whenever the messages change, so
    updates of several runs mix: whatever updates that mark as read are
    written, in whatever order, once those of this run are among them the
    conversation, read again from its children, has nothing left to mark.
    (4) A run that starts when only some of the updates of this run are
    written - the listener has told the page of them - writes for the
    messages that this run has yet to reach, and for no others: such a
    message is then written by both runs. *)
Theorem mark_as_read_settles (store : gmap string MessageData)
    (children : list (string * option MessageData)) (conv uid : string) (t now : Z) :
  lists children store -> conv <> "" -> uid <> "" -> now <> 0 ->
  let shown := on_messages t children in
  let effects := mark_shown_as_read (fun _ => true) (Some conv) (Some uid) now shown in
  let store' := foldl apply_message_effect store effects in
  (forall e, e ∈ effects ->
     exists m, m ∈ shown /\ is_unread uid m = true
               /\ e = UpdateMessage conv (msg_id m) (or_now (deliveredAt m) now) now)
  /\ (forall k, store' !! k = all_marked uid now store k)
  /\ (forall writes children' t' now',
        Forall (fun e => is_marking e = true) writes ->
        (forall e, e ∈ effects -> e ∈ writes) ->
        lists children' (foldl apply_message_effect store writes) ->
        mark_shown_as_read (fun _ => true) (Some conv) (Some uid) now'
          (on_messages t' children') = [])
  /\ (forall pre post children' t' now',
        effects = pre ++ post ->
        lists children' (foldl apply_message_effect store pre) ->
        let again := mark_shown_as_read (fun _ => true) (Some conv) (Some uid) now'
                       (on_messages t' children') in
        (forall k, k ∈ omap written again <-> k ∈ omap written post)
        /\ (post <> [] -> again <> [])).
Proof.
  intros Hl Nc Nu Nnow shown effects store'.
  assert (He : effects
               = markConversationMessagesAsRead (fun _ => true) conv uid now
                   (List.filter (is_unread uid) shown))
    by (apply mark_shown_as_read_unfold; assumption).
  assert (HU : forall m, m ∈ List.filter (is_unread uid) shown ->
                 exists d, store !! msg_id m = Some d /\ m = to_message t (msg_id m) d).
  { intros m Hm. apply list_elem_of_In, List.filter_In in Hm as [Hm _].
    apply list_elem_of_In in Hm. apply (shown_elem t children store m Hl), Hm. }
  destruct (mark_fold store conv uid t now (List.filter (is_unread uid) shown) store HU
              (fun k => or_introl eq_refl)) as (Ha & _ & Hc).
  cbn zeta in Ha, Hc. rewrite <- He in Ha, Hc. fold store' in Ha, Hc.
  assert (Hall : forall k, store' !! k = all_marked uid now store k).
  { intros k. destruct (Ha k) as [Hk|Hk]; [|exact Hk].
    destruct (store !! k) as [d|] eqn:Hd;
      [|rewrite Hk; unfold all_marked; rewrite Hd; reflexivity].
    destruct (is_unread uid (to_message 0 k d)) eqn:Hu;
      [|rewrite Hk; unfold all_marked; rewrite Hd, Hu; reflexivity].
    assert (Hin : to_message t k d ∈ List.filter (is_unread uid) shown).
    { apply list_elem_of_In, List.filter_In. split.
      - apply list_elem_of_In, (shown_elem t children store _ Hl). exists d.
        split; [exact Hd|reflexivity].
      - rewrite <- Hu. reflexivity. }
    apply (Hc _ Hin). rewrite <- Hu. reflexivity. }
  (* the updates of the run, one for each unread message shown *)
  set (U := List.filter (is_unread uid) shown) in *.
  set (f := fun m : Message => UpdateMessage conv (msg_id m) (or_now (deliveredAt m) now) now).
  assert (He' : effects = f <$> U).
  { rewrite He, mark_all. subst U. rewrite filter_twice. reflexivity. }
  assert (HinU : forall k d, store !! k = Some d -> is_unread uid (to_message t k d) = true ->
                   to_message t k d ∈ U).
  { intros k d Hd Hu. apply list_elem_of_In, List.filter_In. split; [|exact Hu].
    apply list_elem_of_In, (shown_elem t children store _ Hl). exists d.
    split; [exact Hd|reflexivity]. }
  assert (Hnone : forall st children' t',
            lists children' st ->
            (forall k d, st !! k = Some d -> is_unread uid (to_message t' k d) = false) ->
            List.filter (is_unread uid) (on_messages t' children') = []).
  { intros st children' t' Hl' Hread. apply filter_nothing. intros m Hm.
    apply list_elem_of_In, (shown_elem t' children' st m Hl') in Hm as (d' & Hd' & ->).
    apply (Hread _ _ Hd'). }
  split; [|split; [exact Hall|split]].
  - intros e Hin. rewrite He in Hin. apply mark_effects in Hin as (m & Hm & Hu & ->).
    exists m. split; [|split; [exact Hu|reflexivity]].
    apply list_elem_of_In, List.filter_In in Hm as [Hm _]. apply list_elem_of_In, Hm.
  - intros writes children' t' now' Hmark Hsub Hl'.
    rewrite mark_shown_as_read_unfold by assumption.
    rewrite (Hnone _ children' t' Hl'); [reflexivity|].
    intros k d Hd.
    destruct (decide (k ∈ omap written writes)) as [Hk|Hk].
    + apply (read_child_not_unread uid _ k d t' (foldl_marks writes store k Hmark Hk) Hd).
    + rewrite (foldl_untouched writes store k Hk) in Hd.
      destruct (is_unread uid (to_message t' k d)) eqn:Hu; [exfalso|reflexivity].
      apply Hk. apply list_elem_of_omap. exists (f (to_message t k d)).
      split; [|reflexivity]. apply Hsub. rewrite He'.
      apply list_elem_of_fmap. exists (to_message t k d). split; [reflexivity|].
      apply HinU; [exact Hd|exact Hu].
  - intros pre post children' t' now' Hsplit Hl' again.
    rewrite He' in Hsplit.
    apply fmap_app_inv in Hsplit as (U1 & U2 & -> & -> & HU12).
    assert (Hnd : NoDup (msg_id <$> U1 ++ U2)).
    { rewrite <- HU12. subst U. apply filter_NoDup, shown_NoDup, Hl. }
    rewrite fmap_app in Hnd. apply NoDup_app in Hnd as (_ & Hdisj & _).
    set (mid := foldl apply_message_effect store (f <$> U1)) in *.
    assert (Hmid1 : forall k, k ∈ msg_id <$> U1 -> read_child mid k).
    { intros k Hk. apply foldl_marks; [apply updates_marking, Nnow|].
      subst f. rewrite written_updates. exact Hk. }
    assert (Hmid2 : forall k, k ∉ msg_id <$> U1 -> mid !! k = store !! k).
    { intros k Hk. apply foldl_untouched. subst f. rewrite written_updates. exact Hk. }
    assert (Hagain : omap written again
                     = msg_id <$> List.filter (is_unread uid) (on_messages t' children')).
    { subst again. rewrite mark_shown_as_read_unfold, mark_all, filter_twice by assumption.
      apply written_updates. }
    assert (Hkeys : forall k, k ∈ omap written again <-> k ∈ omap written (f <$> U2)).
    { intros k. rewrite Hagain. subst f. rewrite written_updates, elem_of_filter_fmap. split.
      - intros (m & Hm & Hu & ->).
        apply (shown_elem t' children' mid m Hl') in Hm as (d & Hd & Heq).
        rewrite Heq in Hu.
        destruct (decide (msg_id m ∈ msg_id <$> U1)) as [H1|H1].
        + rewrite (read_child_not_unread uid mid _ d t' (Hmid1 _ H1) Hd) in Hu. discriminate Hu.
        + rewrite (Hmid2 _ H1) in Hd.
          pose proof (HinU _ _ Hd Hu) as Hin. rewrite HU12 in Hin.
          apply elem_of_app in Hin as [Hin|Hin].
          * exfalso. apply H1. apply list_elem_of_fmap.
            exists (to_message t (msg_id m) d). split; [reflexivity|exact Hin].
          * apply list_elem_of_fmap. exists (to_message t (msg_id m) d).
            split; [reflexivity|exact Hin].
      - intros Hk. pose proof Hk as Hk2.
        apply list_elem_of_fmap in Hk as (m & -> & Hm).
        assert (HmU : m ∈ U) by (rewrite HU12; apply elem_of_app; right; exact Hm).
        destruct (HU m HmU) as (d & Hd & Heq).
        assert (Hu : is_unread uid m = true)
          by (apply list_elem_of_In, List.filter_In in HmU as [_ Hu]; exact Hu).
        assert (H1 : msg_id m ∉ msg_id <$> U1) by (intros H1; apply (Hdisj _ H1 Hk2)).
        exists (to_message t' (msg_id m) d). split; [|split; [|reflexivity]].
        + apply (shown_elem t' children' mid _ Hl'). exists d.
          change (msg_id (to_message t' (msg_id m) d)) with (msg_id m).
          split; [rewrite (Hmid2 _ H1); exact Hd|reflexivity].
        + rewrite Heq in Hu. exact Hu. }
    split; [exact Hkeys|].
    intros Hpost Hnil. destruct U2 as [|m U2]; [apply Hpost; reflexivity|].
    assert (Hk : msg_id m ∈ omap written again)
      by (apply Hkeys; cbn; apply elem_of_cons; left; reflexivity).
    rewrite Hnil in Hk. inversion Hk.
Qed.

Lemma lists_of_list (l : list (string * MessageData)) :
  NoDup l.*1 -> lists ((fun kv => (kv.1, Some kv.2)) <$> l) (list_to_map l).
Proof.
  intros Hnd. split.
  - rewrite <- list_fmap_compose. exact Hnd.
  - intros k d. rewrite <- (elem_of_list_to_map l k d Hnd), list_elem_of_fmap. split.
    + intros ([k' d'] & Heq & Hin). cbn in Heq. injection Heq as -> ->. exact Hin.
    + intros Hin. exists (k, d). split; [reflexivity|exact Hin].
Qed.

Lemma mark_as_read_settles_witness :
  let shown := on_messages 3000 Talk.children_later in
  let effects := mark_shown_as_read (fun _ => true) (Some "conv-1") (Some "alice") 3000 shown in
  let store' := foldl apply_message_effect Talk.store_later effects in
  (forall e, e ∈ effects ->
     exists m, m ∈ shown /\ is_unread "alice" m = true
               /\ e = UpdateMessage "conv-1" (msg_id m) (or_now (deliveredAt m) 3000) 3000)
  /\ (forall k, store' !! k = all_marked "alice" 3000 Talk.store_later k)
  /\ (forall writes children' t' now',
        Forall (fun e => is_marking e = true) writes ->
        (forall e, e ∈ effects -> e ∈ writes) ->
        lists children' (foldl apply_message_effect Talk.store_later writes) ->
        mark_shown_as_read (fun _ => true) (Some "conv-1") (Some "alice") now'
          (on_messages t' children') = [])
  /\ (forall pre post children' t' now',
        effects = pre ++ post ->
        lists children' (foldl apply_message_effect Talk.store_later pre) ->
        let again := mark_shown_as_read (fun _ => true) (Some "conv-1") (Some "alice") now'
                       (on_messages t' children') in
        (forall k, k ∈ omap written again <-> k ∈ omap written post)
        /\ (post <> [] -> again <> [])).
Proof.
  apply (mark_as_read_settles Talk.store_later Talk.children_later "conv-1" "alice" 3000 3000);
    try discriminate.
  apply lists_of_list. cbn.
  repeat (constructor; [rewrite ?not_elem_of_cons; repeat split; first [discriminate|apply not_elem_of_nil]|]).
  constructor.
Defined.

(** Two runs overlap. Alice opens the conversation with two unread
    messages of Bob. The run of clock 3000 is to mark both; when its first
    update is written the listener shows the messages again, and the run that
    starts then, at clock 3001, marks the other message too: that message is
    written twice, and ends with the [readAt] of whichever update comes
    last. *)
Example marking_runs_overlap :
  let first_run :=
    mark_shown_as_read (fun _ => true) (Some "conv-1") (Some "alice") 3000
      (on_messages 3000 Talk.children_later) in
  let mid := foldl apply_message_effect Talk.store_later (take 1 first_run) in
  let second_run :=
    mark_shown_as_read (fun _ => true) (Some "conv-1") (Some "alice") 3001
      (on_messages 3001 ((fun kv => (kv.1, Some kv.2)) <$> map_to_list mid)) in
  first_run = [UpdateMessage "conv-1" "m2" 2100 3000; UpdateMessage "conv-1" "m4" 3000 3000]
  /\ second_run = [UpdateMessage "conv-1" "m4" 3001 3001]
  /\ (data_readAt <$> foldl apply_message_effect mid (drop 1 first_run ++ second_run) !! "m4")
     = Some (Some 3001)
  /\ (data_readAt <$> foldl apply_message_effect mid (second_run ++ drop 1 first_run) !! "m4")
     = Some (Some 3000).
Proof. vm_compute. repeat split. Qed.

(** X27. Marking a message that is no longer stored makes a child of it.
    The update that [markConversationMessagesAsRead] writes for an unread
    message goes to the path of the message whether or not the child is
    still there; when it is not - the message was removed after the snapshot
    was taken - a child with [deliveredAt] and [readAt] only comes to be,
    which the listener then shows as a message of no sender and empty text,
    dated with the clock of the moment it is read. *)
Theorem marking_remakes_removed_message (store : gmap string MessageData) (m : Message)
    (conv uid : string) (now t : Z) :
  store !! msg_id m = None -> is_unread uid m = true ->
  let store' := foldl apply_message_effect store
                  (markConversationMessagesAsRead (fun _ => true) conv uid now [m]) in
  store' !! msg_id m
  = Some (mkMessageData None None None (Some (or_now (deliveredAt m) now)) (Some now))
  /\ (forall k, k <> msg_id m -> store' !! k = store !! k)
  /\ on_messages t [(msg_id m, store' !! msg_id m)]
     = [mkMessage (msg_id m) None "" t (Some (or_now (deliveredAt m) now)) (Some now)].
Proof.
  intros Hgone Hu store'. subst store'. cbn [markConversationMessagesAsRead].
  rewrite Hu. cbn [foldl apply_message_effect]. rewrite Hgone. cbn [update_message].
  rewrite lookup_insert_eq. split; [reflexivity|]. split.
  - intros k Hk. rewrite lookup_insert_ne by (intros E; apply Hk; symmetry; exact E).
    reflexivity.
  - reflexivity.
Qed.

Lemma marking_remakes_removed_message_witness :
  let m := to_message 0 "m2" Talk.hi in
  let store := delete "m2" Talk.store in
  let store' := foldl apply_message_effect store
                  (markConversationMessagesAsRead (fun _ => true) "conv-1" "alice" 3000 [m]) in
  store' !! msg_id m
  = Some (mkMessageData None None None (Some (or_now (deliveredAt m) 3000)) (Some 3000))
  /\ (forall k, k <> msg_id m -> store' !! k = store !! k)
  /\ on_messages 3100 [(msg_id m, store' !! msg_id m)]
     = [mkMessage (msg_id m) None "" 3100 (Some (or_now (deliveredAt m) 3000)) (Some 3000)].
Proof.
  apply (marking_remakes_removed_message (delete "m2" Talk.store) (to_message 0 "m2" Talk.hi)
           "conv-1" "alice" 3000 3100).
  - apply lookup_delete_eq.
  - reflexivity.
Defined.

(** ** Messages by day *)

Lemma adjacent_differ_snoc {A} (l : list A) (x : A) :
  adjacent_differ l -> last l <> Some x -> adjacent_differ (l ++ [x]).
Proof.
  induction l as [|a l IH]; [intros; exact I|].
  destruct l as [|b l]; cbn in *.
  - intros _ H. split; [|exact I]. intros ->. apply H. reflexivity.
  - intros [Hab Hrest] Hlast. split; [exact Hab|]. apply IH; assumption.
Qed.

Lemma group_step_grouping (startOfDay : Z -> Z) (done : list Message)
    (st : list DayGroup * list Message * option Z) (m : Message) :
  grouping startOfDay done st -> grouping startOfDay (done ++ [m]) (group_step startOfDay st m).
Proof.
  destruct st as [[groups cur] date]. unfold grouping, group_step.
  intros (Hdone & Hwf & Hadj & Hcur).
  destruct date as [d|].
  - destruct Hcur as (Hne & Hday & Hlast).
    destruct (Z.eqb_spec d (startOfDay (msg_timestamp m))) as [Heq|Hneq]; cbn [negb].
    + split; [rewrite app_assoc, Hdone; reflexivity|].
      split; [exact Hwf|]. split; [exact Hadj|].
      split; [intros E; apply app_eq_nil in E as [_ E]; discriminate E|].
      split; [|exact Hlast].
      apply Forall_app. split; [exact Hday|]. constructor; [symmetry; exact Heq|constructor].
    + destruct cur as [|c cur]; [contradiction|].
      split.
      { rewrite fmap_app, concat_app. cbn. rewrite app_nil_r, <- Hdone, <- app_assoc.
        reflexivity. }
      split.
      { apply Forall_app. split; [exact Hwf|]. constructor; [|constructor].
        split; [discriminate|]. exists d. split; [reflexivity|exact Hday]. }
      split.
      { rewrite fmap_app. cbn. apply adjacent_differ_snoc; assumption. }
      split; [discriminate|]. split; [repeat constructor|].
      rewrite fmap_app. cbn. rewrite last_snoc. intros E. injection E as E. contradiction.
  - destruct Hcur as [-> ->]. cbn in *. subst done.
    split; [reflexivity|]. split; [constructor|]. split; [exact I|].
    split; [discriminate|]. split; [repeat constructor|]. discriminate.
Qed.

Lemma foldl_grouping (startOfDay : Z -> Z) (messages : list Message) :
  forall done st,
    grouping startOfDay done st ->
    grouping startOfDay (done ++ messages) (foldl (group_step startOfDay) st messages).
Proof.
  induction messages as [|m l IH]; intros done st H; cbn [foldl].
  - rewrite app_nil_r. exact H.
  - replace (done ++ m :: l) with ((done ++ [m]) ++ l) by (rewrite <- app_assoc; reflexivity).
    apply IH, group_step_grouping, H.
Qed.

Lemma increasing_dates (startOfDay : Z -> Z) (gs : list DayGroup) :
  (forall a b, a <= b -> startOfDay a <= startOfDay b) ->
  Forall (day_group startOfDay) gs ->
  adjacent_differ (group_date <$> gs) ->
  StronglySorted (fun a b => msg_timestamp a <= msg_timestamp b)
    (concat (group_messages <$> gs)) ->
  Sorted (fun g g' => default 0 (group_date g) < default 0 (group_date g')) gs.
Proof.
  intros Hmono Hwf. induction Hwf as [|g gs Hg Hgs IH]; intros Hadj Hsorted; [constructor|].
  cbn [fmap list_fmap concat] in Hsorted.
  pose proof (StronglySorted_app_1_r _ _ _ Hsorted) as Hrest.
  constructor.
  - apply IH; [|exact Hrest]. cbn in Hadj. destruct (group_date <$> gs); [exact I|apply Hadj].
  - destruct gs as [|g' gs']; constructor.
    cbn in Hadj. destruct Hadj as [Hne _].
    inversion Hgs as [|? ? Hg' _]; subst.
    destruct Hg as (Hnil & d & Hd & Hall), Hg' as (Hnil' & d' & Hd' & Hall').
    rewrite Hd, Hd' in *. cbn.
    destruct (group_messages g) as [|m ms] eqn:Egm; [contradiction|].
    destruct (group_messages g') as [|m' ms'] eqn:Egm'; [contradiction|].
    assert (Hle : msg_timestamp m <= msg_timestamp m').
    { apply (StronglySorted_app_1_elem_of _ _ _ m m' Hsorted).
      - apply elem_of_cons. left. reflexivity.
      - cbn [fmap list_fmap concat]. rewrite Egm'. apply elem_of_cons. left. reflexivity. }
    inversion Hall as [|? ? Hdm _]; subst. inversion Hall' as [|? ? Hdm' _]; subst.
    specialize (Hmono _ _ Hle).
    assert (startOfDay (msg_timestamp m) <> startOfDay (msg_timestamp m'))
      by (intros E; apply Hne; rewrite E; reflexivity).
    lia.
Qed.

(** X28. The groups of [groupedMessages]. Put one after the other, the
    groups give the messages back, each once and in their order; no group is
    empty; every group has a date, which is the day of each of its messages;
    and two groups that follow each other have different dates. For
    messages in the order of their timestamps, as the listener hands them
    over, and with days that follow the clock, the dates grow from one
    group to the next, so that every day has one group. *)
Theorem groupedMessages_by_day (startOfDay : Z -> Z) (messages : list Message) :
  let gs := groupedMessages startOfDay messages in
  concat (group_messages <$> gs) = messages
  /\ Forall (day_group startOfDay) gs
  /\ adjacent_differ (group_date <$> gs)
  /\ ((forall a b, a <= b -> startOfDay a <= startOfDay b) ->
      forall now children,
        messages = on_messages now children ->
        Sorted (fun g g' => default 0 (group_date g) < default 0 (group_date g')) gs).
Proof.
  intros gs.
  assert (H : concat (group_messages <$> gs) = messages
              /\ Forall (day_group startOfDay) gs
              /\ adjacent_differ (group_date <$> gs)).
  { subst gs. unfold groupedMessages.
    pose proof (foldl_grouping startOfDay messages [] ([], [], None)) as Hinv.
    cbn [app] in Hinv.
    destruct (foldl (group_step startOfDay) ([], [], None) messages) as [[groups cur] date].
    destruct Hinv as (Hdone & Hwf & Hadj & Hcur).
    { cbn. repeat split; constructor. }
    destruct date as [d|].
    - destruct Hcur as (Hne & Hday & Hlast). destruct cur as [|c cur]; [contradiction|].
      split; [rewrite fmap_app, concat_app; cbn; rewrite app_nil_r; exact Hdone|].
      split.
      + apply Forall_app. split; [exact Hwf|]. constructor; [|constructor].
        split; [discriminate|]. exists d. split; [reflexivity|exact Hday].
      + rewrite fmap_app. cbn. apply adjacent_differ_snoc; assumption.
    - destruct Hcur as [-> ->]. cbn in *. subst messages. repeat split; constructor. }
  destruct H as (Hcat & Hwf & Hadj).
  split; [exact Hcat|]. split; [exact Hwf|]. split; [exact Hadj|].
  intros Hmono now children Hshown.
  apply (increasing_dates startOfDay gs Hmono Hwf Hadj).
  rewrite Hcat, Hshown. unfold on_messages.
  apply Sorted_StronglySorted; [intros a b c; lia|apply sort_by_timestamp_sorted].
Qed.


(** ** Groups *)

Lemma members_of_insert (st : GroupStore) (gs : gmap string Group) (g : string)
    (ms : gmap string GroupMember) :
  members_of (mkGroupStore gs (<[g := ms]> (groupMembers st))) g = ms.
Proof. unfold members_of. cbn. rewrite lookup_insert_eq. reflexivity. Qed.

Lemma storage_addGroupMember_spec (id g u : string) (now now' : Z) (st : GroupStore)
    (grp : Group) :
  groups st !! g = Some grp ->
  let st' := Storage.addGroupMember id g u now now' st in
  groups st' !! g = Some (set_memberCount (memberCount grp + 2) (set_lastMemberChangeAt now' grp))
  /\ members_of st' g = <[u := mkGroupMember id g u now]> (members_of st g)
  /\ (forall g', g' <> g ->
        groups st' !! g' = groups st !! g' /\ members_of st' g' = members_of st g').
Proof.
  intros Hg st'. subst st'.
  unfold Storage.addGroupMember, FirebaseService.addGroupMember, update_group.
  cbn [groups groupMembers member_groupId member_userId].
  rewrite Hg. cbn [groups groupMembers]. rewrite lookup_insert_eq.
  cbn [groups groupMembers].
  split; [|split].
  - rewrite lookup_insert_eq. f_equal. unfold set_memberCount, set_lastMemberChangeAt. cbn.
    f_equal. lia.
  - apply members_of_insert.
  - intros g' Hne. split.
    + rewrite !lookup_insert_ne by (intros E; apply Hne; symmetry; exact E). reflexivity.
    + unfold members_of. cbn [groupMembers].
      rewrite lookup_insert_ne by (intros E; apply Hne; symmetry; exact E). reflexivity.
Qed.

Lemma storage_removeGroupMember_spec (g u : string) (now : Z) (st : GroupStore) (grp : Group) :
  groups st !! g = Some grp ->
  let st' := Storage.removeGroupMember g u now st in
  groups st' !! g
  = Some (set_memberCount (Z.max 0 (memberCount grp - 2)) (set_lastMemberChangeAt now grp))
  /\ members_of st' g = delete u (members_of st g)
  /\ (forall g', g' <> g ->
        groups st' !! g' = groups st !! g' /\ members_of st' g' = members_of st g').
Proof.
  intros Hg st'. subst st'.
  unfold Storage.removeGroupMember, FirebaseService.removeGroupMember, update_group.
  cbn [groups groupMembers].
  rewrite Hg. cbn [groups groupMembers]. rewrite lookup_insert_eq.
  cbn [memberCount set_memberCount set_lastMemberChangeAt].
  destruct (Z.ltb_spec 0 (Z.max 0 (memberCount grp - 1))) as [Hpos|Hzero];
    cbn [groups groupMembers].
  - rewrite !lookup_insert_eq. cbn [groups groupMembers]. split; [|split].
    + rewrite ?lookup_insert_eq. f_equal.
      unfold set_memberCount, set_lastMemberChangeAt. cbn. f_equal. lia.
    + apply members_of_insert.
    + intros g' Hne. split.
      * rewrite !lookup_insert_ne by (intros E; apply Hne; symmetry; exact E). reflexivity.
      * unfold members_of. cbn [groupMembers].
        rewrite lookup_insert_ne by (intros E; apply Hne; symmetry; exact E). reflexivity.
  - split; [|split].
    + rewrite lookup_insert_eq. f_equal.
      unfold set_memberCount, set_lastMemberChangeAt. cbn. f_equal. lia.
    + apply members_of_insert.
    + intros g' Hne. split.
      * rewrite !lookup_insert_ne by (intros E; apply Hne; symmetry; exact E). reflexivity.
      * unfold members_of. cbn [groupMembers].
        rewrite lookup_insert_ne by (intros E; apply Hne; symmetry; exact E). reflexivity.
Qed.

Lemma firebase_addGroupMember_spec (m : GroupMember) (now : Z) (st : GroupStore) (grp : Group) :
  groups st !! member_groupId m = Some grp ->
  let st' := FirebaseService.addGroupMember m now st in
  groups st' !! member_groupId m
  = Some (set_lastMemberChangeAt now (set_memberCount (memberCount grp + 1) grp))
  /\ members_of st' (member_groupId m)
     = <[member_userId m := m]> (members_of st (member_groupId m)).
Proof.
  intros Hg st'. subst st'. unfold FirebaseService.addGroupMember, update_group.
  cbn [groups groupMembers]. rewrite Hg. cbn [groups groupMembers].
  split; [apply lookup_insert_eq|apply members_of_insert].
Qed.

(** X29. The member count of a group counts every member twice. The
    route layer's [addGroupMember] lets the layer below add the member,
    which already adds one to the count, and then adds one more; removing
    takes two in the same way. So a group comes out of [createGroup], which
    goes through when the group has a description, with one member and a
    count of two - without a description [createGroup] throws and nothing is
    stored - and a count that is twice the number of
    members stays so under every join, every addition of a member and every
    leave of a member. The leave route does not ask whether the user is a
    member: the leave of someone who is not takes two from the count and
    nobody from the group, and after it the daily cleanup, which goes by
    the count alone, removes a group that still has a member - its creator,
    for a group as [createGroup] leaves it - once two hours have passed. *)
Theorem memberCount_counts_twice (st : GroupStore) (g : string) (id : string) (now now' : Z)
    (u : string) :
  counted_twice st g ->
  counted_twice (snd (join_group id now now' g u st)) g
  /\ counted_twice (snd (add_member id now now' g (Some u) st)) g
  /\ (forall grp, groups st !! g = Some grp -> creatorId grp <> u ->
        let st' := snd (leave_group now g u st) in
        (is_Some (members_of st g !! u) -> counted_twice st' g)
        /\ (members_of st g !! u = None ->
            members_of st' g = members_of st g
            /\ (memberCount <$> groups st' !! g) = Some (Z.max 0 (memberCount grp - 2))
            /\ (size (members_of st g) = 1%nat ->
                forall later, now + EMPTY_GROUP_RETENTION_MS < later -> now <> 0 ->
                  groups (cleanup_group later g st') !! g = None)))
  /\ (forall id' memberId name creator,
        Storage.createGroup id' memberId name None creator now now' st = None
        /\ forall description,
             groupMembers st !! id' = None ->
             exists st',
               Storage.createGroup id' memberId name (Some description) creator now now' st
               = Some st'
               /\ counted_twice st' id'
               /\ size (members_of st' id') = 1%nat
               /\ (memberCount <$> groups st' !! id') = Some 2).
Proof.
  intros (grp & Hg & Hcount).
  assert (Hadd : forall u', members_of st g !! u' = None ->
                   counted_twice (Storage.addGroupMember id g u' now now' st) g).
  { intros u' Hnot.
    destruct (storage_addGroupMember_spec id g u' now now' st grp Hg) as (Hg' & Hm' & _).
    eexists. split; [exact Hg'|]. rewrite Hm', map_size_insert_None by exact Hnot.
    cbn. lia. }
  assert (Hmember : forall u', FirebaseService.isGroupMember g u' st = false ->
                      members_of st g !! u' = None).
  { intros u' H. unfold FirebaseService.isGroupMember in H.
    apply bool_decide_eq_false in H. destruct (members_of st g !! u'); [|reflexivity].
    exfalso. apply H. eexists. reflexivity. }
  split; [|split; [|split]].
  - unfold join_group. rewrite Hg.
    destruct (FirebaseService.isGroupMember g u st) eqn:Hm; cbn [snd].
    + exists grp. split; assumption.
    + apply Hadd, Hmember, Hm.
  - unfold add_member. destruct (String.eqb u ""); cbn [snd]; [exists grp; split; assumption|].
    rewrite Hg. destruct (FirebaseService.isGroupMember g u st) eqn:Hm; cbn [snd].
    + exists grp. split; assumption.
    + apply Hadd, Hmember, Hm.
  - intros grp' Hg' Hcreator st'. rewrite Hg in Hg'. injection Hg' as <-.
    subst st'. unfold leave_group. rewrite Hg.
    apply String.eqb_neq in Hcreator. rewrite Hcreator. cbn [snd].
    destruct (storage_removeGroupMember_spec g u now st grp Hg) as (Hg' & Hm' & _).
    split.
    + intros [m Hm]. eexists. split; [exact Hg'|].
      rewrite Hm', map_size_delete_Some by (eexists; exact Hm). cbn.
      assert (0 < size (members_of st g))%nat.
      { destruct (size (members_of st g)) eqn:E; [|lia].
        apply map_size_empty_inv in E. rewrite E in Hm. discriminate Hm. }
      lia.
    + intros Hnot. split; [|split].
      * rewrite Hm'. apply delete_id, Hnot.
      * rewrite Hg'. reflexivity.
      * intros Hone later Hlater Hnow. unfold cleanup_group. rewrite Hg'.
        cbn [memberCount set_memberCount set_lastMemberChangeAt lastMemberChangeAt createdAt].
        rewrite Hcount, Hone.
        change (0 `max` (2 * Z.of_nat 1 - 2) =? 0) with true. cbn [andb].
        unfold first_nonzero. apply Z.eqb_neq in Hnow. rewrite Hnow.
        destruct (Z.ltb_spec now (later - EMPTY_GROUP_RETENTION_MS)) as [_|Hge]; [|lia].
        unfold FirebaseService.deleteGroupFromFirebaseOnly. cbn [groups].
        apply lookup_delete_eq.
  - intros id' memberId name creator. split; [reflexivity|].
    intros description Hfresh.
    unfold Storage.createGroup, FirebaseService.createGroup. cbn [group_description].
    eexists. split; [reflexivity|].
    set (grp0 := mkGroup id' name (Some description) creator now now 1 now).
    set (st0 := mkGroupStore
                  (<[group_id grp0 := set_lastMemberChangeAt (createdAt grp0) grp0]> (groups st))
                  (groupMembers st)).
    assert (Hg0 : groups st0 !! id' = Some (set_lastMemberChangeAt now grp0))
      by (subst st0; cbn [groups group_id grp0 createdAt]; apply lookup_insert_eq).
    assert (Hm0 : members_of st0 id' = ∅)
      by (subst st0; unfold members_of; cbn [groupMembers]; rewrite Hfresh; reflexivity).
    destruct (firebase_addGroupMember_spec (mkGroupMember memberId id' creator now) now' st0 _
                Hg0) as (Hg1 & Hm1).
    cbn [member_groupId member_userId] in Hg1, Hm1. rewrite Hm0 in Hm1.
    split; [|split].
    + eexists. split; [exact Hg1|].
      rewrite Hm1, map_size_insert_None, map_size_empty by apply lookup_empty. reflexivity.
    + rewrite Hm1, map_size_insert_None, map_size_empty by apply lookup_empty. reflexivity.
    + rewrite Hg1. reflexivity.
Qed.

Lemma memberCount_counts_twice_witness :
  let st := Club.founded in
  counted_twice (snd (join_group "m2" 200 201 "g1" "bob" st)) "g1"
  /\ counted_twice (snd (add_member "m2" 200 201 "g1" (Some "bob") st)) "g1"
  /\ (forall grp, groups st !! "g1" = Some grp -> creatorId grp <> "bob" ->
        let st' := snd (leave_group 200 "g1" "bob" st) in
        (is_Some (members_of st "g1" !! "bob") -> counted_twice st' "g1")
        /\ (members_of st "g1" !! "bob" = None ->
            members_of st' "g1" = members_of st "g1"
            /\ (memberCount <$> groups st' !! "g1") = Some (Z.max 0 (memberCount grp - 2))
            /\ (size (members_of st "g1") = 1%nat ->
                forall later, 200 + EMPTY_GROUP_RETENTION_MS < later -> 200 <> 0 ->
                  groups (cleanup_group later "g1" st') !! "g1" = None)))
  /\ (forall id' memberId name creator,
        Storage.createGroup id' memberId name None creator 200 201 st = None
        /\ forall description,
             groupMembers st !! id' = None ->
             exists st',
               Storage.createGroup id' memberId name (Some description) creator 200 201 st
               = Some st'
               /\ counted_twice st' id'
               /\ size (members_of st' id') = 1%nat
               /\ (memberCount <$> groups st' !! id') = Some 2).
Proof.
  apply (memberCount_counts_twice Club.founded "g1" "m2" 200 201 "bob").
  eexists. split; vm_compute; reflexivity.
Defined.

(** The club of the example is what [createGroup] stores for a group with
    a description: Alice is its only member and its count is two. Without a
    description nothing is stored. *)
Example club_is_founded :
  Storage.createGroup "g1" "m1" "Chess" (Some "Openings on Mondays") "alice" 100 101
    (mkGroupStore ∅ ∅) = Some Club.founded
  /\ Storage.createGroup "g1" "m1" "Chess" None "alice" 100 101 (mkGroupStore ∅ ∅) = None
  /\ (member_userId <$> members_of Club.founded "g1" !! "alice") = Some "alice"
  /\ (memberCount <$> groups Club.founded !! "g1") = Some 2.
Proof. vm_compute. repeat split. Qed.

(** ** Blocking *)

Lemma includes_elem (l : list string) (x : string) : includes l x = true <-> x ∈ l.
Proof.
  unfold includes. induction l as [|y l IH]; cbn.
  - split; [discriminate|intros H; inversion H].
  - rewrite elem_of_cons, orb_true_iff, IH, String.eqb_eq. reflexivity.
Qed.

Lemma includes_push_new (l : list string) (x y : string) :
  includes (push_new x l) y = true <-> y = x \/ includes l y = true.
Proof.
  unfold push_new. destruct (includes l x) eqn:Hx.
  - split; [auto|]. intros [->|H]; assumption.
  - rewrite !includes_elem, elem_of_app, list_elem_of_singleton. tauto.
Qed.

Lemma push_new_NoDup (l : list string) (x : string) : NoDup l -> NoDup (push_new x l).
Proof.
  intros Hl. unfold push_new. destruct (includes l x) eqn:Hx; [exact Hl|].
  apply NoDup_app. split; [exact Hl|]. split; [|apply NoDup_singleton].
  intros y Hy Hy'. apply list_elem_of_singleton in Hy'. subst y.
  apply includes_elem in Hy. rewrite Hy in Hx. discriminate Hx.
Qed.

Lemma push_new_again (l : list string) (x : string) : push_new x (push_new x l) = push_new x l.
Proof.
  unfold push_new at 1.
  assert (H : includes (push_new x l) x = true) by (apply includes_push_new; left; reflexivity).
  rewrite H. reflexivity.
Qed.

(** X30. Blocking is mutual and stays. When both users are stored,
    [blockUser] puts each of the two into the blocked users of the other,
    so that [isBlocked] holds in both directions afterwards; whoever was
    blocked before still is, no user is listed twice, and no other record
    changes. A second call changes no list and only sets the time of the
    block anew. When one of the two users is not stored, nothing is
    written. *)
Theorem blocking_is_mutual (users : gmap string User) (u t : string) (user target : User)
    (timestamp : Z) :
  users !! u = Some user -> users !! t = Some target -> u <> t ->
  let users' := blockUser u t timestamp users in
  isBlocked u t users' = true /\ isBlocked t u users' = true
  /\ (forall x, isBlocked u x users = true -> isBlocked u x users' = true)
  /\ (forall x, isBlocked t x users = true -> isBlocked t x users' = true)
  /\ (NoDup (blockedUsers user) -> NoDup (getBlockedUsers u users'))
  /\ (NoDup (blockedUsers target) -> NoDup (getBlockedUsers t users'))
  /\ (forall w, w <> u -> w <> t -> users' !! w = users !! w)
  /\ (forall later,
        let again := blockUser u t later users' in
        getBlockedUsers u again = getBlockedUsers u users'
        /\ getBlockedUsers t again = getBlockedUsers t users'
        /\ (blockedAt <$> again !! u) = Some (<[t := later]> (blockedAt user))
        /\ (blockedAt <$> again !! t) = Some (<[u := later]> (blockedAt target)))
  /\ (forall a b (others : gmap string User),
        others !! a = None \/ others !! b = None -> blockUser a b timestamp others = others).
Proof.
  intros Hu Ht Hne users'.
  assert (Hu' : users' !! u = Some (blocks t timestamp user)).
  { subst users'. unfold blockUser. rewrite Hu, Ht.
    rewrite lookup_insert_ne by (intros E; apply Hne; symmetry; exact E).
    apply lookup_insert_eq. }
  assert (Ht' : users' !! t = Some (blocks u timestamp target)).
  { subst users'. unfold blockUser. rewrite Hu, Ht. apply lookup_insert_eq. }
  unfold isBlocked, getBlockedUsers. rewrite Hu', Ht', Hu, Ht. cbn [blocks blockedUsers].
  split; [apply includes_push_new; left; reflexivity|].
  split; [apply includes_push_new; left; reflexivity|].
  split; [intros x Hx; apply includes_push_new; right; exact Hx|].
  split; [intros x Hx; apply includes_push_new; right; exact Hx|].
  split; [apply push_new_NoDup|]. split; [apply push_new_NoDup|].
  split.
  - intros w Hwu Hwt. subst users'. unfold blockUser. rewrite Hu, Ht.
    rewrite !lookup_insert_ne by (intros E; symmetry in E; contradiction).
    reflexivity.
  - split.
    + intros later.
      assert (Hau : blockUser u t later users' !! u
                    = Some (blocks t later (blocks t timestamp user))).
      { unfold blockUser at 1. rewrite Hu', Ht'.
        rewrite lookup_insert_ne by (intros E; apply Hne; symmetry; exact E).
        apply lookup_insert_eq. }
      assert (Hat : blockUser u t later users' !! t
                    = Some (blocks u later (blocks u timestamp target))).
      { unfold blockUser at 1. rewrite Hu', Ht'. apply lookup_insert_eq. }
      rewrite Hau, Hat. cbn [blocks blockedUsers blockedAt fmap option_fmap option_map].
      rewrite !push_new_again, !insert_insert_eq. repeat split.
    + intros a b others [Ha|Hb]; unfold blockUser.
      * rewrite Ha. reflexivity.
      * rewrite Hb. destruct (others !! a); reflexivity.
Qed.

Lemma blocking_is_mutual_witness :
  let alice := mkUser "alice" "Alice" [] ∅ in
  let bob := mkUser "bob" "Bob" ["carol"] {[ "carol" := 50 ]} in
  let users : gmap string User := {[ "alice" := alice; "bob" := bob ]} in
  let users' := blockUser "alice" "bob" 900 users in
  isBlocked "alice" "bob" users' = true /\ isBlocked "bob" "alice" users' = true
  /\ (forall x, isBlocked "alice" x users = true -> isBlocked "alice" x users' = true)
  /\ (forall x, isBlocked "bob" x users = true -> isBlocked "bob" x users' = true)
  /\ (NoDup (blockedUsers alice) -> NoDup (getBlockedUsers "alice" users'))
  /\ (NoDup (blockedUsers bob) -> NoDup (getBlockedUsers "bob" users'))
  /\ (forall w, w <> "alice" -> w <> "bob" -> users' !! w = users !! w)
  /\ (forall later,
        let again := blockUser "alice" "bob" later users' in
        getBlockedUsers "alice" again = getBlockedUsers "alice" users'
        /\ getBlockedUsers "bob" again = getBlockedUsers "bob" users'
        /\ (blockedAt <$> again !! "alice") = Some (<["bob" := later]> (blockedAt alice))
        /\ (blockedAt <$> again !! "bob") = Some (<["alice" := later]> (blockedAt bob)))
  /\ (forall a b (others : gmap string User),
        others !! a = None \/ others !! b = None -> blockUser a b 900 others = others).
Proof.
  apply (blocking_is_mutual
           {[ "alice" := mkUser "alice" "Alice" [] ∅;
              "bob" := mkUser "bob" "Bob" ["carol"] {[ "carol" := 50 ]} ]}
           "alice" "bob" (mkUser "alice" "Alice" [] ∅)
           (mkUser "bob" "Bob" ["carol"] {[ "carol" := 50 ]}) 900);
    first [reflexivity | discriminate].
Defined.
